(** * cc-best: the configuration validators

    A shallow embedding of the two Node.js validators of the repository,
    [verify-hooks.js] (hook registry) and [validate-agents.js] (agent
    descriptors and the plugin manifest), with the properties the
    specification states about them.

    Layout: JavaScript values and string primitives, then the hook
    validator, then the descriptor validator, then the theorems. *)

From stdpp Require Import base option list gmap.
From Stdlib Require Import String Ascii DecimalString NArith ZArith QArith Lia Lqa.
Close Scope Q_scope.
Set Warnings "-register-all".
Open Scope list_scope.

(** ** JavaScript strings

    A JavaScript string is a sequence of UTF-16 code units.  A code unit is
    an [N]; the functions below are total on every list, so a statement
    about all lists covers every string the scripts can read. *)

Abbreviation jstr := (list N).

Definition js (s : string) : jstr :=
  List.map N_of_ascii (list_ascii_of_string s).

(** The class [\s] of a JavaScript regular expression, which is also the
    set [String.prototype.trim] strips: WhiteSpace and LineTerminator. *)
Definition is_space (c : N) : bool :=
  ((9 <=? c) && (c <=? 13) || (c =? 32) || (c =? 160) || (c =? 5760)
   || (8192 <=? c) && (c <=? 8202) || (c =? 8232) || (c =? 8233)
   || (c =? 8239) || (c =? 8287) || (c =? 12288) || (c =? 65279))%N.

(** The characters the regular-expression dot does not match. *)
Definition is_line_terminator (c : N) : bool :=
  ((c =? 10) || (c =? 13) || (c =? 8232) || (c =? 8233))%N.

(** [[A-Za-z]] *)
Definition is_alpha (c : N) : bool :=
  ((65 <=? c) && (c <=? 90) || (97 <=? c) && (c <=? 122))%N.

Fixpoint jstr_eqb (a b : jstr) : bool :=
  match a, b with
  | [], [] => true
  | x :: a', y :: b' => (x =? y)%N && jstr_eqb a' b'
  | _, _ => false
  end.

Fixpoint skip_while (p : N -> bool) (s : jstr) : jstr :=
  match s with
  | [] => []
  | c :: s' => if p c then skip_while p s' else s
  end.

Fixpoint keep_while (p : N -> bool) (s : jstr) : jstr :=
  match s with
  | [] => []
  | c :: s' => if p c then c :: keep_while p s' else []
  end.

Definition trimStart (s : jstr) : jstr := skip_while is_space s.
Definition trimEnd (s : jstr) : jstr := rev (skip_while is_space (rev s)).
Definition trim (s : jstr) : jstr := trimEnd (trimStart s).

Fixpoint startsWith (s p : jstr) : bool :=
  match p, s with
  | [], _ => true
  | x :: p', y :: s' => (x =? y)%N && startsWith s' p'
  | _ :: _, [] => false
  end.

Definition endsWith (s p : jstr) : bool := startsWith (rev s) (rev p).

(** [strip_prefix s p] is the rest of [s] after the prefix [p]. *)
Fixpoint strip_prefix (s p : jstr) : option jstr :=
  match p, s with
  | [], _ => Some s
  | x :: p', y :: s' => if (x =? y)%N then strip_prefix s' p' else None
  | _ :: _, [] => None
  end.

(** [s.split(sep)] for a one-character separator: never empty. *)
Fixpoint split (sep : N) (s : jstr) : list jstr :=
  match s with
  | [] => [[]]
  | c :: s' =>
      if (c =? sep)%N then [] :: split sep s'
      else match split sep s' with
           | [] => [[c]]
           | w :: ws => (c :: w) :: ws
           end
  end.

(** [s.slice(1, -1)] *)
Definition slice_1_m1 (s : jstr) : jstr := removelast (tl s).

(** ** JavaScript values *)

(** A number read by [JSON.parse]: a finite double, which is a rational, or
    an infinity when the literal overflows.  The scripts only compare a
    number with small integer constants and with [5 / 10] and [60 / 10],
    which are exact, so comparing the rationals is comparing the doubles. *)
Inductive number :=
| Finite (q : Q)
| PosInf
| NegInf.

Definition num_ltb (a b : number) : bool :=
  match a, b with
  | Finite x, Finite y => negb (Qle_bool y x)
  | Finite _, PosInf => true
  | NegInf, Finite _ => true
  | NegInf, PosInf => true
  | _, _ => false
  end.

Definition num_div (a : number) (d : Z) : number :=
  match a with
  | Finite x => Finite (x / inject_Z d)%Q
  | other => other
  end.

(** A value: what [JSON.parse] returns, and [undefined], which reading a
    missing property gives.  An object lists its own properties, under
    distinct names, in the order [Object.entries] enumerates them. *)
Inductive jsval :=
| JUndefined
| JNull
| JBool (b : bool)
| JNum (n : number)
| JStr (s : jstr)
| JArr (items : list jsval)
| JObj (props : list (jstr * jsval)).

Inductive js_type := TUndefined | TObject | TBoolean | TNumber | TString.

Definition typeof (v : jsval) : js_type :=
  match v with
  | JUndefined => TUndefined
  | JNull => TObject
  | JBool _ => TBoolean
  | JNum _ => TNumber
  | JStr _ => TString
  | JArr _ => TObject
  | JObj _ => TObject
  end.

Definition js_type_eqb (a b : js_type) : bool :=
  match a, b with
  | TUndefined, TUndefined | TObject, TObject | TBoolean, TBoolean
  | TNumber, TNumber | TString, TString => true
  | _, _ => false
  end.

(** ToBoolean *)
Definition truthy (v : jsval) : bool :=
  match v with
  | JUndefined | JNull => false
  | JBool b => b
  | JNum (Finite q) => negb (Qeq_bool q 0)
  | JNum _ => true
  | JStr s => match s with [] => false | _ => true end
  | JArr _ | JObj _ => true
  end.

Definition isArray (v : jsval) : bool :=
  match v with JArr _ => true | _ => false end.

(** Evaluation either returns or throws a [TypeError]; nothing in the
    scripts catches it. *)
Inductive result (A : Type) :=
| Ok (a : A)
| TypeError.
Arguments Ok {A} a.
Arguments TypeError {A}.

Definition bind {A B} (r : result A) (k : A -> result B) : result B :=
  match r with
  | Ok a => k a
  | TypeError => TypeError
  end.

Declare Scope js_scope.
Delimit Scope js_scope with js.
Notation "x <- r ;; k" := (bind r (fun x => k))
  (at level 60, r at next level, right associativity) : js_scope.

Fixpoint assoc (k : jstr) (props : list (jstr * jsval)) : jsval :=
  match props with
  | [] => JUndefined
  | (k', v) :: rest => if jstr_eqb k k' then v else assoc k rest
  end.

(** [v.k] for the property names the validator reads ([hooks], [matcher],
    [type], [command], [timeout], [agents]): none of them is defined on a
    built-in prototype, so only own properties of objects answer, and
    reading from [null] or [undefined] throws. *)
Definition get (v : jsval) (k : jstr) : result jsval :=
  match v with
  | JUndefined | JNull => TypeError
  | JObj props => Ok (assoc k props)
  | _ => Ok JUndefined
  end.

(** A template literal: literal chunks and interpolated values, in order.
    A plain string literal is a message of one chunk. *)
Inductive part :=
| Lit (s : string)
| Val (v : jsval).

Abbreviation message := (list part).

(** Converting an interpolated value to text can throw.  No value that
    [JSON.parse] returns is callable, so an object with an own property
    [toString] has no usable conversion: that property is skipped, and
    [valueOf], own or inherited, gives no primitive; the template literal
    throws a [TypeError].  An object without it is converted by
    [Object.prototype.toString].  An array is joined: every element other
    than [null] and [undefined] is converted in its turn.  Nothing else
    throws. *)
Fixpoint to_string_throws (v : jsval) : bool :=
  match v with
  | JObj props => existsb (fun kv => jstr_eqb (js "toString") (fst kv)) props
  | JArr items => existsb to_string_throws items
  | _ => false
  end.

(** ** The hook validator ([verify-hooks.js]) *)

Module VerifyHooks.

(** [CONFIG] *)
Definition timeout_min : number := Finite 1.
Definition timeout_max : number := Finite 600.

(** [CONFIG.timeout.recommended[lifecycle]].  A name inherited from
    [Object.prototype] (such as [constructor]) reads a function there; it is
    truthy, but dividing it by ten is [NaN] and the comparison with it is
    false, which is what [None] does below. *)
Definition recommended (lifecycle : jstr) : option number :=
  if jstr_eqb lifecycle (js "PreToolUse") then Some (Finite 5)
  else if jstr_eqb lifecycle (js "PostToolUse") then Some (Finite 60)
  else if jstr_eqb lifecycle (js "SessionStart") then Some (Finite 5)
  else if jstr_eqb lifecycle (js "SessionEnd") then Some (Finite 5)
  else None.

Definition validLifecycles : list jstr :=
  [js "PreToolUse"; js "PostToolUse"; js "Notification"; js "Stop";
   js "SessionEnd"; js "SessionStart"; js "PreCompact"; js "Setup"].

Definition validHookTypes : list jstr := [js "command"].

(** [list.includes(v)] for a list of strings. *)
Definition includes (l : list jstr) (v : jsval) : bool :=
  match v with
  | JStr s => existsb (jstr_eqb s) l
  | _ => false
  end.

(** What a validation function returns: [{ valid, error, warning }]. *)
Record verdict := {
  valid : bool;
  error : option message;
  warning : option message
}.

(** *** validateMatcher *)

(** [/^[A-Za-z]+$/] *)
Definition re_tool (s : jstr) : bool :=
  match s with
  | [] => false
  | _ => forallb is_alpha s
  end.

(** [/^[A-Za-z]+\|[A-Za-z|]+$/].  The first group is greedy and a pipe is
    not a letter, so it takes the whole leading run of letters. *)
Definition re_pipe (s : jstr) : bool :=
  match keep_while is_alpha s, skip_while is_alpha s with
  | _ :: _, sep :: c :: rest =>
      (sep =? 124)%N
      && forallb (fun c => is_alpha c || (c =? 124)%N) (c :: rest)
  | _, _ => false
  end.

(** [/^[A-Za-z]+\(.*\)$/]: after the parenthesis, characters the dot
    matches and a closing parenthesis as the last character of the string. *)
Definition re_args (s : jstr) : bool :=
  match keep_while is_alpha s, skip_while is_alpha s with
  | _ :: _, open :: c :: rest =>
      (open =? 40)%N
      && (List.last (c :: rest) 0 =? 41)%N
      && forallb (fun c => negb (is_line_terminator c))
           (removelast (c :: rest))
  | _, _ => false
  end.

Definition matcher_empty : message := [Lit "matcher 不能为空"].
Definition matcher_syntax : message := [Lit "matcher 语法可能不正确"].

Definition validateMatcher (matcher : jsval) : verdict :=
  match matcher with
  | JStr ((_ :: _) as m) =>
      let isValid :=
        jstr_eqb m (js "*") || re_tool m || re_pipe m || re_args m in
      {| valid := isValid;
         error := if isValid then None else Some matcher_syntax;
         warning := None |}
  | _ => {| valid := false; error := Some matcher_empty; warning := None |}
  end.

(** *** validateTimeout *)

Definition timeout_unset : message := [Lit "未设置 timeout，将使用默认值"].

Definition timeout_not_positive (timeout : jsval) : message :=
  [Lit "timeout 必须是正数（当前: "; Val timeout; Lit "）"].

Definition timeout_too_large (timeout : jsval) : message :=
  [Lit "timeout 超过最大值 "; Val (JNum timeout_max); Lit "s（当前: ";
   Val timeout; Lit "s）"].

Definition timeout_too_short (timeout : jsval) (rec : number) : message :=
  [Lit "timeout 可能过短（当前: "; Val timeout; Lit "s，建议: ";
   Val (JNum rec); Lit "s）"].

(** The three messages interpolate the timeout.  A number always has a
    text; a timeout that is not a number is converted where the first
    message is built, and that can throw. *)
Definition validateTimeout (timeout : jsval) (lifecycle : jstr)
  : result verdict :=
  match timeout with
  | JUndefined | JNull =>
      Ok {| valid := true; error := None; warning := Some timeout_unset |}
  | JNum n =>
      if num_ltb n timeout_min then
        Ok {| valid := false; error := Some (timeout_not_positive timeout);
              warning := None |}
      else if num_ltb timeout_max n then
        Ok {| valid := false; error := Some (timeout_too_large timeout);
              warning := None |}
      else
        match recommended lifecycle with
        | Some rec =>
            if truthy (JNum rec) && num_ltb n (num_div rec 10) then
              Ok {| valid := true; error := None;
                    warning := Some (timeout_too_short timeout rec) |}
            else Ok {| valid := true; error := None; warning := None |}
        | None => Ok {| valid := true; error := None; warning := None |}
        end
  | _ =>
      if to_string_throws timeout then TypeError
      else Ok {| valid := false; error := Some (timeout_not_positive timeout);
                 warning := None |}
  end.

(** *** validateScriptPath and validateHook

    The script path depends on the machine: the platform, the home
    directory and the environment decide how the path cut out of the command
    is expanded, and the file system decides whether it exists. *)

Record path_result := {
  p_valid : bool;
  p_error : option string;
  p_path : jsval
}.

Record hook_result := {
  issues : list message;
  warnings : list message
}.

Section Machine.

(** The path the command's regular expression extracts, expanded; [None]
    when the command does not match. *)
Variable extractScriptPath : jstr -> option jstr.
Variable existsSync : jstr -> bool.

Definition validateScriptPath (command : jstr) : path_result :=
  match extractScriptPath command with
  | None =>
      {| p_valid := false;
         p_error := Some "无法解析脚本路径"%string;
         p_path := JNull |}
  | Some scriptPath =>
      let exists_ := existsSync scriptPath in
      {| p_valid := exists_;
         p_error := if exists_ then None
                    else Some "脚本文件不存在"%string;
         p_path := JStr scriptPath |}
  end.

Definition invalid_type (type : jsval) : message :=
  [Lit "无效的 hook type: "; Val type].
Definition missing_command : message := [Lit "缺少 command 字段"].
Definition path_issue (r : path_result) (command : jsval) : message :=
  [from_option Lit (Val JNull) (p_error r); Lit ": ";
   Val (if truthy (p_path r) then p_path r else command)].

(** The [type] block of [validateHook]: the message interpolates the
    type, and converting it to text can throw. *)
Definition type_issues (type : jsval) : result (list message) :=
  if negb (truthy type) || negb (includes validHookTypes type)
  then (if to_string_throws type then TypeError else Ok [invalid_type type])
  else Ok [].

(** The [command] block: [command.match] is only defined on strings. *)
Definition command_issues (command : jsval) : result (list message) :=
  if negb (truthy command) then Ok [missing_command]
  else match command with
       | JStr c =>
           let pathResult := validateScriptPath c in
           if p_valid pathResult then Ok []
           else Ok [path_issue pathResult command]
       | _ => TypeError
       end.

(** The [timeout] block: what it pushes on [issues] and on [warnings]. *)
Definition timeout_issues (timeoutResult : verdict) : list message :=
  if valid timeoutResult then []
  else from_option (fun e => [e]) [] (error timeoutResult).

Definition timeout_warnings (timeoutResult : verdict) : list message :=
  if valid timeoutResult
  then from_option (fun w => [w]) [] (warning timeoutResult)
  else [].

Definition validateHook (hook : jsval) (lifecycle : jstr)
  : result hook_result :=
  (type <- get hook (js "type") ;;
   issues1 <- type_issues type ;;
   command <- get hook (js "command") ;;
   issues2 <- command_issues command ;;
   timeout <- get hook (js "timeout") ;;
   timeoutResult <- validateTimeout timeout lifecycle ;;
   Ok {| issues := issues1 ++ issues2 ++ timeout_issues timeoutResult;
         warnings := timeout_warnings timeoutResult |})%js.

(** *** validateHooksConfig *)

Record entry_result := {
  index : nat;
  matcher : jsval;
  e_issues : list message;
  e_warnings : list message
}.

(** A value of [results.lifecycles]: [{ valid: false, error }] or
    [{ valid, entries }]. *)
Inductive lifecycle_result :=
| LifecycleError (error : message)
| LifecycleEntries (valid : bool) (entries : list entry_result).

Record summary := {
  errors : nat;
  s_warnings : nat;
  hooks : nat
}.

Record results := {
  source : jstr;
  r_valid : bool;
  r_error : option message;
  lifecycles : list (jstr * lifecycle_result);
  r_summary : summary
}.

Definition no_hooks : message := [Lit "未找到 hooks 配置"].
Definition unknown_lifecycle (lifecycle : jstr) : message :=
  [Lit "未知的生命周期事件: "; Val (JStr lifecycle)].
Definition not_an_array : message := [Lit "hooks 配置应该是数组"].
Definition missing_hooks_array : message := [Lit "缺少 hooks 数组"].

(** The loop over [entry.hooks]: the state is the entry's two lists and the
    number of hooks validated so far. *)
Fixpoint hooks_loop (hooks : list jsval) (lifecycle : jstr)
    (acc : hook_result) (count : nat) : result (hook_result * nat) :=
  match hooks with
  | [] => Ok (acc, count)
  | hook :: rest =>
      (hookResult <- validateHook hook lifecycle ;;
       hooks_loop rest lifecycle
         {| issues := issues acc ++ issues hookResult;
            warnings := warnings acc ++ warnings hookResult |}
         (S count))%js
  end.

(** The body of the loop over a lifecycle's entries, for entry [i]: the
    entry's result and the number of hooks it validated. *)
Definition validate_entry (entry : jsval) (i : nat) (lifecycle : jstr)
  : result (entry_result * nat) :=
  (matcher <- get entry (js "matcher") ;;
   let matcherResult := validateMatcher matcher in
   let issues0 :=
     if valid matcherResult then []
     else from_option (fun e => [e]) [] (error matcherResult) in
   hooks <- get entry (js "hooks") ;;
   match hooks with
   | JArr hs =>
       r <- hooks_loop hs lifecycle
              {| issues := issues0; warnings := [] |} 0 ;;
       Ok ({| index := i; matcher := matcher;
              e_issues := issues (fst r);
              e_warnings := warnings (fst r) |}, snd r)
   | _ =>
       Ok ({| index := i; matcher := matcher;
              e_issues := issues0 ++ [missing_hooks_array];
              e_warnings := [] |}, 0)
   end)%js.

(** The loop over a lifecycle's entries: the state is [lifecycleResult] and
    [results.summary]. *)
Fixpoint entries_loop (entries : list jsval) (i : nat) (lifecycle : jstr)
    (lvalid : bool) (done : list entry_result) (sm : summary)
  : result (bool * list entry_result * summary) :=
  match entries with
  | [] => Ok (lvalid, done, sm)
  | entry :: rest =>
      (r <- validate_entry entry i lifecycle ;;
       let entryResult := fst r in
       let failed := negb (List.length (e_issues entryResult) =? 0) in
       entries_loop rest (S i) lifecycle
         (if failed then false else lvalid)
         (done ++ [entryResult])
         {| errors :=
              if failed then errors sm + List.length (e_issues entryResult)
              else errors sm;
            s_warnings := s_warnings sm + List.length (e_warnings entryResult);
            hooks := hooks sm + snd r |})%js
  end.

(** [o[k] = v] on an object used as a map.  Assigning to [__proto__] sets
    the prototype and creates no property. *)
Fixpoint set_own {A} (k : jstr) (v : A) (o : list (jstr * A))
  : list (jstr * A) :=
  match o with
  | [] => [(k, v)]
  | (k', v') :: o' =>
      if jstr_eqb k k' then (k', v) :: o' else (k', v') :: set_own k v o'
  end.

Definition assign {A} (k : jstr) (v : A) (o : list (jstr * A))
  : list (jstr * A) :=
  if jstr_eqb k (js "__proto__") then o else set_own k v o.

Definition add_error (sm : summary) : summary :=
  {| errors := S (errors sm); s_warnings := s_warnings sm;
     hooks := hooks sm |}.

(** The loop over [Object.entries(config.hooks)]. *)
Fixpoint lifecycles_loop (es : list (jstr * jsval)) (res : results)
  : result results :=
  match es with
  | [] => Ok res
  | (lifecycle, entries) :: rest =>
      if negb (existsb (jstr_eqb lifecycle) validLifecycles) then
        lifecycles_loop rest
          {| source := source res; r_valid := r_valid res;
             r_error := r_error res;
             lifecycles :=
               assign lifecycle
                 (LifecycleError (unknown_lifecycle lifecycle))
                 (lifecycles res);
             r_summary := add_error (r_summary res) |}
      else
        match entries with
        | JArr items =>
            (r <- entries_loop items 0 lifecycle true [] (r_summary res) ;;
             let '(lvalid, done, sm) := r in
             lifecycles_loop rest
               {| source := source res;
                  r_valid := if lvalid then r_valid res else false;
                  r_error := r_error res;
                  lifecycles :=
                    assign lifecycle (LifecycleEntries lvalid done)
                      (lifecycles res);
                  r_summary := sm |})%js
        | _ =>
            lifecycles_loop rest
              {| source := source res; r_valid := r_valid res;
                 r_error := r_error res;
                 lifecycles :=
                   assign lifecycle (LifecycleError not_an_array)
                     (lifecycles res);
                 r_summary := add_error (r_summary res) |}
        end
  end.

Definition decimal (i : nat) : jstr :=
  js (NilEmpty.string_of_uint (Nat.to_uint i)).

(** [Object.entries(v)] for a truthy value of type object: the own
    properties of an object, in the order the list gives them, and the
    index-keyed elements of an array. *)
Definition object_entries (v : jsval) : list (jstr * jsval) :=
  match v with
  | JObj props => props
  | JArr items => imap (fun i x => (decimal i, x)) items
  | _ => []
  end.

Definition validateHooksConfig (config : jsval) (source : jstr)
  : result results :=
  let results0 :=
    {| source := source; r_valid := true; r_error := None;
       lifecycles := [];
       r_summary := {| errors := 0; s_warnings := 0; hooks := 0 |} |} in
  (hooks <- get config (js "hooks") ;;
   if negb (truthy hooks) || negb (js_type_eqb (typeof hooks) TObject) then
     Ok {| source := source; r_valid := false; r_error := Some no_hooks;
           lifecycles := [];
           r_summary := {| errors := 0; s_warnings := 0; hooks := 0 |} |}
   else lifecycles_loop (object_entries hooks) results0)%js.

(** *** printReport

    What the report prints is left out, but not whether it can be printed.
    A source with a top-level error prints that error and returns; a
    lifecycle with an error prints that error alone; the line of an entry
    interpolates the entry's matcher, and converting it to text can throw.
    [printSuggestions], which follows, interpolates strings and numbers
    only. *)
Definition printReport (r : results) : result unit :=
  match r_error r with
  | Some _ => Ok tt
  | None =>
      if existsb
           (fun kl =>
              match snd kl with
              | LifecycleError _ => false
              | LifecycleEntries _ entries =>
                  existsb (fun e => to_string_throws (matcher e)) entries
              end) (lifecycles r)
      then TypeError else Ok tt
  end.

(** *** main *)

(** The three files of [getConfigPaths]. *)
Inductive config_path :=
| GlobalSettings
| ProjectLocalSettings
| ProjectSettings.

(** What [readJsonFile] returns: the parsed document, or a failure (the
    file is missing or is not JSON). *)
Inductive read_result :=
| ReadSuccess (data : jsval)
| ReadFailure.

Variable paths : config_path -> jstr.
Variable readJsonFile : config_path -> read_result.

Record run := {
  allResults : list results;
  exit_code : Z
}.

(** [allResults.reduce((sum, r) => sum + f(r.summary), 0)] *)
Definition sum_of (f : summary -> nat) (rs : list results) : nat :=
  fold_left (fun sum r => sum + f (r_summary r)) rs 0.

(** The run is the list of results and the exit code; of what the script
    prints only the report's exception is kept. *)
Definition main (args : list jstr) : result run :=
  let checkGlobal :=
    existsb (jstr_eqb (js "--global")) args || (List.length args =? 0) in
  let checkProject :=
    existsb (jstr_eqb (js "--project")) args || (List.length args =? 0) in
  (all1 <-
     (if checkGlobal then
        match readJsonFile GlobalSettings with
        | ReadSuccess data =>
            r <- validateHooksConfig data (paths GlobalSettings) ;;
            printed <- printReport r ;; Ok [r]
        | ReadFailure => Ok []
        end
      else Ok []) ;;
   all2 <-
     (if checkProject then
        let '(projectConfig, path) :=
          match readJsonFile ProjectLocalSettings with
          | ReadSuccess data => (ReadSuccess data, ProjectLocalSettings)
          | ReadFailure => (readJsonFile ProjectSettings, ProjectSettings)
          end in
        match projectConfig with
        | ReadSuccess data =>
            r <- validateHooksConfig data (paths path) ;;
            printed <- printReport r ;; Ok (all1 ++ [r])
        | ReadFailure => Ok all1
        end
      else Ok all1) ;;
   let totalErrors := sum_of errors all2 in
   let totalWarnings := sum_of s_warnings all2 in
   if (totalErrors =? 0) && (totalWarnings =? 0) then
     Ok {| allResults := all2; exit_code := 0 |}
   else if totalErrors =? 0 then
     Ok {| allResults := all2; exit_code := 0 |}
   else Ok {| allResults := all2; exit_code := 1 |})%js.

(** The status the process ends with: the argument of [process.exit], or 1
    when an exception is not caught. *)
Definition exit_status (r : result run) : Z :=
  match r with
  | Ok x => exit_code x
  | TypeError => 1
  end.

End Machine.

End VerifyHooks.

(** ** The descriptor validator ([validate-agents.js]) *)

Module ValidateAgents.

Definition REQUIRED_FIELDS : list jstr :=
  [js "name"; js "description"; js "tools"].

Definition VALID_MODELS : list jstr := [js "opus"; js "sonnet"; js "haiku"].

(** A value of the parsed header: a string or an array of strings. *)
Inductive field_value :=
| FStr (s : jstr)
| FArr (items : list jstr).

Definition nl : N := 10.
Definition dash : N := 45.
Definition colon : N := 58.
Definition comma : N := 44.
Definition dashes : jstr := [dash; dash; dash].

(** *** parseFrontmatter *)

(** The lazy group of [/^---\n([\s\S]*?)\n---/]: the text before the first
    place where a newline and three dashes follow. *)
Fixpoint before_closing (s : jstr) : option jstr :=
  match s with
  | [] => None
  | c :: s' =>
      if startsWith s (nl :: dashes) then Some []
      else option_map (cons c) (before_closing s')
  end.

Definition header_block (content : jstr) : option jstr :=
  match strip_prefix content (dashes ++ [nl]) with
  | Some rest => before_closing rest
  | None => None
  end.

(** What is left of a line after the match of [/^\s+-\s+/], when the line
    matches. *)
Definition array_item (line : jstr) : option jstr :=
  match line with
  | c :: _ =>
      if is_space c then
        match skip_while is_space line with
        | h :: d :: rest =>
            if (h =? dash)%N && is_space d
            then Some (skip_while is_space rest) else None
        | _ => None
        end
      else None
  | [] => None
  end.

(** [/^\s+/.test(line)] and [/^\s/.test(line.charAt(0))] *)
Definition indented (line : jstr) : bool :=
  match line with
  | c :: _ => is_space c
  | [] => false
  end.

(** [line.indexOf(c)]; [None] is -1. *)
Fixpoint indexOf (c : N) (s : jstr) : option nat :=
  match s with
  | [] => None
  | x :: s' => if (x =? c)%N then Some 0 else option_map S (indexOf c s')
  end.

(** The replacement that deletes every single and double quote. *)
Definition remove_quotes (s : jstr) : jstr :=
  List.filter (fun c => negb ((c =? 39) || (c =? 34))%N) s.

Definition is_quoted (value : jstr) : bool :=
  startsWith value [34%N] && endsWith value [34%N]
  || startsWith value [39%N] && endsWith value [39%N].

Inductive mode := ModeNone | ModeArray | ModeString.

(** The variables of the loop over the header's lines.  [data] holds the
    own properties of the object being filled. *)
Record state := {
  data : gmap jstr field_value;
  currentKey : option jstr;
  multilineMode : mode
}.

(** The property name a key evaluates to; [null] names the property
    [null]. *)
Definition key_of (k : option jstr) : jstr := from_option id (js "null") k.

(** [data[key] = v].  On an object literal, assigning to [__proto__] never
    creates a property, and none of the names the validator later reads
    ([name], [description], [tools], [model]) is found through a prototype. *)
Definition store (key : jstr) (v : field_value)
    (d : gmap jstr field_value) : gmap jstr field_value :=
  if jstr_eqb key (js "__proto__") then d else <[key := v]> d.

(** [if (!Array.isArray(data[key])) data[key] = []; data[key].push(item)] *)
Definition push (key item : jstr) (d : gmap jstr field_value)
  : gmap jstr field_value :=
  match d !! key with
  | Some (FArr items) => store key (FArr (items ++ [item])) d
  | _ => store key (FArr [item]) d
  end.

Fixpoint join (sep : jstr) (l : list jstr) : jstr :=
  match l with
  | [] => []
  | [x] => x
  | x :: rest => x ++ sep ++ join sep rest
  end.

(** [data[key] += space + text]: the old value is converted to a string. *)
Definition append (key text : jstr) (d : gmap jstr field_value)
  : gmap jstr field_value :=
  let old :=
    match d !! key with
    | Some (FStr s) => s
    | Some (FArr items) => join [comma] items
    | None => js "undefined"
    end in
  store key (FStr (old ++ [32%N] ++ text)) d.

(** The classification of the value of a top-level key line. *)
Definition classify (key value : jstr) (d : gmap jstr field_value)
  : gmap jstr field_value * mode :=
  if startsWith value [91%N] && endsWith value [93%N] then
    (store key
       (FArr (List.map (fun s => remove_quotes (trim s))
                (split comma (slice_1_m1 value)))) d,
     ModeNone)
  else if jstr_eqb value [124%N] || jstr_eqb value [62%N] then
    (store key (FStr []) d, ModeString)
  else if jstr_eqb value [] then
    (store key (FArr []) d, ModeArray)
  else if is_quoted value then
    (store key (FStr (slice_1_m1 value)) d, ModeNone)
  else
    (store key (FStr value) d, ModeNone).

(** One iteration of the loop. *)
Definition step (st : state) (line : jstr) : state :=
  match multilineMode st, array_item line with
  | ModeArray, Some rest =>
      {| data := push (key_of (currentKey st)) (trim rest) (data st);
         currentKey := currentKey st;
         multilineMode := ModeArray |}
  | _, item =>
      if match multilineMode st with ModeString => true | _ => false end
         && indented line
         && match item with None => true | Some _ => false end
      then
        {| data := append (key_of (currentKey st)) (trim line) (data st);
           currentKey := currentKey st;
           multilineMode := ModeString |}
      else
        let skip :=
          {| data := data st; currentKey := currentKey st;
             multilineMode := ModeNone |} in
        match indexOf colon line with
        | None => skip
        | Some colonIndex =>
            let key := trim (take colonIndex line) in
            if jstr_eqb key [] || indented line then skip
            else
              let value := trim (drop (S colonIndex) line) in
              let '(d, m) := classify key value (data st) in
              {| data := d; currentKey := Some key; multilineMode := m |}
        end
  end.

Definition initial : state :=
  {| data := ∅; currentKey := None; multilineMode := ModeNone |}.

(** [None] is the [null] the function returns when the header is missing. *)
Definition parseFrontmatter (content : jstr)
  : option (gmap jstr field_value) :=
  match header_block content with
  | None => None
  | Some block => Some (data (fold_left step (split nl block) initial))
  end.

(** *** validateAgent *)

Definition to_jsval (v : field_value) : jsval :=
  match v with
  | FStr s => JStr s
  | FArr items => JArr (List.map JStr items)
  end.

(** [data[field]], [undefined] when there is no such property. *)
Definition field (d : gmap jstr field_value) (k : jstr) : jsval :=
  from_option to_jsval JUndefined (d !! k).

Definition dq : string := String (ascii_of_nat 34) EmptyString.

Definition unreadable (reason : jstr) : message :=
  [Lit "无法读取文件: "; Val (JStr reason)].
Definition no_frontmatter : message := [Lit "缺少 YAML frontmatter"].
Definition bad_frontmatter : message := [Lit "YAML frontmatter 格式错误"].
Definition missing_field (f : jstr) : message :=
  [Lit "缺少必需字段: "; Val (JStr f)].
Definition name_mismatch (name : jsval) (expectedName : jstr) : message :=
  [Lit ("name " ++ dq); Val name; Lit (dq ++ " 与文件名 " ++ dq);
   Val (JStr expectedName); Lit (dq ++ " 不一致")].
Definition invalid_model (model : jsval) : message :=
  [Lit "无效的 model 值: "; Val model; Lit "，应为 ";
   Val (JStr (join (js "/") VALID_MODELS))].
Definition short_description : message :=
  [Lit "description 过短，建议至少 20 字符"].
Definition short_body : message := [Lit "文件内容过少，建议添加更多说明"].

(** [s.replace(p, empty)] for a string pattern: the first occurrence goes. *)
Fixpoint remove_first (p s : jstr) : jstr :=
  match strip_prefix s p with
  | Some rest => rest
  | None =>
      match s with
      | [] => []
      | c :: s' => c :: remove_first p s'
      end
  end.

(** The body regular expression: the text after the first newline, three
    dashes and newline that follow the opening line. *)
Fixpoint after_closing (s : jstr) : option jstr :=
  match s with
  | [] => None
  | _ :: s' =>
      match strip_prefix s (nl :: dashes ++ [nl]) with
      | Some body => Some body
      | None => after_closing s'
      end
  end.

Definition body_of (content : jstr) : option jstr :=
  match strip_prefix content (dashes ++ [nl]) with
  | Some rest => after_closing rest
  | None => None
  end.

(** [v.length] of a string or an array. *)
Definition length_of (v : jsval) : nat :=
  match v with
  | JStr s => List.length s
  | JArr items => List.length items
  | _ => 0
  end.

(** [a !== b] with [b] a string. *)
Definition differs (a : jsval) (b : jstr) : bool :=
  match a with
  | JStr s => negb (jstr_eqb s b)
  | _ => true
  end.

Record report := {
  errors : list message;
  warnings : list message
}.

(** What [fs.readFileSync] does: the text of the file, or an exception with
    a message. *)
Inductive file_read :=
| FileText (content : jstr)
| FileError (reason : jstr).

Definition required_errors (d : gmap jstr field_value) : list message :=
  List.map missing_field
    (List.filter (fun f => negb (truthy (field d f))) REQUIRED_FIELDS).

(** [fileName] is the base name of the path, and [file] what reading the
    path gives. *)
Definition validateAgent (fileName : jstr) (file : file_read) : report :=
  match file with
  | FileError reason => {| errors := [unreadable reason]; warnings := [] |}
  | FileText content =>
      if negb (startsWith content dashes) then
        {| errors := [no_frontmatter]; warnings := [] |}
      else
        match parseFrontmatter content with
        | None => {| errors := [bad_frontmatter]; warnings := [] |}
        | Some d =>
            let name := field d (js "name") in
            let model := field d (js "model") in
            let description := field d (js "description") in
            let expectedName := remove_first (js ".md") fileName in
            {| errors :=
                 required_errors d
                 ++ (if truthy model
                        && negb (VerifyHooks.includes VALID_MODELS model)
                     then [invalid_model model] else []);
               warnings :=
                 (if truthy name && differs name expectedName
                  then [name_mismatch name expectedName] else [])
                 ++ (if truthy description
                        && (length_of description <? 20)
                     then [short_description] else [])
                 ++ (match body_of content with
                     | Some body =>
                         if List.length (trim body) <? 100
                         then [short_body] else []
                     | None => [short_body]
                     end) |}
        end
  end.

(** *** main ([validate-agents.js]) *)

(** [process.exit(code)], or the end of the script, which is status 0. *)
Record agents_run := {
  reports : list (jstr * report);
  status : Z
}.

Definition has_errors (rs : list (jstr * report)) : bool :=
  existsb (fun r => negb (List.length (errors (snd r)) =? 0)) rs.

(** The loop of [main] over the files: every file is validated, whatever
    the files before it produced. *)
Definition validate_all (files : list (jstr * file_read))
  : list (jstr * report) :=
  List.map (fun f => (fst f, validateAgent (fst f) (snd f))) files.

(** [listing] is what [AGENTS_DIR] holds, each name with what reading it
    gives; [None] when the directory does not exist. *)
Definition main (listing : option (list (jstr * file_read))) : agents_run :=
  match listing with
  | None => {| reports := []; status := 1 |}
  | Some entries =>
      let files :=
        List.filter (fun f => endsWith (fst f) (js ".md")) entries in
      if List.length files =? 0 then {| reports := []; status := 0 |}
      else
        let rs := validate_all files in
        {| reports := rs; status := if has_errors rs then 1 else 0 |}
  end.

(** *** validatePluginAgents (the copy of the script that also checks the
    plugin manifest) *)

Inductive plugin_file :=
| PluginAbsent
| PluginUnparsable (reason : jstr)
| PluginJson (plugin : jsval).

Definition typeof_name (t : js_type) : jstr :=
  match t with
  | TUndefined => js "undefined"
  | TObject => js "object"
  | TBoolean => js "boolean"
  | TNumber => js "number"
  | TString => js "string"
  end.

Definition num_of_nat (n : nat) : jsval :=
  JNum (Finite (inject_Z (Z.of_nat n))).

Definition plugin_unparsable (reason : jstr) : message :=
  [Lit "plugin.json 解析失败: "; Val (JStr reason)].
Definition agents_not_array : message :=
  [Lit "plugin.json agents 字段必须是数组"].
Definition entry_not_string (entry : jsval) : message :=
  [Lit "agents 元素必须是字符串，实际: ";
   Val (JStr (typeof_name (typeof entry)))].
Definition entry_is_directory (entry : jstr) : message :=
  [Lit ("agents 不支持目录路径: " ++ dq); Val (JStr entry);
   Lit (dq ++ "，必须列出每个 .md 文件")].
Definition entry_not_md (entry : jstr) : message :=
  [Lit ("agents 路径必须以 .md 结尾: " ++ dq); Val (JStr entry); Lit dq].
Definition count_mismatch (pluginCount actualCount : nat) : message :=
  [Lit "plugin.json 声明 "; Val (num_of_nat pluginCount);
   Lit " 个 agents，实际目录有 "; Val (num_of_nat actualCount); Lit " 个"].
Definition entry_missing (entry : jstr) : message :=
  [Lit ("plugin.json 引用的文件不存在: " ++ dq); Val (JStr entry); Lit dq].

Section Plugin.

(** [path.join(pluginRoot, entry)] and [fs.existsSync]. *)
Variable resolve : jstr -> jstr.
Variable existsSync : jstr -> bool.

(** The body of the first loop over [agents]. *)
Definition format_errors (entry : jsval) : list message :=
  match entry with
  | JStr e =>
      (if endsWith e (js "/") then [entry_is_directory e] else [])
      ++ (if negb (endsWith e (js ".md")) then [entry_not_md e] else [])
  | _ => [entry_not_string entry]
  end.

(** The body of the second loop over [agents]. *)
Definition existence_errors (entry : jsval) : list message :=
  match entry with
  | JStr e => if negb (existsSync (resolve e)) then [entry_missing e] else []
  | _ => []
  end.

Definition validatePluginAgents (pluginFile : plugin_file)
    (agentFiles : list jstr) : result report :=
  match pluginFile with
  | PluginAbsent => Ok {| errors := []; warnings := [] |}
  | PluginUnparsable reason =>
      Ok {| errors := [plugin_unparsable reason]; warnings := [] |}
  | PluginJson plugin =>
      (agents <- get plugin (js "agents") ;;
       match agents with
       | JArr entries =>
           let pluginCount := List.length entries in
           let actualCount := List.length agentFiles in
           Ok {| errors :=
                   flat_map format_errors entries
                   ++ (if negb (pluginCount =? actualCount)
                       then [count_mismatch pluginCount actualCount]
                       else [])
                   ++ flat_map existence_errors entries;
                 warnings := [] |}
       | _ => Ok {| errors := [agents_not_array]; warnings := [] |}
       end)%js
  end.

Record plugin_run := {
  file_reports : list (jstr * report);
  plugin_report : report;
  plugin_status : Z
}.

Definition main_plugin (listing : option (list (jstr * file_read)))
    (pluginFile : plugin_file) : result plugin_run :=
  match listing with
  | None =>
      Ok {| file_reports := [];
            plugin_report := {| errors := []; warnings := [] |};
            plugin_status := 1 |}
  | Some entries =>
      let files :=
        List.filter (fun f => endsWith (fst f) (js ".md")) entries in
      if List.length files =? 0 then
        Ok {| file_reports := [];
              plugin_report := {| errors := []; warnings := [] |};
              plugin_status := 0 |}
      else
        let rs := validate_all files in
        (pr <- validatePluginAgents pluginFile (List.map fst files) ;;
         Ok {| file_reports := rs; plugin_report := pr;
               plugin_status :=
                 if has_errors rs || negb (List.length (errors pr) =? 0)
                 then 1 else 0 |})%js
  end.

End Plugin.

(** *** Re-serialization *)

(** Modelled from the spec: the quoted-scalar form of the re-serializer,
    which the repository does not contain: the text between two double
    quotes. *)
Definition quoted (s : jstr) : jstr := [34%N] ++ s ++ [34%N].

(** Modelled from the spec: the items the re-serializer, which the
    repository does not contain, can write in an inline list: those without
    a comma and without a quote, which the parser would split on or
    delete. *)
Definition plain (item : jstr) : bool :=
  forallb (fun c => negb ((c =? comma) || (c =? 34) || (c =? 39))%N) item.

(** Modelled from the spec: the arrays the re-serializer, which the
    repository does not contain, writes as an inline list. *)
Definition inline_ok (items : list jstr) : bool :=
  match items with
  | [] => false
  | _ => forallb plain items
  end.

(** Modelled from the spec: the re-serializer of one field, which the
    repository does not contain.  It writes the three forms the spec names:
    a string as a double-quoted scalar, an array as an inline list of
    double-quoted items when it is not empty and no item holds a comma or a
    quote, and as a block list of dash lines otherwise. *)
Definition serialize_field (key : jstr) (v : field_value) : list jstr :=
  match v with
  | FStr s => [key ++ [colon; 32%N] ++ quoted s]
  | FArr items =>
      if inline_ok items then
        [key ++ [colon; 32%N; 91%N]
           ++ join [comma; 32%N] (List.map quoted items) ++ [93%N]]
      else
        (key ++ [colon])
          :: List.map (fun item => [32%N; 32%N; dash; 32%N] ++ item) items
  end.

(** Modelled from the spec: the fields the re-serializer, which the
    repository does not contain, writes first: those whose key begins with
    the delimiter. *)
Definition dashed (kv : jstr * field_value) : bool :=
  startsWith (fst kv) dashes.

(** Modelled from the spec: the re-serializer of a parsed header, which the
    repository does not contain.  The fields are written one after the
    other between the two delimiter lines; a key that begins with the
    delimiter can only stand on the first line, so it is written first. *)
Definition serialize (d : gmap jstr field_value) : jstr :=
  let fields := map_to_list d in
  let ordered :=
    List.filter dashed fields
    ++ List.filter (fun kv => negb (dashed kv)) fields in
  dashes ++ [nl]
  ++ join [nl] (flat_map (fun kv => serialize_field (fst kv) (snd kv)) ordered)
  ++ nl :: dashes.

End ValidateAgents.

(** ** The vocabulary of the specification *)

(** An alphabetic identifier. *)
Definition ident (s : jstr) : Prop :=
  s <> [] /\ Forall (fun c => is_alpha c = true) s.

Definition pipe : N := 124.

(** The shapes of a matcher the validator lets through: the wildcard, a
    tool name, a tool name followed by a pipe and a non-empty run of letters
    and pipes, and a tool name followed by an argument in parentheses that
    holds no line terminator. *)
Inductive matcher_shape : jstr -> Prop :=
| shape_wildcard : matcher_shape (js "*")
| shape_tool id : ident id -> matcher_shape id
| shape_pipes id rest :
    ident id -> rest <> [] ->
    Forall (fun c => is_alpha c = true \/ c = pipe) rest ->
    matcher_shape (id ++ pipe :: rest)
| shape_argument id arg :
    ident id ->
    Forall (fun c => is_line_terminator c = false) arg ->
    matcher_shape (id ++ 40%N :: arg ++ [41%N]).

(** The issue a string matcher outside these shapes gets. *)
Definition matcher_issue (m : jstr) : message :=
  match m with
  | [] => VerifyHooks.matcher_empty
  | _ => VerifyHooks.matcher_syntax
  end.

(** A pipe-delimited list of two or more identifiers. *)
Definition tool_list (s : jstr) : Prop :=
  exists id ids,
    ident id /\ ids <> [] /\ Forall ident ids
    /\ s = id ++ List.concat (List.map (cons pipe) ids).

(** An identifier followed by pipe-introduced segments of letters. *)
Definition piped (id : jstr) (segments : list jstr) : jstr :=
  id ++ List.concat (List.map (cons pipe) segments).

(** A configuration source that holds one entry, under [lifecycle], with
    the given matcher and hook actions. *)
Definition one_entry (lifecycle : jstr) (matcher : jsval)
    (actions : list jsval) : jsval :=
  JObj [(js "hooks",
         JObj [(lifecycle,
                JArr [JObj [(js "matcher", matcher);
                            (js "hooks", JArr actions)]])])].

(** An object with the property [k] taken out. *)
Definition without (k : jstr) (props : list (jstr * jsval))
  : list (jstr * jsval) :=
  List.filter (fun kv => negb (jstr_eqb k (fst kv))) props.

(** The files of a run that finds one configuration source, the global
    one. *)
Definition only_global (config : jsval)
  : VerifyHooks.config_path -> VerifyHooks.read_result :=
  fun p =>
    match p with
    | VerifyHooks.GlobalSettings => VerifyHooks.ReadSuccess config
    | _ => VerifyHooks.ReadFailure
    end.

(** A machine on which every command names a script and every script
    exists, and whose configuration files carry no label. *)
Definition any_script : jstr -> option jstr := Some.
Definition all_exist : jstr -> bool := fun _ => true.
Definition no_label : VerifyHooks.config_path -> jstr := fun _ => [].

(** A well-formed hook action, with the extra properties given. *)
Definition action (extra : list (jstr * jsval)) : jsval :=
  JObj ([(js "type", JStr (js "command"));
         (js "command", JStr (js "node check.js"))] ++ extra).

(** A value that has no text: [{ toString: 0 }]. *)
Definition no_text : jsval := JObj [(js "toString", JNum (Finite 0))].

(** A document given line by line. *)
Definition text (ls : list string) : jstr :=
  ValidateAgents.join [ValidateAgents.nl] (List.map js ls).



Definition empty_name : jstr :=
  text ["---"; "name:"; "description: Plans the work in small steps";
        "tools: Read"; "---"; EmptyString]%string.

Definition blank_name : jstr :=
  text ["---"; "name: " ++ ValidateAgents.dq ++ ValidateAgents.dq;
        "description: Plans the work in small steps"; "tools: Read"; "---";
        EmptyString]%string.

Definition two_missing : jstr :=
  text ["---"; "name: planner"; "model: opus"; "---"; EmptyString]%string.

Definition planner : jstr :=
  text ["---"; "name: planner"; "description: 'Plans the work'";
        "tools: [Read, Grep]"; "skills:"; "  - security, audit";
        "  - review"; "---"; "The body."]%string.

Definition three_declared : list jsval :=
  [JStr (js "agents/a.md"); JStr (js "agents/b.md"); JStr (js "agents/c.md")].

Definition four_found : list jstr :=
  [js "a.md"; js "b.md"; js "c.md"; js "d.md"].

(** A string is trimmed when neither end is white space. *)
Definition trimmed (s : jstr) : Prop := trim s = s.

(** The shape of what the parser stores: a line has no newline; a key is
    a trimmed, non-empty piece of a line before its first colon, and is not
    [__proto__]; an array holds items of an inline list (no comma, no quote)
    or items of a block list (trimmed). *)
Definition no_nl (s : jstr) : Prop :=
  Forall (fun c => c <> ValidateAgents.nl) s.

Definition wf_key (k : jstr) : Prop :=
  k <> [] /\ trimmed k
  /\ Forall (fun c => c <> ValidateAgents.colon) k
  /\ no_nl k
  /\ jstr_eqb k (js "__proto__") = false.

Definition wf_value (v : ValidateAgents.field_value) : Prop :=
  match v with
  | ValidateAgents.FStr s => no_nl s
  | ValidateAgents.FArr items =>
      Forall no_nl items
      /\ (ValidateAgents.inline_ok items = true \/ Forall trimmed items)
  end.

(** The lines of a document. *)
Definition lines (content : jstr) : list jstr :=
  split ValidateAgents.nl content.

(** A required field the validator reports: it has no value, or its value
    is the empty string. *)
Definition unset (d : gmap jstr ValidateAgents.field_value) (f : jstr)
  : bool :=
  match d !! f with
  | None => true
  | Some (ValidateAgents.FStr []) => true
  | Some _ => false
  end.

(** The count-mismatch error is the one that opens with this chunk. *)
Definition is_count_mismatch (m : message) : bool :=
  match m with
  | Lit s :: _ => String.eqb s "plugin.json 声明 "
  | _ => false
  end.

(** ** Invariants of the header parser *)

(** The line a block-list item is written on. *)
Definition item_line (item : jstr) : jstr :=
  [32%N; 32%N; ValidateAgents.dash; 32%N] ++ item.

(** The mode the parser is in after it has read a serialized field. *)
Definition mode_after (v : ValidateAgents.field_value)
  : ValidateAgents.mode :=
  match v with
  | ValidateAgents.FStr _ => ValidateAgents.ModeNone
  | ValidateAgents.FArr items =>
      if ValidateAgents.inline_ok items
      then ValidateAgents.ModeNone else ValidateAgents.ModeArray
  end.

Definition is_proto (k : jstr) : Prop := jstr_eqb k (js "__proto__") = true.

(** In a continuation mode the current key names the value being
    continued, unless it is [__proto__], which is never stored. *)
Definition mode_inv (st : ValidateAgents.state) : Prop :=
  let key := ValidateAgents.key_of (ValidateAgents.currentKey st) in
  match ValidateAgents.multilineMode st with
  | ValidateAgents.ModeNone => True
  | ValidateAgents.ModeArray =>
      is_proto key
      \/ exists items,
           ValidateAgents.data st !! key = Some (ValidateAgents.FArr items)
           /\ Forall trimmed items
  | ValidateAgents.ModeString =>
      is_proto key
      \/ exists s, ValidateAgents.data st !! key = Some (ValidateAgents.FStr s)
  end.

Definition stored_wf (d : gmap jstr ValidateAgents.field_value) : Prop :=
  forall k v, d !! k = Some v -> wf_key k /\ wf_value v.

(** The key a line defines when it is a key line. *)
Definition key_on (line k : jstr) : Prop :=
  exists i,
    ValidateAgents.indexOf ValidateAgents.colon line = Some i
    /\ k = trim (take i line).

(** A key that begins with the delimiter comes from the line [first]. *)
Definition dashed_from (first : jstr)
    (d : gmap jstr ValidateAgents.field_value) : Prop :=
  forall k, is_Some (d !! k) ->
            startsWith k ValidateAgents.dashes = true -> key_on first k.

Definition parser_inv (first : jstr) (st : ValidateAgents.state) : Prop :=
  stored_wf (ValidateAgents.data st) /\ mode_inv st
  /\ dashed_from first (ValidateAgents.data st).


(** ** The script path of a command ([verify-hooks.js], [validateScriptPath])

    [validateScriptPath] cuts a path out of the command with a regular
    expression and expands it before it asks the file system.  Both steps
    are modelled here; [extractScriptPath] is what the hook validator above
    takes as its first parameter. *)

Module ScriptPath.

(** The [i] flag: a code unit matches a lower-case ASCII letter of the
    pattern when it is that letter in either case.  A code unit outside
    ASCII never folds to an ASCII letter. *)
Definition lower (c : N) : N :=
  if ((65 <=? c) && (c <=? 90))%N then (c + 32)%N else c.

(** The rest of [s] after the pattern word [w], compared without case. *)
Fixpoint after_word (w s : jstr) {struct w} : option jstr :=
  match w with
  | [] => Some s
  | x :: w' =>
      match s with
      | [] => None
      | y :: s' => if (lower y =? x)%N then after_word w' s' else None
      end
  end.

Definition is_quote (c : N) : bool := ((c =? 34) || (c =? 39))%N.

(** The class of the capture group: no quote and no white space. *)
Definition path_char (c : N) : bool := negb (is_quote c || is_space c).

(** What follows the interpreter word: one or more white-space characters
    (greedy), an optional quote, and the group, one or more path
    characters (greedy).  When the group is empty after the longest run of
    white space, no shorter run helps: the next character is then white
    space, which neither the quote nor the group takes. *)
Definition script_group (rest : jstr) : option jstr :=
  match rest with
  | c :: _ =>
      if is_space c then
        let r := skip_while is_space rest in
        let r' :=
          match r with
          | q :: t => if is_quote q then t else r
          | [] => r
          end in
        match keep_while path_char r' with
        | [] => None
        | p => Some p
        end
      else None
  | [] => None
  end.

Definition interpreter (w : string) (s : jstr) : option jstr :=
  match after_word (js w) s with
  | Some rest => script_group rest
  | None => None
  end.

Definition orelse {A} (a b : option A) : option A :=
  match a with
  | Some _ => a
  | None => b
  end.

(** The alternatives at one position, in the order the expression tries
    them; the optional digit of the second is tried first. *)
Definition match_here (s : jstr) : option jstr :=
  orelse (interpreter "node" s)
    (orelse (interpreter "python3" s)
       (orelse (interpreter "python" s) (interpreter "bash" s))).

(** [command.match(re)]: the group of the leftmost match. *)
Fixpoint script_match (s : jstr) : option jstr :=
  match match_here s with
  | Some p => Some p
  | None =>
      match s with
      | [] => None
      | _ :: s' => script_match s'
      end
  end.

(** The replacement of every slash by a backslash. *)
Definition backslashes (s : jstr) : jstr :=
  List.map (fun c => if (c =? 47)%N then 92%N else c) s.

(** [s.replace(re, f)] for a global expression that never matches the empty
    string.  [here s] is the match that starts at the head of [s]: the
    captured key and the length of the match.  [skip] counts the characters
    of the last match that are still to be passed over. *)
Fixpoint replace_all (here : jstr -> option (jstr * nat)) (f : jstr -> jstr)
    (s : jstr) (skip : nat) : jstr :=
  match s with
  | [] => []
  | c :: s' =>
      match skip with
      | S k => replace_all here f s' k
      | O =>
          match here s with
          | Some (key, len) => f key ++ replace_all here f s' (Nat.pred len)
          | None => c :: replace_all here f s' 0
          end
      end
  end.

Definition not_percent (c : N) : bool := negb (c =? 37)%N.

(** A percent sign, one or more characters that are not one, a percent
    sign. *)
Definition percent_here (s : jstr) : option (jstr * nat) :=
  match s with
  | c :: s' =>
      if (c =? 37)%N then
        match keep_while not_percent s', skip_while not_percent s' with
        | (_ :: _) as key, _ :: _ => Some (key, List.length key + 2)
        | _, _ => None
        end
      else None
  | [] => None
  end.

(** [[A-Za-z_]] and [[A-Za-z0-9_]] *)
Definition name_start (c : N) : bool := is_alpha c || (c =? 95)%N.
Definition name_char (c : N) : bool :=
  name_start c || ((48 <=? c) && (c <=? 57))%N.

(** A dollar sign and a name. *)
Definition dollar_here (s : jstr) : option (jstr * nat) :=
  match s with
  | d :: k :: rest =>
      if (d =? 36)%N && name_start k then
        let key := k :: keep_while name_char rest in
        Some (key, S (List.length key))
      else None
  | _ => None
  end.

Section Machine.

(** [process.platform === win32] *)
Variable win32 : bool.
(** [path.join(os.homedir(), rest)] *)
Variable homeJoin : jstr -> jstr.
(** The text the replacement callback puts in for a key: what
    [process.env[key]] answers when that is truthy (the value of a variable
    of that name, but also what a name such as [toString] inherits), and
    the empty string otherwise. *)
Variable env : jstr -> jstr.

(** Lines 112 to 128: the four rewritings of the captured path. *)
Definition expand (scriptPath : jstr) : jstr :=
  let p1 := if win32 then backslashes scriptPath else scriptPath in
  let p2 := if startsWith p1 (js "~") then homeJoin (drop 1 p1) else p1 in
  let p3 := replace_all percent_here env p2 0 in
  replace_all dollar_here env p3 0.

Definition extractScriptPath (command : jstr) : option jstr :=
  option_map expand (script_match command).

End Machine.

(** What may follow the captured path: the end of the command, or a
    character the group does not take. *)
Definition stops (post : jstr) : bool :=
  match post with
  | [] => true
  | c :: _ => negb (path_char c)
  end.

(** The white space between the interpreter and the path, and the optional
    quote before the path. *)
Definition gap (sp : jstr) : bool :=
  match sp with
  | [] => false
  | _ => forallb is_space sp
  end.

Definition opening_quote (q : jstr) : bool :=
  match q with
  | [] => true
  | [c] => is_quote c
  | _ => false
  end.

(** The four interpreter words, in any case. *)
Definition interpreter_word (w : jstr) : Prop :=
  In (List.map lower w) [js "node"; js "python"; js "python3"; js "bash"].

(** A path none of the rewritings touches on a system that is not
    Windows. *)
Definition literal_path (p : jstr) : bool :=
  negb (startsWith p (js "~"))
  && forallb (fun c => path_char c && negb ((c =? 37) || (c =? 36))%N) p.

(** What may follow a reference to the environment in a path: path
    characters other than the percent and dollar signs, the first of which
    is not a character of a name. *)
Definition plain_rest (rest : jstr) : bool :=
  forallb (fun c => path_char c && negb ((c =? 37) || (c =? 36))%N) rest
  && match rest with
     | [] => true
     | c :: _ => negb (name_char c)
     end.

(** Path characters other than the percent sign, and the key of a percent
    reference: a non-empty run of them. *)
Definition percent_free (s : jstr) : bool :=
  forallb (fun c => path_char c && negb (c =? 37)%N) s.

Definition percent_key (key : jstr) : bool :=
  match key with
  | [] => false
  | _ => percent_free key
  end.

(** A name of the environment. *)
Definition env_name (key : jstr) : bool :=
  match key with
  | k :: rest => name_start k && forallb name_char rest
  | [] => false
  end.

End ScriptPath.

(** ** The closing line of a report ([verify-hooks.js], [printReport])

    The last block of [printReport]: which of the three verdicts a source
    gets, and through which logger.  A source with a top-level error
    returns before it. *)

Module Report.

Import VerifyHooks.

Inductive level := Success | Warning | Failure.

Definition all_passed : message := [Lit "所有 hooks 配置验证通过！"].
Definition passed_with_warnings (n : nat) : message :=
  [Lit "验证通过，但有 "; Val (ValidateAgents.num_of_nat n); Lit " 个警告"].
Definition failed (errors warnings : nat) : message :=
  [Lit "验证失败: "; Val (ValidateAgents.num_of_nat errors); Lit " 个错误, ";
   Val (ValidateAgents.num_of_nat warnings); Lit " 个警告"].

Definition closing_line (r : results) : option (level * message) :=
  match r_error r with
  | Some _ => None
  | None =>
      if r_valid r && (s_warnings (r_summary r) =? 0) then
        Some (Success, all_passed)
      else if r_valid r then
        Some (Warning, passed_with_warnings (s_warnings (r_summary r)))
      else
        Some (Failure,
              failed (errors (r_summary r)) (s_warnings (r_summary r)))
  end.

End Report.

(** ** More vocabulary *)

(** The number of hook actions an entry lists. *)
Definition actions_of (entry : jsval) : nat :=
  match get entry (js "hooks") with
  | Ok (JArr hs) => List.length hs
  | _ => 0
  end.

Definition total (l : list nat) : nat := fold_right Nat.add 0 l.

(** A report of lifecycles that holds nothing but unknown names. *)
Definition unknown_only (ls : list (jstr * VerifyHooks.lifecycle_result))
  : Prop :=
  Forall (fun kl =>
            snd kl
            = VerifyHooks.LifecycleError
                (VerifyHooks.unknown_lifecycle (fst kl))) ls.

(** The inputs on which the validator throws: a hook action that is
    [null], whose [type] or [timeout] has no text, or whose [command] is
    truthy and not a string; an entry that is [null] or lists such an
    action; a lifecycle of the list whose array holds such an entry; a
    configuration that is [null] or whose [hooks] object holds such a
    lifecycle. *)
Definition action_throws (hook : jsval) : bool :=
  match get hook (js "type"), get hook (js "command"),
        get hook (js "timeout") with
  | Ok type, Ok command, Ok timeout =>
      to_string_throws type
      || truthy command && negb (js_type_eqb (typeof command) TString)
      || to_string_throws timeout
  | _, _, _ => true
  end.

Definition entry_throws (entry : jsval) : bool :=
  match get entry (js "hooks") with
  | Ok (JArr hs) => existsb action_throws hs
  | Ok _ => false
  | TypeError => true
  end.

Definition lifecycle_throws (kv : jstr * jsval) : bool :=
  existsb (jstr_eqb (fst kv)) VerifyHooks.validLifecycles
  && match snd kv with
     | JArr items => existsb entry_throws items
     | _ => false
     end.

Definition config_throws (config : jsval) : bool :=
  match get config (js "hooks") with
  | Ok hooks =>
      truthy hooks && js_type_eqb (typeof hooks) TObject
      && existsb lifecycle_throws (VerifyHooks.object_entries hooks)
  | TypeError => true
  end.

(** A decimal digit. *)
Definition is_digit (c : N) : bool := ((48 <=? c) && (c <=? 57))%N.

(** A descriptor: the opening line, the header's lines, the closing
    delimiter and whatever follows it. *)
Definition document (header : list jstr) (rest : jstr) : jstr :=
  ValidateAgents.dashes ++ [ValidateAgents.nl]
  ++ ValidateAgents.join [ValidateAgents.nl] header
  ++ ValidateAgents.nl :: ValidateAgents.dashes ++ rest.

(** A value the parser stores as it stands: not empty, trimmed, and none of
    the bracketed, quoted or indicator forms. *)
Definition bare_scalar (v : jstr) : Prop :=
  v <> [] /\ trimmed v
  /\ (startsWith v [91%N] && endsWith v [93%N]) = false
  /\ jstr_eqb v [124%N] = false /\ jstr_eqb v [62%N] = false
  /\ ValidateAgents.is_quoted v = false.

(** A line that continues a block scalar: indented, and not a list
    item. *)
Definition continuation (line : jstr) : bool :=
  ValidateAgents.indented line
  && match ValidateAgents.array_item line with
     | None => true
     | Some _ => false
     end.

(** Samples. *)
Definition bare_command : jstr := js "./hooks/check.sh".

Definition two_unknown : list (jstr * jsval) :=
  [(js "preToolUse", JArr [JNull]); (js "OnSave", JNull)].

Definition unknown_names : jsval := JObj [(js "hooks", JObj two_unknown)].

Definition hooks_as_array : jsval :=
  JObj [(js "hooks", JArr [JNull; JStr (js "Write")])].

Definition bad_matcher : jsval :=
  one_entry (js "PreToolUse") (JStr (js "Edit | Write")) [].

(** The files of a run that finds [settings.local.json], with and without
    a [settings.json] beside it. *)
Definition local_only (config : jsval)
  : VerifyHooks.config_path -> VerifyHooks.read_result :=
  fun p =>
    match p with
    | VerifyHooks.ProjectLocalSettings => VerifyHooks.ReadSuccess config
    | _ => VerifyHooks.ReadFailure
    end.

Definition local_and_project (config other : jsval)
  : VerifyHooks.config_path -> VerifyHooks.read_result :=
  fun p =>
    match p with
    | VerifyHooks.ProjectLocalSettings => VerifyHooks.ReadSuccess config
    | VerifyHooks.ProjectSettings => VerifyHooks.ReadSuccess other
    | VerifyHooks.GlobalSettings => VerifyHooks.ReadFailure
    end.

Definition nothing_counted : VerifyHooks.summary :=
  {| VerifyHooks.errors := 0; VerifyHooks.s_warnings := 0;
     VerifyHooks.hooks := 0 |}.

Definition two_entries : list jsval :=
  [JObj [(js "matcher", JStr (js "Write"));
         (js "hooks", JArr [action []; action []])];
   JObj [(js "matcher", JStr (js "Edit | Write"))]].

Definition home_env (key : jstr) : jstr :=
  if jstr_eqb key (js "HOME") then js "/home/dev" else [].

Definition listed : list (jstr * ValidateAgents.file_read) :=
  [(js "README.txt", ValidateAgents.FileError (js "EACCES"));
   (js "planner.md", ValidateAgents.FileText two_missing)].

Definition with_directory : list jsval :=
  [JStr (js "agents/"); JNum (Finite 3)].
(** ** Properties of the hook validator *)

Module VerifyHooksFacts.
Import VerifyHooks.

Lemma jstr_eqb_eq a b : jstr_eqb a b = true <-> a = b.
Proof.
  revert b; induction a as [|x a IH]; intros [|y b]; simpl; try easy.
  rewrite andb_true_iff, N.eqb_eq, IH. split.
  - intros [-> ->]; reflexivity.
  - intros [= -> ->]; auto.
Qed.

Lemma jstr_eqb_refl a : jstr_eqb a a = true.
Proof. apply jstr_eqb_eq; reflexivity. Qed.

Lemma forallb_Forall_true {A} (p : A -> bool) l :
  forallb p l = true <-> Forall (fun x => p x = true) l.
Proof.
  induction l as [|x l IH]; simpl.
  - split; auto.
  - rewrite andb_true_iff, IH. split.
    + intros [? ?]; constructor; auto.
    + inversion 1; auto.
Qed.

(** *** The two halves of a string around its leading run *)

Lemma keep_skip p s : keep_while p s ++ skip_while p s = s.
Proof.
  induction s as [|c s IH]; simpl; [reflexivity|].
  destruct (p c); simpl; [rewrite IH|]; reflexivity.
Qed.

Lemma keep_while_Forall p s : Forall (fun c => p c = true) (keep_while p s).
Proof.
  induction s as [|c s IH]; simpl; [constructor|].
  destruct (p c) eqn:E; constructor; auto.
Qed.

Lemma skip_while_head p s c r : skip_while p s = c :: r -> p c = false.
Proof.
  induction s as [|x s IH]; simpl; [discriminate|].
  destruct (p x) eqn:E; auto. intros [= -> _]; exact E.
Qed.

Lemma keep_while_stop p a c r :
  Forall (fun x => p x = true) a -> p c = false ->
  keep_while p (a ++ c :: r) = a.
Proof.
  intros Ha Hc. induction Ha as [|x a Hx _ IH]; simpl.
  - rewrite Hc; reflexivity.
  - rewrite Hx, IH; reflexivity.
Qed.

Lemma skip_while_stop p a c r :
  Forall (fun x => p x = true) a -> p c = false ->
  skip_while p (a ++ c :: r) = c :: r.
Proof.
  intros Ha Hc. induction Ha as [|x a Hx _ IH]; simpl.
  - rewrite Hc; reflexivity.
  - rewrite Hx, IH; reflexivity.
Qed.

(** *** validateMatcher accepts exactly the four shapes *)

Lemma re_tool_ident s : re_tool s = true <-> ident s.
Proof.
  unfold re_tool, ident. destruct s as [|c s].
  - split; [discriminate|]. intros [H _]; congruence.
  - rewrite forallb_Forall_true. split; [intros H; split; [discriminate|exact H]|].
    intros [_ H]; exact H.
Qed.

Lemma ident_cons s : ident s -> exists c r, s = c :: r.
Proof. intros [H _]. destruct s; [congruence|eauto]. Qed.

Lemma re_pipe_shape s :
  re_pipe s = true <->
  exists id rest, ident id /\ rest <> []
    /\ Forall (fun c => is_alpha c = true \/ c = pipe) rest
    /\ s = id ++ pipe :: rest.
Proof.
  unfold re_pipe. split.
  - pose proof (keep_skip is_alpha s) as Hs.
    pose proof (keep_while_Forall is_alpha s) as Hk.
    destruct (keep_while is_alpha s) as [|k ks]; [discriminate|].
    destruct (skip_while is_alpha s) as [|sep [|c rest]]; try discriminate.
    intros H. apply andb_true_iff in H. destruct H as [E H].
    apply N.eqb_eq in E. subst sep. exists (k :: ks), (c :: rest).
    split; [split; [discriminate|exact Hk]|].
    split; [discriminate|]. split; [|symmetry; exact Hs].
    apply forallb_Forall_true in H.
    eapply Forall_impl; [exact H|]. simpl. intros x Hx.
    apply orb_true_iff in Hx. destruct Hx as [Hx|Hx]; [left; exact Hx|].
    right. apply N.eqb_eq in Hx. exact Hx.
  - intros (id & rest & Hid & Hrest & Hall & ->).
    destruct Hid as [Hne Hid].
    rewrite (keep_while_stop is_alpha id pipe rest Hid eq_refl).
    rewrite (skip_while_stop is_alpha id pipe rest Hid eq_refl).
    destruct id as [|k ks]; [congruence|].
    destruct rest as [|c rest]; [congruence|].
    apply andb_true_iff; split; [reflexivity|].
    apply forallb_Forall_true. eapply Forall_impl; [exact Hall|].
    simpl. intros x [Hx| ->]; [rewrite Hx; reflexivity|reflexivity].
Qed.

Lemma re_args_shape s :
  re_args s = true <->
  exists id arg, ident id
    /\ Forall (fun c => is_line_terminator c = false) arg
    /\ s = id ++ 40%N :: arg ++ [41%N].
Proof.
  unfold re_args. split.
  - pose proof (keep_skip is_alpha s) as Hs.
    pose proof (keep_while_Forall is_alpha s) as Hk.
    destruct (keep_while is_alpha s) as [|k ks]; [discriminate|].
    destruct (skip_while is_alpha s) as [|open [|c rest]]; try discriminate.
    intros H. apply andb_true_iff in H. destruct H as [H Hf].
    apply andb_true_iff in H. destruct H as [E Hl].
    apply N.eqb_eq in E. subst open. apply N.eqb_eq in Hl.
    exists (k :: ks), (removelast (c :: rest)).
    split; [split; [discriminate|exact Hk]|]. split.
    + apply forallb_Forall_true in Hf.
      eapply Forall_impl; [exact Hf|]. simpl. intros x Hx.
      apply negb_true_iff in Hx; exact Hx.
    + rewrite <- Hl.
      rewrite <- (app_removelast_last 0%N (l := c :: rest)) by discriminate.
      symmetry; exact Hs.
  - intros (id & arg & Hid & Hall & ->).
    destruct Hid as [Hne Hid].
    rewrite (keep_while_stop is_alpha id 40%N (arg ++ [41%N]) Hid eq_refl).
    rewrite (skip_while_stop is_alpha id 40%N (arg ++ [41%N]) Hid eq_refl).
    destruct id as [|k ks]; [congruence|].
    destruct (arg ++ [41%N]) as [|c rest] eqn:E;
      [destruct arg; discriminate|].
    rewrite <- E. rewrite last_last, removelast_last.
    apply andb_true_iff; split; [reflexivity|].
    apply forallb_Forall_true.
    eapply Forall_impl; [exact Hall|]. simpl. intros x Hx.
    rewrite Hx; reflexivity.
Qed.

Lemma validateMatcher_valid m :
  valid (validateMatcher (JStr m)) = true <-> matcher_shape m.
Proof.
  split.
  - destruct m as [|c m]; [discriminate|].
    unfold validateMatcher; cbn [valid].
    intros H. repeat (apply orb_true_iff in H; destruct H as [H|H]).
    + apply (jstr_eqb_eq (c :: m)) in H. rewrite H. constructor.
    + apply shape_tool. apply re_tool_ident. exact H.
    + apply re_pipe_shape in H. destruct H as (id & rest & ? & ? & ? & ->).
      apply shape_pipes; assumption.
    + apply re_args_shape in H. destruct H as (id & arg & ? & ? & ->).
      apply shape_argument; assumption.
  - intros H.
    assert (Hv : jstr_eqb m (js "*") || re_tool m || re_pipe m || re_args m
                 = true).
    { destruct H as [|id Hid|id rest Hid Hr Hall|id arg Hid Hall].
      - reflexivity.
      - apply re_tool_ident in Hid. rewrite Hid.
        rewrite orb_true_r; reflexivity.
      - assert (E : re_pipe (id ++ pipe :: rest) = true)
          by (apply re_pipe_shape; eauto 8).
        rewrite E, orb_true_r; reflexivity.
      - assert (E : re_args (id ++ 40%N :: arg ++ [41%N]) = true)
          by (apply re_args_shape; eauto 8).
        rewrite E, orb_true_r; reflexivity. }
    assert (Hm : exists c r, m = c :: r).
    { destruct H as [|id Hid|id rest Hid _ _|id arg Hid _].
      - eexists _, _; reflexivity.
      - apply ident_cons; exact Hid.
      - apply ident_cons in Hid. destruct Hid as (c & r & ->).
        eexists _, _; reflexivity.
      - apply ident_cons in Hid. destruct Hid as (c & r & ->).
        eexists _, _; reflexivity. }
    destruct Hm as (c & r & ->).
    unfold validateMatcher; cbn [valid]. exact Hv.
Qed.


Lemma tool_list_shape s : tool_list s -> matcher_shape s.
Proof.
  intros (id & ids & Hid & Hne & Hall & ->).
  destruct ids as [|i ids]; [congruence|]. simpl.
  apply shape_pipes; [exact Hid| |].
  - inversion Hall as [|? ? [Hi _] _]; subst. destruct i; [congruence|discriminate].
  - clear Hne. revert i Hall. induction ids as [|j ids IH]; intros i Hall.
    + simpl. rewrite app_nil_r. inversion Hall as [|? ? [_ Hi] _]; subst.
      eapply Forall_impl; [exact Hi|]. simpl; auto.
    + simpl. inversion Hall as [|? ? [_ Hi] Hrest]; subst.
      apply Forall_app. split.
      * eapply Forall_impl; [exact Hi|]. simpl; auto.
      * constructor; [right; reflexivity|]. apply IH. exact Hrest.
Qed.

Section Machine.

Variable extractScriptPath : jstr -> option jstr.
Variable existsSync : jstr -> bool.
Variable paths : config_path -> jstr.

Local Abbreviation validateHook := (validateHook extractScriptPath existsSync).
Local Abbreviation hooks_loop := (hooks_loop extractScriptPath existsSync).
Local Abbreviation validateHooksConfig :=
  (validateHooksConfig extractScriptPath existsSync).
Local Abbreviation main := (main extractScriptPath existsSync paths).

(** The exit status is decided by the sum of the [summary.errors] counters
    alone. *)
Lemma main_exit_code readJsonFile args r :
  main readJsonFile args = Ok r ->
  exit_code r = if sum_of errors (allResults r) =? 0 then 0%Z else 1%Z.
Proof.
  unfold VerifyHooks.main. intros H.
  destruct (match _ with true => _ | false => _ end) as [all1|]; [|discriminate].
  simpl in H.
  destruct (match _ with true => _ | false => _ end) as [all2|] in H;
    [|discriminate].
  simpl in H.
  destruct (sum_of errors all2 =? 0) eqn:E; simpl in H.
  - destruct (sum_of s_warnings all2 =? 0); inversion H; subst; simpl;
      rewrite E; reflexivity.
  - inversion H; subst; simpl; rewrite E; reflexivity.
Qed.

(** A run that checks the global source alone. *)
Lemma main_only_global config r :
  validateHooksConfig config (paths GlobalSettings) = Ok r ->
  printReport r = Ok tt ->
  main (only_global config) [js "--global"]
  = Ok {| allResults := [r];
          exit_code := if errors (r_summary r) =? 0 then 0%Z else 1%Z |}.
Proof.
  intros H Hp. unfold VerifyHooks.main.
  change (existsb (jstr_eqb (js "--global")) [js "--global"]) with true.
  change (existsb (jstr_eqb (js "--project")) [js "--global"]) with false.
  cbn [orb List.length Nat.eqb only_global]. rewrite H. cbn [bind app].
  rewrite Hp. cbn [bind app].
  unfold sum_of. cbn [fold_left Nat.add].
  destruct (errors (r_summary r) =? 0); [|reflexivity].
  destruct (s_warnings (r_summary r) =? 0); reflexivity.
Qed.

(** What [validateHook] returns, block by block. *)
Lemma validateHook_blocks
    hook lifecycle type issues1 command issues2 timeout :
  get hook (js "type") = Ok type ->
  type_issues type = Ok issues1 ->
  get hook (js "command") = Ok command ->
  command_issues extractScriptPath existsSync command = Ok issues2 ->
  get hook (js "timeout") = Ok timeout ->
  validateHook hook lifecycle
  = bind (validateTimeout timeout lifecycle)
      (fun timeoutResult =>
         Ok {| issues := issues1 ++ issues2 ++ timeout_issues timeoutResult;
               warnings := timeout_warnings timeoutResult |}).
Proof.
  intros H1 Ht H2 H3 H4. unfold VerifyHooks.validateHook.
  rewrite H1; cbn [bind]. rewrite Ht; cbn [bind]. rewrite H2; cbn [bind].
  rewrite H3; cbn [bind]. rewrite H4; cbn [bind]. reflexivity.
Qed.

(** *** The missing [hooks] key *)

(** C3.  A configuration source whose [hooks] value is absent, [null] or
    not of type object gets exactly one top-level error, an empty
    per-lifecycle report, and counters that are all zero. *)
Theorem missing_hooks_one_top_level_error config source hooks :
  get config (js "hooks") = Ok hooks ->
  hooks = JUndefined \/ hooks = JNull \/ typeof hooks <> TObject ->
  validateHooksConfig config source
  = Ok {| source := source; r_valid := false; r_error := Some no_hooks;
          lifecycles := [];
          r_summary := {| errors := 0; s_warnings := 0; hooks := 0 |} |}.
Proof.
  intros Hget H. unfold VerifyHooks.validateHooksConfig.
  rewrite Hget; cbn [bind].
  destruct H as [-> | [-> | H]]; [reflexivity|reflexivity|].
  destruct hooks; try reflexivity; try (exfalso; apply H; reflexivity).
  - destruct (truthy (JBool b)); reflexivity.
  - destruct (truthy (JNum n)); reflexivity.
  - destruct (truthy (JStr s)); reflexivity.
Qed.

Lemma assoc_without k props : assoc k (without k props) = JUndefined.
Proof.
  induction props as [|[k' v] props IH]; [reflexivity|].
  unfold without in *. cbn [List.filter fst].
  destruct (jstr_eqb k k') eqn:E; cbn [negb]; [exact IH|].
  cbn [assoc]. rewrite E. exact IH.
Qed.

(** C1.  A run that checks one source, an object without the [hooks] key,
    whatever else it holds: the source is reported invalid with its
    top-level error, and the process still exits with status 0, because
    that error is not counted in [summary.errors]. *)
Theorem missing_hooks_exit_status props :
  main (only_global (JObj (without (js "hooks") props))) [js "--global"]
  = Ok {| allResults :=
            [{| source := paths GlobalSettings; r_valid := false;
                r_error := Some no_hooks; lifecycles := [];
                r_summary := {| errors := 0; s_warnings := 0; hooks := 0 |} |}];
          exit_code := 0 |}.
Proof.
  assert (H : validateHooksConfig (JObj (without (js "hooks") props))
                (paths GlobalSettings)
              = Ok {| source := paths GlobalSettings; r_valid := false;
                      r_error := Some no_hooks; lifecycles := [];
                      r_summary :=
                        {| errors := 0; s_warnings := 0; hooks := 0 |} |}).
  { unfold VerifyHooks.validateHooksConfig. cbn [get bind].
    rewrite assoc_without. reflexivity. }
  rewrite (main_only_global _ _ H eq_refl). reflexivity.
Qed.

(** *** Matchers *)

Lemma validateMatcher_error m :
  valid (validateMatcher (JStr m)) = false ->
  error (validateMatcher (JStr m)) = Some (matcher_issue m).
Proof.
  destruct m as [|c m]; [reflexivity|].
  unfold validateMatcher; cbn [valid error]. intros ->. reflexivity.
Qed.

Lemma valid_lifecycle_cases (P : jstr -> Prop) lifecycle :
  In lifecycle validLifecycles ->
  P (js "PreToolUse") -> P (js "PostToolUse") -> P (js "Notification") ->
  P (js "Stop") -> P (js "SessionEnd") -> P (js "SessionStart") ->
  P (js "PreCompact") -> P (js "Setup") -> P lifecycle.
Proof.
  unfold validLifecycles.
  intros [<-|[<-|[<-|[<-|[<-|[<-|[<-|[<-|[]]]]]]]]]; auto.
Qed.

Lemma get_first k v rest : get (JObj ((k, v) :: rest)) k = Ok v.
Proof. simpl. rewrite jstr_eqb_refl. reflexivity. Qed.

Lemma get_second k k1 v1 v rest :
  jstr_eqb k k1 = false -> get (JObj ((k1, v1) :: (k, v) :: rest)) k = Ok v.
Proof. intros H. simpl. rewrite H, jstr_eqb_refl. reflexivity. Qed.

Lemma valid_lifecycle_included lifecycle :
  In lifecycle validLifecycles ->
  existsb (jstr_eqb lifecycle) validLifecycles = true.
Proof.
  intros H. apply existsb_exists. exists lifecycle.
  split; [exact H|apply jstr_eqb_refl].
Qed.

Lemma assign_valid_lifecycle {A} lifecycle (v : A) :
  In lifecycle validLifecycles -> assign lifecycle v [] = [(lifecycle, v)].
Proof.
  intros H. unfold assign.
  replace (jstr_eqb lifecycle (js "__proto__")) with false; [reflexivity|].
  pattern lifecycle. apply valid_lifecycle_cases; [exact H|..]; reflexivity.
Qed.

(** The result for an entry that has a matcher and an empty list of
    actions. *)
Lemma validate_entry_no_actions matcher i lifecycle :
  validate_entry extractScriptPath existsSync
    (JObj [(js "matcher", matcher); (js "hooks", JArr [])]) i lifecycle
  = Ok ({| index := i; matcher := matcher;
           e_issues :=
             if valid (validateMatcher matcher) then []
             else from_option (fun e => [e]) [] (error (validateMatcher matcher));
           e_warnings := [] |}, 0).
Proof.
  unfold validate_entry. rewrite get_first; cbn [bind].
  rewrite get_second by reflexivity; cbn [bind]. reflexivity.
Qed.

(** The report for a source with one entry that has a matcher and an empty
    list of actions. *)
Lemma one_entry_report m lifecycle source :
  In lifecycle validLifecycles ->
  validateHooksConfig (one_entry lifecycle (JStr m) []) source
  = if valid (validateMatcher (JStr m)) then
      Ok {| source := source; r_valid := true; r_error := None;
            lifecycles :=
              [(lifecycle,
                LifecycleEntries true
                  [{| index := 0; matcher := JStr m; e_issues := [];
                      e_warnings := [] |}])];
            r_summary := {| errors := 0; s_warnings := 0; hooks := 0 |} |}
    else
      Ok {| source := source; r_valid := false; r_error := None;
            lifecycles :=
              [(lifecycle,
                LifecycleEntries false
                  [{| index := 0; matcher := JStr m;
                      e_issues := [matcher_issue m]; e_warnings := [] |}])];
            r_summary := {| errors := 1; s_warnings := 0; hooks := 0 |} |}.
Proof.
  intros Hl. pose proof (validateMatcher_error m) as He.
  unfold VerifyHooks.validateHooksConfig, one_entry.
  rewrite get_first; cbn [bind truthy typeof js_type_eqb negb orb].
  cbn [object_entries lifecycles_loop].
  rewrite (valid_lifecycle_included _ Hl); cbn [negb].
  cbn [entries_loop]. rewrite validate_entry_no_actions; cbn [bind fst snd].
  cbn [VerifyHooks.source r_valid r_error lifecycles r_summary e_issues
       e_warnings errors s_warnings hooks].
  rewrite !(assign_valid_lifecycle _ _ Hl).
  destruct (valid (validateMatcher (JStr m))).
  - reflexivity.
  - rewrite He by reflexivity. reflexivity.
Qed.

(** C2, as the code has it.  A matcher of one of the accepted shapes adds
    no diagnostic; any other matcher string adds exactly one, and it is an
    issue: it is counted in [summary.errors], not in [summary.warnings], and
    a run over that source exits with status 1. *)
Theorem matcher_issue_is_an_error m lifecycle :
  In lifecycle validLifecycles ->
  let config := one_entry lifecycle (JStr m) [] in
  let source := paths GlobalSettings in
  (matcher_shape m
   /\ validateHooksConfig config source
      = Ok {| source := source; r_valid := true; r_error := None;
              lifecycles :=
                [(lifecycle,
                  LifecycleEntries true
                    [{| index := 0; matcher := JStr m; e_issues := [];
                        e_warnings := [] |}])];
              r_summary := {| errors := 0; s_warnings := 0; hooks := 0 |} |}
   /\ exit_status (main (only_global config) [js "--global"]) = 0%Z)
  \/
  (~ matcher_shape m
   /\ validateHooksConfig config source
      = Ok {| source := source; r_valid := false; r_error := None;
              lifecycles :=
                [(lifecycle,
                  LifecycleEntries false
                    [{| index := 0; matcher := JStr m;
                        e_issues := [matcher_issue m]; e_warnings := [] |}])];
              r_summary := {| errors := 1; s_warnings := 0; hooks := 0 |} |}
   /\ exit_status (main (only_global config) [js "--global"]) = 1%Z).
Proof.
  intros Hl config source.
  pose proof (one_entry_report m lifecycle source Hl) as Hr.
  pose proof (validateMatcher_valid m) as Hv.
  destruct (valid (validateMatcher (JStr m))).
  - left. split; [apply Hv; reflexivity|]. split; [exact Hr|].
    unfold config. rewrite (main_only_global _ _ Hr eq_refl). reflexivity.
  - right. split; [intros H; apply Hv in H; discriminate|].
    split; [exact Hr|].
    unfold config. rewrite (main_only_global _ _ Hr eq_refl). reflexivity.
Qed.

(** C10, as the code has it.  An identifier followed by pipe-introduced
    segments of letters, one or more of them empty, is accepted without a
    diagnostic whenever something follows the first pipe, that is, unless
    the segments are one empty segment. *)
Theorem empty_segments_accepted id segments :
  ident id ->
  Forall (Forall (fun c => is_alpha c = true)) segments ->
  In [] segments ->
  segments <> [[]] ->
  validateMatcher (JStr (piped id segments))
  = {| valid := true; error := None; warning := None |}.
Proof.
  intros Hid Hall Hin Hne.
  assert (Hs : matcher_shape (piped id segments)).
  { unfold piped. destruct segments as [|s segments]; [destruct Hin|].
    simpl. apply shape_pipes; [exact Hid| |].
    - destruct s; [|discriminate]. destruct segments; [congruence|discriminate].
    - clear Hin Hne. revert s Hall.
      induction segments as [|t segments IH]; intros s Hall;
        inversion Hall as [|? ? Hs Hrest]; subst; simpl.
      + rewrite app_nil_r. eapply Forall_impl; [exact Hs|]. simpl; auto.
      + apply Forall_app. split.
        * eapply Forall_impl; [exact Hs|]. simpl; auto.
        * constructor; [right; reflexivity|]. apply IH; exact Hrest. }
  apply validateMatcher_valid in Hs.
  destruct (piped id segments) as [|c m] eqn:E; [discriminate|].
  unfold validateMatcher in *; cbn [valid] in Hs. rewrite Hs. reflexivity.
Qed.

(** *** Timeouts *)

Lemma num_ltb_Finite a b : num_ltb (Finite a) (Finite b) = true <-> (a < b)%Q.
Proof.
  simpl. rewrite negb_true_iff. split.
  - intros H. apply Qnot_le_lt. intros Hle.
    apply Qle_bool_iff in Hle. congruence.
  - intros H. destruct (Qle_bool b a) eqn:E; [|reflexivity].
    apply Qle_bool_iff in E. exfalso. apply (Qlt_not_le _ _ H E).
Qed.


Lemma recommended_truthy lifecycle r :
  recommended lifecycle = Some r -> truthy (JNum r) = true.
Proof.
  unfold recommended.
  repeat match goal with
         | |- context [jstr_eqb ?a ?b] => destruct (jstr_eqb a b)
         end; intros [= <-]; reflexivity.
Qed.

Lemma validateTimeout_in_range n lifecycle :
  num_ltb n timeout_min = false -> num_ltb timeout_max n = false ->
  validateTimeout (JNum n) lifecycle
  = match recommended lifecycle with
    | Some r =>
        if num_ltb n (num_div r 10) then
          Ok {| valid := true; error := None;
                warning := Some (timeout_too_short (JNum n) r) |}
        else Ok {| valid := true; error := None; warning := None |}
    | None => Ok {| valid := true; error := None; warning := None |}
    end.
Proof.
  intros H1 H2. unfold validateTimeout. rewrite H1, H2.
  destruct (recommended lifecycle) as [r|] eqn:E; [|reflexivity].
  rewrite (recommended_truthy _ _ E). reflexivity.
Qed.


(** C7, as the code has it.  A hook action without a [timeout], whose type
    and command checks return, gets no issue for it and exactly one warning:
    the loop over the actions extends the entry's warnings by that one
    message, and a source that holds this one action under a wildcard
    matcher counts one warning. *)
Theorem absent_timeout_adds_a_warning
    hook lifecycle type issues1 command issues2 :
  get hook (js "type") = Ok type ->
  type_issues type = Ok issues1 ->
  get hook (js "command") = Ok command ->
  command_issues extractScriptPath existsSync command = Ok issues2 ->
  get hook (js "timeout") = Ok JUndefined ->
  validateHook hook lifecycle
  = Ok {| issues := issues1 ++ issues2; warnings := [timeout_unset] |}
  /\ (forall rest acc count,
        hooks_loop (hook :: rest) lifecycle acc count
        = hooks_loop rest lifecycle
            {| issues := issues acc ++ issues1 ++ issues2;
               warnings := warnings acc ++ [timeout_unset] |} (S count))
  /\ (In lifecycle validLifecycles ->
      forall src,
      exists r,
        validateHooksConfig (one_entry lifecycle (JStr (js "*")) [hook]) src
        = Ok r
        /\ r_summary r
           = {| errors := List.length (issues1 ++ issues2);
                s_warnings := 1; hooks := 1 |}).
Proof.
  intros H1 Ht H2 H3 H4.
  assert (Hv : validateHook hook lifecycle
               = Ok {| issues := issues1 ++ issues2;
                       warnings := [timeout_unset] |}).
  { rewrite (validateHook_blocks _ _ _ _ _ _ _ H1 Ht H2 H3 H4).
    simpl. rewrite app_nil_r. reflexivity. }
  split; [exact Hv|]. split.
  - intros rest acc count. cbn [VerifyHooks.hooks_loop].
    rewrite Hv. reflexivity.
  - intros Hl src.
    unfold VerifyHooks.validateHooksConfig, one_entry.
    rewrite get_first; cbn [bind truthy typeof js_type_eqb negb orb].
    cbn [object_entries lifecycles_loop].
    rewrite (valid_lifecycle_included _ Hl); cbn [negb].
    cbn [entries_loop]. unfold validate_entry.
    rewrite get_first; cbn [bind].
    rewrite get_second by reflexivity; cbn [bind].
    cbn [VerifyHooks.hooks_loop]. rewrite Hv. cbn [bind fst snd].
    eexists. split; [reflexivity|].
    cbn [r_summary e_issues e_warnings issues warnings fst snd].
    change (valid (validateMatcher (JStr (js "*")))) with true.
    cbn [app List.length s_warnings errors hooks Nat.add].
    destruct (issues1 ++ issues2); reflexivity.
Qed.

End Machine.

(** The empty document on a concrete machine: the source is invalid and
    the status is 0. *)
Example missing_hooks_run :
  exists r,
    main any_script all_exist no_label (only_global (JObj [])) [js "--global"]
    = Ok {| allResults := [r]; exit_code := 0 |}
    /\ r_valid r = false /\ r_error r = Some no_hooks
    /\ errors (r_summary r) = 0.
Proof. eexists. repeat split. Qed.

Lemma missing_hooks_one_top_level_error_witness :
  get (JObj []) (js "hooks") = Ok JUndefined
  /\ validateHooksConfig any_script all_exist (JObj []) (js "settings.json")
     = Ok {| source := js "settings.json"; r_valid := false;
             r_error := Some no_hooks; lifecycles := [];
             r_summary := {| errors := 0; s_warnings := 0; hooks := 0 |} |}.
Proof.
  split; [reflexivity|].
  apply (missing_hooks_one_top_level_error any_script all_exist
           (JObj []) (js "settings.json") JUndefined);
    [reflexivity | left; reflexivity].
Defined.

(** C2 at the matcher of the specification: the one diagnostic is counted
    as an error, no warning is counted, and the run exits with status 1. *)
Lemma invalid_matcher_fails_the_run :
  ~ matcher_shape (js "invalid matcher!!")
  /\ (exists r,
        validateHooksConfig any_script all_exist
          (one_entry (js "PreToolUse") (JStr (js "invalid matcher!!")) [])
          (js "settings.json") = Ok r
        /\ errors (r_summary r) = 1 /\ s_warnings (r_summary r) = 0)
  /\ exit_status
       (main any_script all_exist no_label
          (only_global
             (one_entry (js "PreToolUse") (JStr (js "invalid matcher!!")) []))
          [js "--global"]) = 1%Z.
Proof.
  split; [|split].
  - intros H. apply validateMatcher_valid in H. discriminate H.
  - eexists. repeat split.
  - reflexivity.
Qed.

Lemma matcher_issue_is_an_error_witness :
  In (js "PreToolUse") validLifecycles
  /\ matcher_shape (js "Write|Edit")
  /\ exit_status
       (main any_script all_exist no_label
          (only_global (one_entry (js "PreToolUse") (JStr (js "Write|Edit")) []))
          [js "--global"]) = 0%Z.
Proof.
  assert (H : In (js "PreToolUse") validLifecycles) by (left; reflexivity).
  split; [exact H|].
  destruct (matcher_issue_is_an_error any_script all_exist no_label
              (js "Write|Edit") (js "PreToolUse") H)
    as [[Hs [_ He]]|[Hn _]].
  - split; [exact Hs|exact He].
  - exfalso. apply Hn. apply validateMatcher_valid. reflexivity.
Defined.

(** C10 at an identifier with one trailing pipe: it is rejected. *)
Lemma trailing_pipe_rejected :
  ident (js "Write") /\ In ([] : jstr) [[]]
  /\ Forall (Forall (fun c : N => is_alpha c = true)) [[]]
  /\ piped (js "Write") [[]] = js "Write|"
  /\ validateMatcher (JStr (piped (js "Write") [[]]))
     = {| valid := false; error := Some matcher_syntax; warning := None |}.
Proof.
  split; [|split; [|split; [|split]]].
  - split; [discriminate|]. repeat constructor.
  - left; reflexivity.
  - repeat constructor.
  - reflexivity.
  - reflexivity.
Qed.

Lemma empty_segments_accepted_witness :
  (ident (js "Write")
   /\ Forall (Forall (fun c => is_alpha c = true)) [[]; js "Edit"]
   /\ In [] [[]; js "Edit"]
   /\ [[]; js "Edit"] <> [[]])
  /\ piped (js "Write") [[]; js "Edit"] = js "Write||Edit"
  /\ validateMatcher (JStr (piped (js "Write") [[]; js "Edit"]))
     = {| valid := true; error := None; warning := None |}.
Proof.
  assert (H1 : ident (js "Write")) by (split; [discriminate|repeat constructor]).
  assert (H2 : Forall (Forall (fun c => is_alpha c = true)) [[]; js "Edit"])
    by (repeat constructor).
  assert (H3 : In [] [[]; js "Edit"]) by (left; reflexivity).
  assert (H4 : [[]; js "Edit"] <> [[]]) by discriminate.
  split; [exact (conj H1 (conj H2 (conj H3 H4)))|]. split; [reflexivity|].
  exact (empty_segments_accepted (js "Write") [[]; js "Edit"] H1 H2 H3 H4).
Defined.



(** C7 at a source with one action that has no [timeout]: the action's
    entry carries a warning and the source counts it. *)
Lemma absent_timeout_counted :
  get (action []) (js "timeout") = Ok JUndefined
  /\ validateHook any_script all_exist (action []) (js "Stop")
     = Ok {| issues := []; warnings := [timeout_unset] |}
  /\ (exists r,
        validateHooksConfig any_script all_exist
          (one_entry (js "Stop") (JStr (js "*")) [action []])
          (js "settings.json") = Ok r
        /\ r_summary r = {| errors := 0; s_warnings := 1; hooks := 1 |}).
Proof.
  split; [reflexivity|]. split; [reflexivity|].
  eexists. split; reflexivity.
Qed.

Lemma absent_timeout_adds_a_warning_witness :
  get (action []) (js "timeout") = Ok JUndefined
  /\ validateHook any_script all_exist (action []) (js "Stop")
     = Ok {| issues := []; warnings := [timeout_unset] |}.
Proof.
  split; [reflexivity|].
  exact (proj1 (absent_timeout_adds_a_warning any_script all_exist
                  (action []) (js "Stop") (JStr (js "command")) []
                  (JStr (js "node check.js")) []
                  eq_refl eq_refl eq_refl eq_refl eq_refl)).
Defined.

End VerifyHooksFacts.

(** ** Properties of the descriptor validator *)

Module ValidateAgentsFacts.
Import ValidateAgents.
Local Open Scope string_scope.
Local Open Scope list_scope.

(** *** Prefixes and lines *)

Lemma strip_prefix_Some s p r : strip_prefix s p = Some r -> s = p ++ r.
Proof.
  revert s; induction p as [|x p IH]; intros [|y s]; simpl;
    try discriminate.
  - intros [= <-]; reflexivity.
  - intros [= <-]; reflexivity.
  - destruct (x =? y)%N eqn:E; [|discriminate].
    apply N.eqb_eq in E; subst y. intros H. rewrite (IH _ H). reflexivity.
Qed.

Lemma strip_prefix_app p r : strip_prefix (p ++ r) p = Some r.
Proof.
  induction p as [|x p IH]; simpl; [destruct r; reflexivity|].
  rewrite N.eqb_refl. exact IH.
Qed.

Lemma startsWith_app p r : startsWith (p ++ r) p = true.
Proof.
  induction p as [|x p IH]; simpl; [destruct r; reflexivity|].
  rewrite N.eqb_refl. exact IH.
Qed.

Lemma startsWith_prefix s p : startsWith s p = true -> exists r, s = p ++ r.
Proof.
  revert s; induction p as [|x p IH]; intros s.
  - exists s; reflexivity.
  - destruct s as [|y s]; [discriminate|]. simpl.
    intros H. apply andb_true_iff in H. destruct H as [E H].
    apply N.eqb_eq in E; subst y. destruct (IH _ H) as [r ->].
    exists r; reflexivity.
Qed.

Lemma split_cons sep s : exists w ws, split sep s = w :: ws.
Proof.
  induction s as [|c s (w & ws & IH)]; simpl; [eauto|].
  destruct (c =? sep)%N; [eauto|]. rewrite IH. eauto.
Qed.

Lemma split_app sep a c :
  split sep (a ++ sep :: c) = split sep a ++ split sep c.
Proof.
  induction a as [|x a IH]; simpl.
  - rewrite N.eqb_refl. reflexivity.
  - destruct (x =? sep)%N; [rewrite IH; reflexivity|].
    rewrite IH. destruct (split_cons sep a) as (w & ws & ->). reflexivity.
Qed.

Lemma split_plain sep a :
  Forall (fun c => c <> sep) a -> split sep a = [a].
Proof.
  induction 1 as [|x a Hx _ IH]; simpl; [reflexivity|].
  apply N.eqb_neq in Hx. rewrite Hx, IH. reflexivity.
Qed.

Lemma split_head sep a c :
  Forall (fun x => x <> sep) a ->
  exists w ws, split sep (a ++ c) = (a ++ w) :: ws.
Proof.
  induction 1 as [|x a Hx _ (w & ws & IH)]; simpl.
  - apply split_cons.
  - apply N.eqb_neq in Hx. rewrite Hx, IH. eauto.
Qed.

Lemma dashes_plain : Forall (fun c => c <> nl) dashes.
Proof. repeat constructor; discriminate. Qed.

(** *** The header block *)

Lemma before_closing_Some s b :
  before_closing s = Some b -> exists rest, s = b ++ nl :: dashes ++ rest.
Proof.
  revert b; induction s as [|c s IH]; intros b; [discriminate|].
  cbn [before_closing].
  destruct (startsWith (c :: s) (nl :: dashes)) eqn:E.
  - intros [= <-]. apply startsWith_prefix in E. destruct E as [r ->].
    exists r; reflexivity.
  - destruct (before_closing s) as [b'|]; [|discriminate].
    intros [= <-]. destruct (IH _ eq_refl) as [r ->]. exists r; reflexivity.
Qed.


Lemma parse_Some_opens content d :
  parseFrontmatter content = Some d -> startsWith content dashes = true.
Proof.
  unfold parseFrontmatter, header_block.
  destruct (strip_prefix content (dashes ++ [nl])) as [rest|] eqn:E;
    [|discriminate].
  apply strip_prefix_Some in E. subst content. intros _.
  rewrite <- app_assoc. apply startsWith_app.
Qed.

(** *** No header *)




(** *** Required fields *)

Lemma truthy_field d f : negb (truthy (field d f)) = unset d f.
Proof.
  unfold field, unset. destruct (d !! f) as [[[|c s]|items]|]; reflexivity.
Qed.

(** What the check of the required fields reports.  When the header parses
    and the model, if any, is a valid one, the errors are exactly one error
    per required field that [unset] holds of, in the order [name],
    [description], [tools], without repetition. *)
Lemma required_field_errors fileName content d :
  parseFrontmatter content = Some d ->
  truthy (field d (js "model")) = false
  \/ VerifyHooks.includes VALID_MODELS (field d (js "model")) = true ->
  errors (validateAgent fileName (FileText content))
  = List.map missing_field (List.filter (unset d) REQUIRED_FIELDS)
  /\ List.NoDup (errors (validateAgent fileName (FileText content)))
  /\ List.length (errors (validateAgent fileName (FileText content)))
     = List.length (List.filter (unset d) REQUIRED_FIELDS).
Proof.
  intros Hp Hm.
  assert (He : errors (validateAgent fileName (FileText content))
               = List.map missing_field (List.filter (unset d) REQUIRED_FIELDS)).
  { unfold validateAgent. rewrite (parse_Some_opens _ _ Hp), Hp.
    cbn [negb errors].
    replace (truthy (field d (js "model"))
             && negb (VerifyHooks.includes VALID_MODELS (field d (js "model"))))
      with false
      by (destruct Hm as [-> | ->];
          [reflexivity|rewrite andb_false_r; reflexivity]).
    rewrite app_nil_r. unfold required_errors. f_equal.
    apply filter_ext. intros f. apply truthy_field. }
  split; [exact He|]. rewrite He. split; [|apply length_map].
  unfold REQUIRED_FIELDS. cbn [List.filter].
  destruct (unset d (js "name")), (unset d (js "description")),
    (unset d (js "tools")); cbn [List.map];
    repeat (constructor;
            [intros Hin; cbn [In] in Hin;
             repeat (destruct Hin as [Hin|Hin];
                     [vm_compute in Hin; discriminate Hin|]);
             exact Hin|]);
    constructor.
Qed.

(** C5 at a header whose [name] has an empty value: the field is there and
    is empty, and no error names it. *)
Lemma empty_value_not_reported :
  (exists d,
      parseFrontmatter empty_name = Some d
      /\ d !! js "name" = Some (FArr []))
  /\ errors (validateAgent (js "planner.md") (FileText empty_name)) = [].
Proof. split; [eexists; split; reflexivity|reflexivity]. Qed.

Lemma two_missing_fields :
  parseFrontmatter two_missing
  = Some {[ js "name" := FStr (js "planner"); js "model" := FStr (js "opus") ]}
  /\ errors (validateAgent (js "planner.md") (FileText two_missing))
     = [missing_field (js "description"); missing_field (js "tools")].
Proof.
  assert (H : parseFrontmatter two_missing
              = Some {[ js "name" := FStr (js "planner");
                        js "model" := FStr (js "opus") ]}) by reflexivity.
  split; [exact H|].
  exact (proj1 (required_field_errors (js "planner.md") two_missing _ H
                  (or_intror eq_refl))).
Defined.

Lemma missing_field_inj f g : missing_field f = missing_field g -> f = g.
Proof. intros [= H]. exact H. Qed.

Lemma missing_field_reported fileName content d f :
  parseFrontmatter content = Some d ->
  In f REQUIRED_FIELDS ->
  In (missing_field f) (errors (validateAgent fileName (FileText content)))
  <-> truthy (field d f) = false.
Proof.
  intros Hp Hf. unfold validateAgent.
  rewrite (parse_Some_opens _ _ Hp), Hp. cbn [negb errors].
  unfold required_errors. split.
  - intros Hin. apply in_app_or in Hin. destruct Hin as [Hin|Hin].
    + apply in_map_iff in Hin. destruct Hin as (g & Hg & Hin).
      apply missing_field_inj in Hg. subst g.
      apply filter_In in Hin. destruct Hin as [_ Hin].
      apply negb_true_iff in Hin. exact Hin.
    + destruct (_ && _); [|destruct Hin].
      destruct Hin as [Hin|[]]. discriminate Hin.
  - intros Ht. apply in_or_app. left. apply in_map_iff. exists f.
    split; [reflexivity|]. apply filter_In. split; [exact Hf|].
    rewrite Ht. reflexivity.
Qed.

(** C5, where the code departs from it.  In a descriptor whose header
    parses, a required field that is absent is reported, and so is one whose
    value is the empty string; but a required field whose key has nothing
    after the colon, for which the parser stores the empty list that waits
    for list items, is not reported: the test for a missing value does not
    see the placeholder. *)
Theorem empty_required_field_passes fileName content d f :
  parseFrontmatter content = Some d ->
  In f REQUIRED_FIELDS ->
  (d !! f = None ->
   In (missing_field f) (errors (validateAgent fileName (FileText content))))
  /\ (d !! f = Some (FStr []) ->
      In (missing_field f)
         (errors (validateAgent fileName (FileText content))))
  /\ (d !! f = Some (FArr []) ->
      ~ In (missing_field f)
           (errors (validateAgent fileName (FileText content)))).
Proof.
  intros Hp Hf.
  pose proof (missing_field_reported fileName content d f Hp Hf) as H.
  unfold field in H. split; [|split]; intros Hd; rewrite Hd in H.
  - apply H. reflexivity.
  - apply H. reflexivity.
  - intros Hin. apply H in Hin. discriminate Hin.
Qed.

Lemma empty_required_field_passes_witness :
  (exists d,
      parseFrontmatter empty_name = Some d
      /\ d !! js "name" = Some (FArr [])
      /\ ~ In (missing_field (js "name"))
             (errors (validateAgent (js "planner.md") (FileText empty_name))))
  /\ (exists d,
         parseFrontmatter blank_name = Some d
         /\ d !! js "name" = Some (FStr [])
         /\ In (missing_field (js "name"))
              (errors (validateAgent (js "planner.md") (FileText blank_name)))).
Proof.
  split.
  - eexists. split; [reflexivity|]. split; [reflexivity|].
    apply (empty_required_field_passes (js "planner.md") empty_name _
             (js "name") eq_refl (or_introl eq_refl)).
    reflexivity.
  - eexists. split; [reflexivity|]. split; [reflexivity|].
    apply (empty_required_field_passes (js "planner.md") blank_name _
             (js "name") eq_refl (or_introl eq_refl)).
    reflexivity.
Defined.

(** *** The plugin manifest *)

Section Plugin.

Variable resolve : jstr -> jstr.
Variable existsSync : jstr -> bool.

Local Abbreviation validatePluginAgents :=
  (validatePluginAgents resolve existsSync).

Lemma format_errors_other entry :
  List.filter is_count_mismatch (format_errors entry) = [].
Proof.
  destruct entry; try reflexivity. simpl.
  destruct (endsWith s (js "/")), (negb (endsWith s (js ".md")));
    reflexivity.
Qed.

Lemma existence_errors_other entry :
  List.filter is_count_mismatch (existence_errors resolve existsSync entry)
  = [].
Proof.
  destruct entry; try reflexivity. simpl.
  destruct (negb (existsSync (resolve s))); reflexivity.
Qed.

Lemma filter_flat_map_nil {A B} (p : B -> bool) (f : A -> list B) l :
  (forall x, List.filter p (f x) = []) ->
  List.filter p (flat_map f l) = [].
Proof.
  intros H. induction l as [|x l IH]; simpl; [reflexivity|].
  rewrite List.filter_app, H, IH. reflexivity.
Qed.

(** C6.  When the manifest lists a number of entries other than the number
    of descriptor files, the errors hold exactly one count-mismatch error,
    and its text interpolates both numbers, the declared one first; when
    the numbers agree and every entry is a string that ends in [.md], does
    not end in a separator and names a file that exists, there is no
    error. *)
Theorem manifest_count_check plugin entries agentFiles :
  get plugin (js "agents") = Ok (JArr entries) ->
  exists r,
    validatePluginAgents (PluginJson plugin) agentFiles = Ok r
    /\ (List.length entries <> List.length agentFiles ->
        List.filter is_count_mismatch (errors r)
        = [[Lit "plugin.json 声明 ";
            Val (num_of_nat (List.length entries));
            Lit " 个 agents，实际目录有 ";
            Val (num_of_nat (List.length agentFiles)); Lit " 个"]]
        /\ forall m, In m (errors r) -> is_count_mismatch m = true ->
                     In (Val (num_of_nat (List.length entries))) m
                     /\ In (Val (num_of_nat (List.length agentFiles))) m)
    /\ (List.length entries = List.length agentFiles ->
        Forall (fun entry =>
                  exists e, entry = JStr e
                    /\ endsWith e (js ".md") = true
                    /\ endsWith e (js "/") = false
                    /\ existsSync (resolve e) = true) entries ->
        errors r = []).
Proof.
  intros Hg. unfold ValidateAgents.validatePluginAgents.
  rewrite Hg; cbn [bind]. eexists. split; [reflexivity|].
  cbn [errors]. split.
  - intros Hne. apply Nat.eqb_neq in Hne. rewrite Hne. cbn [negb].
    assert (Hfilter :
      List.filter is_count_mismatch
        (flat_map format_errors entries
         ++ [count_mismatch (List.length entries) (List.length agentFiles)]
         ++ flat_map (existence_errors resolve existsSync) entries)
      = [count_mismatch (List.length entries) (List.length agentFiles)]).
    { rewrite !List.filter_app.
      rewrite (filter_flat_map_nil _ _ _ format_errors_other).
      rewrite (filter_flat_map_nil _ _ _ existence_errors_other).
      reflexivity. }
    split; [exact Hfilter|].
    intros m Hin Hm.
    assert (Hin' : In m [count_mismatch (List.length entries)
                           (List.length agentFiles)]).
    { rewrite <- Hfilter. apply filter_In. split; assumption. }
    destruct Hin' as [<-|[]]. unfold count_mismatch. cbn [In].
    split; [right; left; reflexivity|right; right; right; left; reflexivity].
  - intros Heq Hall. apply Nat.eqb_eq in Heq. rewrite Heq. cbn [negb app].
    clear Hg Heq. induction Hall as [|entry entries (e & -> & Hmd & Hdir & Hex) _ IH];
      [reflexivity|].
    cbn [flat_map format_errors existence_errors].
    rewrite Hmd, Hdir, Hex. cbn [negb app]. exact IH.
Qed.

End Plugin.

Lemma manifest_count_check_witness :
  get (JObj [(js "agents", JArr three_declared)]) (js "agents")
  = Ok (JArr three_declared)
  /\ exists r,
      validatePluginAgents id all_exist
        (PluginJson (JObj [(js "agents", JArr three_declared)])) four_found
      = Ok r
      /\ List.filter is_count_mismatch (errors r)
         = [[Lit "plugin.json 声明 "; Val (num_of_nat 3);
             Lit " 个 agents，实际目录有 "; Val (num_of_nat 4); Lit " 个"]].
Proof.
  split; [reflexivity|].
  destruct (manifest_count_check id all_exist
              (JObj [(js "agents", JArr three_declared)]) _ four_found eq_refl)
    as (r & Hr & Hne & _).
  exists r. split; [exact Hr|]. apply Hne. discriminate.
Defined.

End ValidateAgentsFacts.

(** ** The header survives re-serialization *)

Module RoundTrip.
Import ValidateAgents ValidateAgentsFacts.
Local Open Scope string_scope.
Local Open Scope list_scope.

(** *** Leading and trailing white space *)

Lemma skip_while_fixed p s :
  match s with [] => True | c :: _ => p c = false end -> skip_while p s = s.
Proof. destruct s as [|c s]; simpl; [reflexivity|]. intros ->; reflexivity. Qed.

Lemma skip_while_suffix p s : exists a, s = a ++ skip_while p s
  /\ Forall (fun c => p c = true) a.
Proof.
  induction s as [|c s (a & IH & Ha)]; simpl.
  - exists []; split; [reflexivity|constructor].
  - destruct (p c) eqn:E.
    + exists (c :: a). split; [simpl; congruence|constructor; assumption].
    + exists []. split; [reflexivity|constructor].
Qed.

Lemma skip_while_all p a s :
  Forall (fun c => p c = true) a -> skip_while p (a ++ s) = skip_while p s.
Proof.
  induction 1 as [|c a Hc _ IH]; simpl; [reflexivity|].
  rewrite Hc. exact IH.
Qed.

Lemma skip_while_idem p s : skip_while p (skip_while p s) = skip_while p s.
Proof.
  apply skip_while_fixed. destruct (skip_while p s) as [|c r] eqn:E;
    [exact I|]. exact (VerifyHooksFacts.skip_while_head p s c r E).
Qed.

Lemma trimEnd_last s c : is_space c = false -> trimEnd (s ++ [c]) = s ++ [c].
Proof.
  intros Hc. unfold trimEnd. rewrite rev_app_distr. simpl. rewrite Hc.
  simpl. rewrite rev_involutive. reflexivity.
Qed.

Lemma trimEnd_prefix s : exists a, s = trimEnd s ++ a
  /\ Forall (fun c => is_space c = true) a.
Proof.
  unfold trimEnd. destruct (skip_while_suffix is_space (rev s)) as (a & E & Ha).
  exists (rev a). split.
  - rewrite <- rev_app_distr, <- E, rev_involutive. reflexivity.
  - apply List.Forall_rev. exact Ha.
Qed.

Lemma trimEnd_nil_or_last s :
  trimEnd s = [] \/ exists r c, trimEnd s = r ++ [c] /\ is_space c = false.
Proof.
  unfold trimEnd. destruct (skip_while is_space (rev s)) as [|c r] eqn:E.
  - left; reflexivity.
  - right. exists (rev r), c. split; [reflexivity|].
    exact (VerifyHooksFacts.skip_while_head _ _ _ _ E).
Qed.

Lemma trimmed_ends c s d :
  is_space c = false -> is_space d = false -> trimmed (c :: s ++ [d]).
Proof.
  intros Hc Hd. unfold trimmed, trim, trimStart. simpl. rewrite Hc.
  exact (trimEnd_last (c :: s) d Hd).
Qed.

Lemma trimmed_single c : is_space c = false -> trimmed [c].
Proof.
  intros Hc. unfold trimmed, trim, trimStart. simpl. rewrite Hc.
  exact (trimEnd_last [] c Hc).
Qed.

Lemma trimmed_nil : trimmed [].
Proof. reflexivity. Qed.

Lemma trim_trimmed s : trimmed (trim s).
Proof.
  unfold trim at 1, trimStart.
  destruct (skip_while is_space s) as [|c r] eqn:E; [reflexivity|].
  pose proof (VerifyHooksFacts.skip_while_head _ _ _ _ E) as Hc.
  destruct (trimEnd_nil_or_last (c :: r)) as [-> | (a & d & Ha & Hd)];
    [reflexivity|].
  rewrite Ha. destruct (trimEnd_prefix (c :: r)) as (b & Hb & _).
  rewrite Ha in Hb. destruct a as [|c' a].
  - simpl in Hb. injection Hb as <- _. apply trimmed_single; exact Hd.
  - simpl in Hb. injection Hb as <- _. apply trimmed_ends; assumption.
Qed.

Lemma trimmed_head c s : trimmed (c :: s) -> is_space c = false.
Proof.
  unfold trimmed, trim, trimStart. simpl.
  destruct (is_space c) eqn:E; [|reflexivity]. intros H. exfalso.
  destruct (skip_while_suffix is_space s) as (a & Ha & _).
  destruct (trimEnd_prefix (skip_while is_space s)) as (b & Hb & _).
  assert (Hl : List.length (c :: s)
               = List.length (trimEnd (skip_while is_space s)))
    by (rewrite H; reflexivity).
  apply (f_equal (@List.length N)) in Ha, Hb.
  rewrite !length_app in *. simpl in Hl. lia.
Qed.

Lemma trimStart_trimmed s : trimmed s -> trimStart s = s.
Proof.
  intros H. unfold trimStart. apply skip_while_fixed.
  destruct s as [|c s]; [exact I|]. exact (trimmed_head _ _ H).
Qed.

Lemma trim_spaces_l a s :
  Forall (fun c => is_space c = true) a -> trim (a ++ s) = trim s.
Proof.
  intros Ha. unfold trim, trimStart. rewrite (skip_while_all _ _ _ Ha).
  reflexivity.
Qed.

Lemma trim_space s : trim (32%N :: s) = trim s.
Proof. reflexivity. Qed.

Lemma trim_trimStart s : trim (skip_while is_space s) = trim s.
Proof. unfold trim, trimStart. rewrite skip_while_idem. reflexivity. Qed.

(** *** Reading back one serialized field *)

Lemma indexOf_app k c rest :
  Forall (fun x => x <> c) k -> indexOf c (k ++ c :: rest) = Some (List.length k).
Proof.
  induction 1 as [|x k Hx _ IH]; simpl.
  - rewrite N.eqb_refl. reflexivity.
  - apply N.eqb_neq in Hx. rewrite Hx, IH. reflexivity.
Qed.

Lemma wf_key_head k : wf_key k -> exists c r, k = c :: r /\ is_space c = false.
Proof.
  intros (Hne & Ht & _). destruct k as [|c r]; [congruence|].
  exists c, r. split; [reflexivity|]. exact (trimmed_head _ _ Ht).
Qed.

(** A line that opens with a key and a colon is a key line, whatever the
    mode. *)
Lemma step_key_line st k rest :
  wf_key k ->
  step st (k ++ colon :: rest)
  = let '(d, m) := classify k (trim rest) (data st) in
    {| data := d; currentKey := Some k; multilineMode := m |}.
Proof.
  intros Hk. destruct (wf_key_head _ Hk) as (c & r & -> & Hc).
  destruct Hk as (_ & Ht & Hcol & _ & _). unfold trimmed in Ht.
  unfold step.
  assert (Ha : array_item ((c :: r) ++ colon :: rest) = None)
    by (simpl; rewrite Hc; reflexivity).
  assert (Hi : indented ((c :: r) ++ colon :: rest) = false) by exact Hc.
  rewrite Ha, Hi, (indexOf_app _ _ _ Hcol).
  rewrite take_app_length, Ht.
  replace (drop (S (List.length (c :: r))) ((c :: r) ++ colon :: rest))
    with rest
    by (change (colon :: rest) with ([colon] ++ rest);
        rewrite app_assoc;
        replace (S (List.length (c :: r)))
          with (List.length ((c :: r) ++ [colon]))
          by (rewrite length_app; simpl; lia);
        rewrite drop_app_length; reflexivity).
  cbn [jstr_eqb orb].
  destruct (multilineMode st); cbn [andb]; reflexivity.
Qed.

Lemma store_insert (k : jstr) (v : field_value) (d : gmap jstr field_value) :
  jstr_eqb k (js "__proto__") = false -> store k v d = <[k := v]> d.
Proof. unfold store. intros ->. reflexivity. Qed.

Lemma quoted_trimmed s : trimmed (quoted s).
Proof. apply trimmed_ends; reflexivity. Qed.

Lemma endsWith_last s c : endsWith (s ++ [c]) [c] = true.
Proof.
  unfold endsWith. rewrite rev_app_distr. simpl. rewrite N.eqb_refl.
  destruct (rev s); reflexivity.
Qed.

Lemma endsWith_ends c s d : endsWith (c :: s ++ [d]) [d] = true.
Proof. exact (endsWith_last (c :: s) d). Qed.

Lemma slice_ends c s d : slice_1_m1 (c :: s ++ [d]) = s.
Proof. unfold slice_1_m1. simpl. apply removelast_last. Qed.

Lemma classify_quoted k s d :
  jstr_eqb k (js "__proto__") = false ->
  classify k (quoted s) d = (<[k := FStr s]> d, ModeNone).
Proof.
  intros Hk. unfold classify, quoted, is_quoted. cbn [app].
  rewrite (endsWith_ends 34%N s 34%N).
  rewrite slice_ends, !store_insert by exact Hk.
  destruct s; reflexivity.
Qed.

Lemma classify_inline k body d :
  jstr_eqb k (js "__proto__") = false ->
  classify k (91%N :: body ++ [93%N]) d
  = (<[k := FArr (List.map (fun s => remove_quotes (trim s))
                   (split comma body))]> d, ModeNone).
Proof.
  intros Hk. unfold classify.
  rewrite (endsWith_ends 91%N body 93%N).
  rewrite slice_ends, !store_insert by exact Hk.
  destruct body; reflexivity.
Qed.

Lemma classify_empty k d :
  jstr_eqb k (js "__proto__") = false ->
  classify k [] d = (<[k := FArr []]> d, ModeArray).
Proof. intros Hk. unfold classify. rewrite !store_insert by exact Hk. reflexivity. Qed.

(** The items of an inline list come back from between their quotes. *)

Lemma plain_no_comma item : plain item = true -> Forall (fun c => c <> comma) item.
Proof.
  unfold plain. rewrite VerifyHooksFacts.forallb_Forall_true.
  intros H. eapply Forall_impl; [exact H|]. cbv beta.
  intros c Hc. apply negb_true_iff in Hc.
  apply orb_false_iff in Hc. destruct Hc as [Hc _].
  apply orb_false_iff in Hc. destruct Hc as [Hc _].
  apply N.eqb_neq in Hc. exact Hc.
Qed.

Lemma quoted_no_comma item :
  plain item = true -> Forall (fun c => c <> comma) (quoted item).
Proof.
  intros H. unfold quoted. constructor; [discriminate|].
  apply Forall_app. split; [apply plain_no_comma; exact H|].
  constructor; [discriminate|constructor].
Qed.

Lemma remove_quotes_plain item : plain item = true -> remove_quotes item = item.
Proof.
  unfold plain, remove_quotes. induction item as [|c item IH]; simpl;
    [reflexivity|].
  intros H. apply andb_true_iff in H. destruct H as [Hc H].
  apply negb_true_iff in Hc. apply orb_false_iff in Hc. destruct Hc as [Hc H39].
  apply orb_false_iff in Hc. destruct Hc as [_ H34].
  rewrite H39, H34. simpl. rewrite (IH H). reflexivity.
Qed.

Lemma remove_quotes_quoted item :
  plain item = true -> remove_quotes (quoted item) = item.
Proof.
  intros H. unfold quoted, remove_quotes. cbn [app List.filter].
  change (negb ((34 =? 39)%N || (34 =? 34)%N)) with false. cbv iota.
  rewrite List.filter_app. cbn [List.filter].
  change (negb ((34 =? 39)%N || (34 =? 34)%N)) with false. cbv iota.
  rewrite app_nil_r. exact (remove_quotes_plain _ H).
Qed.

Lemma split_space c s :
  (32 =? c)%N = false ->
  exists w ws, split c s = w :: ws /\ split c (32%N :: s) = (32%N :: w) :: ws.
Proof.
  intros H. destruct (split_cons c s) as (w & ws & E).
  exists w, ws. split; [exact E|]. cbn [split]. rewrite H, E. reflexivity.
Qed.

Lemma split_join_quoted item items :
  Forall (fun i => plain i = true) (item :: items) ->
  split comma (join [comma; 32%N] (List.map quoted (item :: items)))
  = quoted item :: List.map (fun i => 32%N :: quoted i) items.
Proof.
  revert item. induction items as [|next items IH]; intros item Hall;
    inversion Hall as [|? ? Hi Hrest]; subst.
  - cbn [List.map join]. apply split_plain. apply quoted_no_comma; exact Hi.
  - change (join [comma; 32%N] (List.map quoted (item :: next :: items)))
      with (quoted item
            ++ comma :: 32%N
                 :: join [comma; 32%N] (List.map quoted (next :: items))).
    rewrite split_app, (split_plain _ _ (quoted_no_comma _ Hi)).
    cbn [app]. f_equal.
    destruct (split_space comma
                (join [comma; 32%N] (List.map quoted (next :: items)))
                eq_refl) as (w & ws & E1 & E2).
    rewrite E2. rewrite (IH next Hrest) in E1. injection E1 as <- <-.
    reflexivity.
Qed.

Lemma inline_items_back items :
  inline_ok items = true ->
  List.map (fun s => remove_quotes (trim s))
    (split comma (join [comma; 32%N] (List.map quoted items)))
  = items.
Proof.
  unfold inline_ok. destruct items as [|item items]; [discriminate|].
  intros H. apply VerifyHooksFacts.forallb_Forall_true in H.
  rewrite (split_join_quoted _ _ H). inversion H as [|? ? Hi Hrest]; subst.
  cbn [List.map]. rewrite (quoted_trimmed item), (remove_quotes_quoted _ Hi).
  f_equal. clear Hi H. induction Hrest as [|i items Hi _ IH]; [reflexivity|].
  cbn [List.map].
  rewrite trim_space, (quoted_trimmed i), (remove_quotes_quoted _ Hi), IH.
  reflexivity.
Qed.

(** The lines of a block list are pushed one by one. *)

Lemma step_item_line d k acc item :
  jstr_eqb k (js "__proto__") = false ->
  d !! k = Some (FArr acc) ->
  trimmed item ->
  step {| data := d; currentKey := Some k; multilineMode := ModeArray |}
       (item_line item)
  = {| data := <[k := FArr (acc ++ [item])]> d; currentKey := Some k;
       multilineMode := ModeArray |}.
Proof.
  intros Hk Hd Ht. unfold step, item_line.
  cbn [multilineMode currentKey data key_of from_option id].
  assert (Ha : array_item ([32%N; 32%N; dash; 32%N] ++ item)
               = Some (skip_while is_space item)) by reflexivity.
  rewrite Ha. unfold push. rewrite Hd, trim_trimStart, Ht.
  rewrite (store_insert _ _ _ Hk). reflexivity.
Qed.

Lemma fold_item_lines items d k acc :
  jstr_eqb k (js "__proto__") = false ->
  d !! k = Some (FArr acc) ->
  Forall trimmed items ->
  fold_left step (List.map item_line items)
    {| data := d; currentKey := Some k; multilineMode := ModeArray |}
  = {| data := <[k := FArr (acc ++ items)]> d; currentKey := Some k;
       multilineMode := ModeArray |}.
Proof.
  intros Hk. revert d acc. induction items as [|item items IH];
    intros d acc Hd Hall.
  - simpl. rewrite app_nil_r, (insert_id _ _ _ Hd). reflexivity.
  - inversion Hall as [|? ? Hi Hrest]; subst. cbn [List.map fold_left].
    rewrite (step_item_line _ _ _ _ Hk Hd Hi).
    rewrite (IH _ (acc ++ [item])); [|apply lookup_insert_eq|exact Hrest].
    rewrite insert_insert_eq, <- app_assoc. reflexivity.
Qed.

(** Reading the lines of one serialized field stores the field. *)
Lemma fold_serialize_field st k v :
  wf_key k -> wf_value v ->
  fold_left step (serialize_field k v) st
  = {| data := <[k := v]> (data st); currentKey := Some k;
       multilineMode := mode_after v |}.
Proof.
  intros Hk Hv. pose proof Hk as (_ & _ & _ & _ & Hp).
  destruct v as [s|items]; cbn [serialize_field mode_after].
  - cbn [fold_left].
    change (k ++ [colon; 32%N] ++ quoted s)
      with (k ++ colon :: 32%N :: quoted s).
    rewrite (step_key_line _ _ _ Hk).
    rewrite trim_space, (quoted_trimmed s), (classify_quoted _ _ _ Hp).
    reflexivity.
  - destruct Hv as [Hnl Hshape].
    destruct (inline_ok items) eqn:E.
    + cbn [fold_left].
      change (k ++ [colon; 32%N; 91%N]
                ++ join [comma; 32%N] (List.map quoted items) ++ [93%N])
        with (k ++ colon
                :: 32%N
                :: 91%N :: join [comma; 32%N] (List.map quoted items)
                     ++ [93%N]).
      rewrite (step_key_line _ _ _ Hk).
      rewrite trim_space, (trimmed_ends 91%N _ 93%N eq_refl eq_refl).
      rewrite (classify_inline _ _ _ Hp), (inline_items_back _ E).
      reflexivity.
    + destruct Hshape as [Hin|Htr]; [discriminate|].
      cbn [fold_left].
      change (k ++ [colon]) with (k ++ colon :: []).
      rewrite (step_key_line _ _ _ Hk). change (trim []) with (@nil N).
      rewrite (classify_empty _ _ Hp).
      change (List.map (fun item => [32%N; 32%N; dash; 32%N] ++ item) items)
        with (List.map item_line items).
      rewrite (fold_item_lines items _ k [] Hp (lookup_insert_eq _ _ _) Htr).
      rewrite insert_insert_eq. reflexivity.
Qed.

(** *** What the parser stores is well formed *)

Lemma Forall_skip_while (P : N -> Prop) p s :
  Forall P s -> Forall P (skip_while p s).
Proof.
  induction 1 as [|c s Hc Hs IH]; simpl; [constructor|].
  destruct (p c); [exact IH|constructor; assumption].
Qed.

Lemma Forall_trim (P : N -> Prop) s : Forall P s -> Forall P (trim s).
Proof.
  intros H. unfold trim, trimEnd, trimStart.
  apply List.Forall_rev, Forall_skip_while, List.Forall_rev,
    Forall_skip_while, H.
Qed.

Lemma Forall_tail {A} (P : A -> Prop) s : Forall P s -> Forall P (tl s).
Proof. destruct 1; [constructor|assumption]. Qed.

Lemma Forall_removelast (P : N -> Prop) s :
  Forall P s -> Forall P (removelast s).
Proof.
  induction 1 as [|c s Hc Hs IH]; simpl; [constructor|].
  destruct s; [constructor|]. constructor; assumption.
Qed.

Lemma Forall_slice (P : N -> Prop) s : Forall P s -> Forall P (slice_1_m1 s).
Proof. intros H. apply Forall_removelast, Forall_tail, H. Qed.

Lemma Forall_remove_quotes (P : N -> Prop) s :
  Forall P s -> Forall P (remove_quotes s).
Proof.
  induction 1 as [|c s Hc Hs IH]; simpl; [constructor|].
  destruct (negb _); [constructor; assumption|exact IH].
Qed.

Lemma array_item_rest (P : N -> Prop) line rest :
  array_item line = Some rest -> Forall P line -> Forall P rest.
Proof.
  unfold array_item. destruct line as [|c line]; [discriminate|].
  destruct (is_space c); [|discriminate]. intros H Hl.
  pose proof (Forall_skip_while P is_space _ Hl) as Hs.
  destruct (skip_while is_space (c :: line)) as [|h [|d r]];
    try discriminate.
  destruct ((h =? dash)%N && is_space d); [|discriminate].
  injection H as <-. apply Forall_skip_while.
  inversion Hs as [|? ? _ Hs']; subst. inversion Hs'; subst. assumption.
Qed.

Lemma indexOf_take c s i :
  indexOf c s = Some i -> Forall (fun x => x <> c) (take i s).
Proof.
  revert i; induction s as [|x s IH]; intros i; [discriminate|]. simpl.
  destruct (x =? c)%N eqn:E.
  - intros [= <-]. constructor.
  - destruct (indexOf c s) as [j|]; [|discriminate]. intros [= <-].
    simpl. constructor; [apply N.eqb_neq; exact E|]. apply IH. reflexivity.
Qed.

Lemma split_Forall (P : N -> Prop) sep s :
  Forall P s -> Forall (Forall P) (split sep s).
Proof.
  induction 1 as [|c s Hc Hs IH]; simpl; [repeat constructor|].
  destruct (c =? sep)%N; [constructor; [constructor|exact IH]|].
  destruct (split sep s) as [|w ws]; [repeat constructor; assumption|].
  inversion IH; subst. constructor; [constructor|]; assumption.
Qed.

Lemma split_no_sep sep s :
  Forall (Forall (fun c => c <> sep)) (split sep s).
Proof.
  induction s as [|c s IH]; simpl; [repeat constructor|].
  destruct (c =? sep)%N eqn:E; [constructor; [constructor|exact IH]|].
  apply N.eqb_neq in E.
  destruct (split sep s) as [|w ws]; [repeat constructor; assumption|].
  inversion IH; subst. constructor; [constructor|]; assumption.
Qed.

Lemma plain_remove_quotes s :
  Forall (fun c => c <> comma) s -> plain (remove_quotes s) = true.
Proof.
  unfold plain, remove_quotes.
  induction 1 as [|c s Hc Hs IH]; [reflexivity|]. cbn [List.filter].
  destruct (negb ((c =? 39)%N || (c =? 34)%N)) eqn:E; [|exact IH].
  cbn [forallb]. rewrite IH, andb_true_r.
  apply negb_true_iff in E. apply orb_false_iff in E. destruct E as [E1 E2].
  apply N.eqb_neq in Hc. rewrite Hc, E1, E2. reflexivity.
Qed.

Lemma startsWith_app_l p q r :
  startsWith p q = true -> startsWith (p ++ r) q = true.
Proof.
  intros H. apply startsWith_prefix in H. destruct H as [t ->].
  rewrite <- app_assoc. apply startsWith_app.
Qed.

(** A key that begins with the delimiter stands on a line that does. *)
Lemma key_prefix line i :
  indented line = false ->
  startsWith (trim (take i line)) dashes = true ->
  startsWith line dashes = true.
Proof.
  intros Hi H.
  assert (Ht : trimStart (take i line) = take i line).
  { unfold trimStart. apply skip_while_fixed.
    destruct line as [|c line]; [destruct i; exact I|].
    destruct i; [exact I|]. exact Hi. }
  unfold trim in H. rewrite Ht in H.
  destruct (trimEnd_prefix (take i line)) as (a & Ha & _).
  rewrite <- (take_drop i line), Ha, <- app_assoc.
  apply startsWith_app_l. exact H.
Qed.

Lemma store_cases (k : jstr) (v : field_value) (d : gmap jstr field_value) :
  (is_proto k /\ store k v d = d)
  \/ (jstr_eqb k (js "__proto__") = false /\ store k v d = <[k := v]> d).
Proof.
  unfold store, is_proto. destruct (jstr_eqb k (js "__proto__")); auto.
Qed.

Lemma stored_wf_insert d k v :
  stored_wf d -> wf_key k -> wf_value v -> stored_wf (<[k := v]> d).
Proof.
  intros Hd Hk Hv k' v'. rewrite lookup_insert.
  destruct (decide (k = k')) as [<-|]; [intros [= <-]; auto|apply Hd].
Qed.

Lemma dashed_from_insert first d k v :
  dashed_from first d ->
  (is_Some (d !! k) \/ (startsWith k dashes = true -> key_on first k)) ->
  dashed_from first (<[k := v]> d).
Proof.
  intros Hd Hk k' Hs Hdash. rewrite lookup_insert in Hs.
  destruct (decide (k = k')) as [<-|]; [|apply Hd; assumption].
  destruct Hk as [Hk|Hk]; [apply Hd; assumption|apply Hk; exact Hdash].
Qed.

(** The value a key line stores, whatever branch classifies it. *)
Lemma classify_store key value d :
  no_nl value ->
  exists v m,
    classify key value d = (store key v d, m)
    /\ wf_value v
    /\ match m with
       | ModeNone => True
       | ModeArray => v = FArr []
       | ModeString => v = FStr []
       end.
Proof.
  intros Hv. unfold classify.
  destruct (startsWith value [91%N] && endsWith value [93%N]).
  { eexists _, _. split; [reflexivity|]. split; [|exact I].
    pose proof (split_Forall _ comma _ (Forall_slice _ _ Hv)) as Hnl.
    pose proof (split_no_sep comma (slice_1_m1 value)) as Hc.
    destruct (split_cons comma (slice_1_m1 value)) as (w & ws & E).
    rewrite E in *. split.
    - apply Forall_map. eapply Forall_impl; [exact Hnl|]. cbv beta.
      intros s Hs. apply Forall_remove_quotes, Forall_trim, Hs.
    - left. unfold inline_ok. cbn [List.map].
      apply VerifyHooksFacts.forallb_Forall_true.
      change (Forall (fun x => plain x = true)
                (List.map (fun s => remove_quotes (trim s)) (w :: ws))).
      apply Forall_map. eapply Forall_impl; [exact Hc|]. cbv beta.
      intros s Hs. apply plain_remove_quotes, Forall_trim, Hs. }
  destruct (jstr_eqb value [124%N] || jstr_eqb value [62%N]).
  { eexists _, _. split; [reflexivity|]. split; [constructor|reflexivity]. }
  destruct (jstr_eqb value []).
  { eexists _, _. split; [reflexivity|].
    split; [split; [constructor|right; constructor]|reflexivity]. }
  destruct (is_quoted value).
  { eexists _, _. split; [reflexivity|]. split; [|exact I].
    apply Forall_slice. exact Hv. }
  eexists _, _. split; [reflexivity|]. split; [exact Hv|exact I].
Qed.

Lemma no_nl_space_app s t : no_nl s -> no_nl t -> no_nl (s ++ [32%N] ++ t).
Proof.
  intros Hs Ht. apply Forall_app. split; [exact Hs|].
  constructor; [discriminate|exact Ht].
Qed.

(** One iteration keeps the invariant, on the first line and on every line
    that does not begin with the delimiter. *)
Lemma step_inv first st line :
  no_nl line ->
  line = first \/ startsWith line dashes = false ->
  parser_inv first st -> parser_inv first (step st line).
Proof.
  intros Hnl Hline (Hwf & Hmode & Hdash).
  assert (Hskip : parser_inv first
                    {| data := data st; currentKey := currentKey st;
                       multilineMode := ModeNone |})
    by (split; [exact Hwf|split; [exact I|exact Hdash]]).
  assert (Hkey : forall i,
             indexOf colon line = Some i ->
             jstr_eqb (trim (take i line)) [] = false ->
             indented line = false ->
             parser_inv first
               (let '(d, m) :=
                  classify (trim (take i line))
                    (trim (drop (S i) line)) (data st) in
                {| data := d; currentKey := Some (trim (take i line));
                   multilineMode := m |})).
  { intros i Hi Hne Hind.
    destruct (classify_store (trim (take i line)) (trim (drop (S i) line))
                (data st) (Forall_trim _ _ (Forall_drop _ _ _ Hnl)))
      as (v & m & -> & Hv & Hm).
    destruct (store_cases (trim (take i line)) v (data st))
      as [[Hp ->]|[Hp ->]].
    - split; [exact Hwf|]. split; [|exact Hdash].
      unfold mode_inv; cbn [multilineMode currentKey key_of from_option id].
      destruct m; [exact I|left; exact Hp|left; exact Hp].
    - assert (Hk : wf_key (trim (take i line))).
      { split; [intros E; rewrite E in Hne; discriminate|].
        split; [apply trim_trimmed|].
        split; [apply Forall_trim, indexOf_take, Hi|].
        split; [apply Forall_trim, Forall_take, Hnl|exact Hp]. }
      split; [apply stored_wf_insert; assumption|]. split.
      + unfold mode_inv; cbn [multilineMode currentKey key_of from_option id data].
        destruct m; [exact I| |]; right; subst v.
        * exists []. split; [apply lookup_insert_eq|constructor].
        * exists []. apply lookup_insert_eq.
      + apply dashed_from_insert; [exact Hdash|]. right. intros Hd.
        destruct Hline as [<-|Hline]; [exists i; auto|].
        rewrite (key_prefix _ _ Hind Hd) in Hline. discriminate. }
  unfold step.
  destruct (multilineMode st) eqn:Em, (array_item line) as [rest|] eqn:Ea;
    cbn [andb].
  - (* no mode, an item line *)
    destruct (indexOf colon line) as [i|] eqn:Ei; [|exact Hskip].
    destruct (jstr_eqb (trim (take i line)) []) eqn:Ek; [exact Hskip|].
    destruct (indented line) eqn:En; [exact Hskip|]. cbn [orb].
    exact (Hkey i eq_refl Ek eq_refl).
  - destruct (indexOf colon line) as [i|] eqn:Ei; [|exact Hskip].
    destruct (jstr_eqb (trim (take i line)) []) eqn:Ek; [exact Hskip|].
    destruct (indented line) eqn:En; [exact Hskip|]. cbn [orb].
    exact (Hkey i eq_refl Ek eq_refl).
  - (* array mode, an item line *)
    unfold mode_inv in Hmode. rewrite Em in Hmode.
    set (key := key_of (currentKey st)) in *.
    assert (Hitem : no_nl (trim rest))
      by (apply Forall_trim; exact (array_item_rest _ _ _ Ea Hnl)).
    unfold push.
    destruct Hmode as [Hp|(items & Hd & Htr)].
    + assert (E : forall v, store key v (data st) = data st)
        by (intros v; unfold store; rewrite Hp; reflexivity).
      destruct (data st !! key) as [[s|items]|]; rewrite E;
        (split; [exact Hwf|split; [|exact Hdash]]);
        unfold mode_inv; cbn [multilineMode currentKey data];
        left; exact Hp.
    + rewrite Hd. destruct (Hwf _ _ Hd) as [Hk [Hinl _]].
      destruct (store_cases key (FArr (items ++ [trim rest])) (data st))
        as [[Hp ->]|[Hp ->]].
      * split; [exact Hwf|]. split; [|exact Hdash].
        unfold mode_inv; cbn [multilineMode currentKey data].
        left; exact Hp.
      * split; [|split].
        -- apply stored_wf_insert; [exact Hwf|exact Hk|].
           split; [apply Forall_app; split; [exact Hinl|repeat constructor; exact Hitem]|].
           right. apply Forall_app. split; [exact Htr|].
           repeat constructor. apply trim_trimmed.
        -- unfold mode_inv; cbn [multilineMode currentKey data].
           right. exists (items ++ [trim rest]).
           split; [apply lookup_insert_eq|].
           apply Forall_app. split; [exact Htr|].
           repeat constructor. apply trim_trimmed.
        -- apply dashed_from_insert; [exact Hdash|]. left. rewrite Hd. eauto.
  - destruct (indexOf colon line) as [i|] eqn:Ei; [|exact Hskip].
    destruct (jstr_eqb (trim (take i line)) []) eqn:Ek; [exact Hskip|].
    destruct (indented line) eqn:En; [exact Hskip|]. cbn [orb].
    exact (Hkey i eq_refl Ek eq_refl).
  - (* string mode, an item line *)
    rewrite andb_false_r.
    destruct (indexOf colon line) as [i|] eqn:Ei; [|exact Hskip].
    destruct (jstr_eqb (trim (take i line)) []) eqn:Ek; [exact Hskip|].
    destruct (indented line) eqn:En; [exact Hskip|]. cbn [orb].
    exact (Hkey i eq_refl Ek eq_refl).
  - (* string mode, another line *)
    rewrite andb_true_r.
    destruct (indented line) eqn:En.
    + unfold mode_inv in Hmode. rewrite Em in Hmode.
      set (key := key_of (currentKey st)) in *.
      unfold append.
      destruct Hmode as [Hp|(s & Hd)].
      * assert (E : forall v, store key v (data st) = data st)
          by (intros v; unfold store; rewrite Hp; reflexivity).
        rewrite E. split; [exact Hwf|split; [|exact Hdash]].
        unfold mode_inv; cbn [multilineMode currentKey data].
        left; exact Hp.
      * rewrite Hd. destruct (Hwf _ _ Hd) as [Hk Hs].
        destruct (store_cases key (FStr (s ++ [32%N] ++ trim line)) (data st))
          as [[Hp ->]|[Hp ->]].
        -- split; [exact Hwf|]. split; [|exact Hdash].
           unfold mode_inv; cbn [multilineMode currentKey data].
           left; exact Hp.
        -- split; [|split].
           ++ apply stored_wf_insert; [exact Hwf|exact Hk|].
              apply no_nl_space_app; [exact Hs|apply Forall_trim, Hnl].
           ++ unfold mode_inv; cbn [multilineMode currentKey data].
              right. eexists. apply lookup_insert_eq.
           ++ apply dashed_from_insert; [exact Hdash|]. left.
              rewrite Hd. eauto.
    + destruct (indexOf colon line) as [i|] eqn:Ei; [|exact Hskip].
      destruct (jstr_eqb (trim (take i line)) []) eqn:Ek; [exact Hskip|].
      cbn [orb]. exact (Hkey i eq_refl Ek eq_refl).
Qed.

Lemma initial_inv first : parser_inv first initial.
Proof.
  split; [|split; [exact I|]].
  - intros k v H. cbn [initial data] in H.
    rewrite lookup_empty in H. discriminate.
  - intros k [v H]. cbn [initial data] in H.
    rewrite lookup_empty in H. discriminate.
Qed.

Lemma fold_inv first ls st :
  Forall (fun line =>
            no_nl line /\ (line = first \/ startsWith line dashes = false)) ls ->
  parser_inv first st -> parser_inv first (fold_left step ls st).
Proof.
  intros H. revert st. induction H as [|line ls [Hn Hl] _ IH]; intros st Hst;
    [exact Hst|].
  simpl. apply IH. apply step_inv; assumption.
Qed.

(** No line of the header block but the first begins with the delimiter. *)
Lemma before_closing_lines s b :
  before_closing s = Some b ->
  Forall (fun l => startsWith l dashes = false) (tl (split nl b)).
Proof.
  revert b. induction s as [|c s IH]; intros b; [discriminate|].
  cbn [before_closing].
  destruct (startsWith (c :: s) (nl :: dashes)) eqn:E.
  { intros [= <-]. constructor. }
  destruct (before_closing s) as [b'|] eqn:Eb; [|discriminate].
  intros [= <-]. specialize (IH _ eq_refl). cbn [split].
  destruct (split_cons nl b') as (w & ws & Ew). rewrite Ew in *.
  cbn [tl] in IH.
  destruct (c =? nl)%N eqn:Ec; [|exact IH]. cbn [tl].
  constructor; [|exact IH].
  apply N.eqb_eq in Ec. subst c.
  destruct (startsWith w dashes) eqn:Ed; [|reflexivity]. exfalso.
  apply before_closing_Some in Eb. destruct Eb as [r ->].
  assert (Hw : exists t, b' = w ++ t).
  { clear -Ew. revert w ws Ew. induction b' as [|x b' IHb]; intros w ws.
    - intros [= <- <-]. exists []; reflexivity.
    - cbn [split]. destruct (x =? nl)%N.
      + intros [= <- <-]. eexists; reflexivity.
      + destruct (split_cons nl b') as (w' & ws' & E'). rewrite E'.
        intros [= <- <-]. destruct (IHb _ _ E') as [t ->].
        exists t; reflexivity. }
  destruct Hw as [t ->].
  assert (Hs : startsWith ((w ++ t) ++ nl :: dashes ++ r) dashes = true)
    by (rewrite <- !app_assoc; apply startsWith_app_l; exact Ed).
  cbn [startsWith] in E. rewrite N.eqb_refl in E. cbn [andb] in E.
  rewrite Hs in E. discriminate.
Qed.

(** What a parsed header holds: well-formed keys and values, and at most
    one key that begins with the delimiter. *)
Lemma parsed_wf content d :
  parseFrontmatter content = Some d ->
  stored_wf d
  /\ forall k1 k2,
      is_Some (d !! k1) -> is_Some (d !! k2) ->
      startsWith k1 dashes = true -> startsWith k2 dashes = true -> k1 = k2.
Proof.
  unfold parseFrontmatter, header_block.
  destruct (strip_prefix content (dashes ++ [nl])) as [rest|]; [|discriminate].
  destruct (before_closing rest) as [block|] eqn:Eb; [|discriminate].
  intros [= <-].
  pose proof (before_closing_lines _ _ Eb) as Hd.
  pose proof (split_no_sep nl block) as Hn.
  destruct (split_cons nl block) as (first & ls & E). rewrite E in *.
  cbn [tl] in Hd.
  assert (Hinv : parser_inv first (fold_left step (first :: ls) initial)).
  { apply fold_inv; [|apply initial_inv].
    inversion Hn as [|? ? Hf Hls]; subst. constructor; [split; auto|].
    apply Forall_forall. intros l Hl. rewrite Forall_forall in Hd, Hls.
    split; [apply Hls; exact Hl|right; apply Hd; exact Hl]. }
  destruct Hinv as (Hwf & _ & Hdash). split; [exact Hwf|].
  intros k1 k2 H1 H2 D1 D2.
  destruct (Hdash _ H1 D1) as (i1 & E1 & ->).
  destruct (Hdash _ H2 D2) as (i2 & E2 & ->).
  congruence.
Qed.

(** *** The serialized text has the header block it was built from *)

Lemma startsWith_nil s : startsWith s [] = true.
Proof. destruct s; reflexivity. Qed.

Lemma not_dashed_app l c rest :
  c <> dash -> startsWith l dashes = false ->
  startsWith (l ++ c :: rest) dashes = false.
Proof.
  intros Hc. apply N.eqb_neq in Hc. rewrite N.eqb_sym in Hc.
  unfold dashes.
  destruct l as [|x [|y [|z l]]]; cbn [app startsWith];
    rewrite ?Hc, ?startsWith_nil, ?andb_false_r, ?andb_true_r; auto.
Qed.

Lemma before_closing_skip l rest :
  no_nl l ->
  before_closing (l ++ rest) = option_map (app l) (before_closing rest).
Proof.
  induction 1 as [|c l Hc _ IH];
    [cbn [app]; destruct (before_closing rest); reflexivity|].
  cbn [app before_closing startsWith].
  apply N.eqb_neq in Hc. rewrite N.eqb_sym in Hc. rewrite Hc. cbn [andb].
  rewrite IH. destruct (before_closing rest); reflexivity.
Qed.

Lemma join_cons2 sep x y l :
  join sep (x :: y :: l) = x ++ sep ++ join sep (y :: l).
Proof. reflexivity. Qed.

Lemma join_head l ls :
  exists rest, join [nl] (l :: ls) ++ nl :: dashes = l ++ nl :: rest.
Proof.
  destruct ls as [|y ls].
  - exists dashes. reflexivity.
  - rewrite join_cons2. eexists. rewrite <- !app_assoc. reflexivity.
Qed.

Lemma before_closing_join ls :
  Forall no_nl ls ->
  Forall (fun l => startsWith l dashes = false) (tl ls) ->
  before_closing (join [nl] ls ++ nl :: dashes) = Some (join [nl] ls).
Proof.
  induction 1 as [|l ls Hl Hls IH]; intros Hd; [reflexivity|].
  destruct ls as [|y ls].
  - cbn [join]. rewrite (before_closing_skip _ _ Hl).
    change (before_closing (nl :: dashes)) with (Some (@nil N)).
    cbn [option_map]. rewrite app_nil_r. reflexivity.
  - cbn [tl] in Hd. rewrite join_cons2, <- !app_assoc.
    rewrite (before_closing_skip _ _ Hl). cbn [app before_closing].
    inversion Hd as [|? ? Hy Hrest]; subst. inversion Hls; subst.
    destruct (join_head y ls) as [rest E]. rewrite E.
    cbn [startsWith]. rewrite N.eqb_refl. cbn [andb].
    rewrite (not_dashed_app y nl rest) by (discriminate || assumption).
    rewrite <- E, (IH Hrest). reflexivity.
Qed.

Lemma split_join l ls :
  Forall no_nl (l :: ls) -> split nl (join [nl] (l :: ls)) = l :: ls.
Proof.
  revert l. induction ls as [|y ls IH]; intros l H;
    inversion H as [|? ? Hl Hls]; subst.
  - apply split_plain. exact Hl.
  - rewrite join_cons2. cbn [app].
    rewrite split_app, (split_plain _ _ Hl), (IH y Hls). reflexivity.
Qed.

(** *** The lines of the serialized fields *)

Lemma serialize_field_no_nl k v :
  wf_key k -> wf_value v -> Forall no_nl (serialize_field k v).
Proof.
  intros (_ & _ & _ & Hk & _) Hv.
  destruct v as [s|items]; cbn [serialize_field].
  - repeat constructor. apply Forall_app. split; [exact Hk|].
    repeat (constructor; [discriminate|]). apply Forall_app.
    split; [exact Hv|repeat constructor; discriminate].
  - destruct Hv as [Hv _]. destruct (inline_ok items).
    + repeat constructor. apply Forall_app. split; [exact Hk|].
      repeat (constructor; [discriminate|]). apply Forall_app.
      split; [|repeat constructor; discriminate].
      clear -Hv. induction Hv as [|i items Hi _ IH]; [constructor|].
      destruct items as [|j items].
      * cbn [List.map join]. constructor; [discriminate|].
        apply Forall_app. split; [exact Hi|repeat constructor; discriminate].
      * change (no_nl (quoted i ++ [comma; 32%N]
                         ++ join [comma; 32%N] (List.map quoted (j :: items)))).
        apply Forall_app. split.
        -- constructor; [discriminate|]. apply Forall_app.
           split; [exact Hi|repeat constructor; discriminate].
        -- repeat (constructor; [discriminate|]). exact IH.
    + constructor.
      * apply Forall_app. split; [exact Hk|repeat constructor; discriminate].
      * apply Forall_map. eapply Forall_impl; [exact Hv|]. cbv beta.
        intros i Hi. repeat (constructor; [discriminate|]). exact Hi.
Qed.

Lemma serialize_field_lines k v :
  exists rest items,
    serialize_field k v = (k ++ colon :: rest) :: List.map item_line items.
Proof.
  destruct v as [s|items]; cbn [serialize_field].
  - exists (32%N :: quoted s), []. reflexivity.
  - destruct (inline_ok items).
    + eexists _, []. reflexivity.
    + exists [], items. reflexivity.
Qed.

Lemma item_lines_not_dashed items :
  Forall (fun l => startsWith l dashes = false) (List.map item_line items).
Proof. apply Forall_map. apply Forall_forall. intros; reflexivity. Qed.

Lemma serialize_field_tail k v :
  Forall (fun l => startsWith l dashes = false) (tl (serialize_field k v)).
Proof.
  destruct (serialize_field_lines k v) as (rest & items & ->).
  apply item_lines_not_dashed.
Qed.

Lemma serialize_field_not_dashed k v :
  startsWith k dashes = false ->
  Forall (fun l => startsWith l dashes = false) (serialize_field k v).
Proof.
  intros Hk. destruct (serialize_field_lines k v) as (rest & items & ->).
  constructor; [|apply item_lines_not_dashed].
  apply not_dashed_app; [discriminate|exact Hk].
Qed.

Lemma fold_fields es st :
  Forall (fun kv => wf_key (fst kv) /\ wf_value (snd kv)) es ->
  data (fold_left step
          (flat_map (fun kv => serialize_field (fst kv) (snd kv)) es) st)
  = fold_left (fun m kv => <[fst kv := snd kv]> m) es (data st).
Proof.
  intros H. revert st. induction H as [|[k v] es [Hk Hv] _ IH]; intros st;
    [reflexivity|].
  cbn [flat_map fold_left fst snd]. rewrite fold_left_app.
  rewrite (fold_serialize_field _ _ _ Hk Hv), IH. reflexivity.
Qed.

Lemma fold_insert_list (es : list (jstr * field_value)) m :
  NoDup (es.*1) ->
  fold_left (fun m kv => <[fst kv := snd kv]> m) es m
  = (list_to_map es : gmap jstr field_value) ∪ m.
Proof.
  revert m. induction es as [|[k v] es IH]; intros m Hnd.
  - cbn [fold_left list_to_map foldr]. rewrite (left_id_L ∅ (∪)). reflexivity.
  - cbn [fmap list_fmap fst] in Hnd. apply NoDup_cons in Hnd.
    destruct Hnd as [Hk Hnd]. cbn [fold_left fst snd].
    rewrite (IH _ Hnd), list_to_map_cons, <- insert_union_l.
    symmetry. apply insert_union_r. apply not_elem_of_list_to_map. exact Hk.
Qed.

Lemma filter_split {A} (p : A -> bool) l :
  List.filter p l ++ List.filter (fun x => negb (p x)) l ≡ₚ l.
Proof.
  induction l as [|x l IH]; [reflexivity|]. cbn [List.filter].
  destruct (p x); cbn [negb app].
  - constructor. exact IH.
  - rewrite <- Permutation_middle. constructor. exact IH.
Qed.

Lemma filter_at_most_one (p : jstr * field_value -> bool) l :
  NoDup (l.*1) ->
  (forall x y, x ∈ l -> y ∈ l -> p x = true -> p y = true -> fst x = fst y) ->
  List.filter p l = [] \/ exists x, List.filter p l = [x].
Proof.
  induction l as [|x l IH]; intros Hnd Hu; [left; reflexivity|].
  cbn [fmap list_fmap] in Hnd. apply NoDup_cons in Hnd.
  destruct Hnd as [Hx Hnd]. cbn [List.filter].
  destruct (p x) eqn:Ex.
  - right. exists x. f_equal.
    assert (Hnone : forall y, y ∈ l -> p y = false).
    { intros y Hy. destruct (p y) eqn:Ey; [|reflexivity]. exfalso.
      apply Hx. rewrite (Hu x y); [|left|right; exact Hy|exact Ex|exact Ey].
      apply list_elem_of_fmap. exists y. split; [reflexivity|exact Hy]. }
    clear -Hnone. induction l as [|y l IHl]; [reflexivity|].
    cbn [List.filter]. rewrite (Hnone y) by left.
    apply IHl. intros z Hz. apply Hnone. right. exact Hz.
  - apply IH; [exact Hnd|]. intros a b Ha Hb. apply Hu; right; assumption.
Qed.

Lemma undashed_fields_lines (es : list (jstr * field_value)) :
  Forall (fun l => startsWith l dashes = false)
    (flat_map (fun kv => serialize_field (fst kv) (snd kv))
       (List.filter (fun kv => negb (dashed kv)) es)).
Proof.
  induction es as [|[k v] es IH]; [constructor|]. cbn [List.filter].
  destruct (dashed (k, v)) eqn:E; cbn [negb]; [exact IH|].
  cbn [flat_map fst snd]. apply Forall_app. split; [|exact IH].
  apply serialize_field_not_dashed. exact E.
Qed.

(** *** The round trip *)

(** C8.  Every header the parser returns comes back unchanged when it is
    written out again, strings as quoted scalars and arrays as inline or
    block lists, and parsed a second time. *)
Theorem parse_serialize_parse content d :
  parseFrontmatter content = Some d ->
  parseFrontmatter (serialize d) = Some d.
Proof.
  intros Hp. destruct (parsed_wf _ _ Hp) as [Hwf Huniq].
  unfold serialize.
  set (fields := map_to_list d).
  set (ordered := List.filter dashed fields
                  ++ List.filter (fun kv => negb (dashed kv)) fields).
  set (ls := flat_map (fun kv => serialize_field (fst kv) (snd kv)) ordered).
  assert (Hperm : ordered ≡ₚ fields) by apply filter_split.
  assert (Hfields : forall kv, kv ∈ fields ->
                               wf_key (fst kv) /\ wf_value (snd kv)).
  { intros [k v] Hkv. apply elem_of_map_to_list in Hkv. exact (Hwf _ _ Hkv). }
  assert (Hord : Forall (fun kv => wf_key (fst kv) /\ wf_value (snd kv)) ordered).
  { apply Forall_forall. intros kv Hkv. apply Hfields.
    rewrite <- Hperm. exact Hkv. }
  assert (Hnl : Forall no_nl ls).
  { unfold ls. clear -Hord. induction Hord as [|[k v] es [Hk Hv] _ IH];
      [constructor|].
    cbn [flat_map fst snd]. apply Forall_app. split; [|exact IH].
    apply serialize_field_no_nl; assumption. }
  assert (Hrest : Forall (fun l => startsWith l dashes = false)
                    (flat_map (fun kv => serialize_field (fst kv) (snd kv))
                       (List.filter (fun kv => negb (dashed kv)) fields))).
    by apply undashed_fields_lines.
  assert (Htail : Forall (fun l => startsWith l dashes = false) (tl ls)).
  { unfold ls, ordered. rewrite flat_map_app.
    destruct (filter_at_most_one dashed fields) as [-> | [[k v] ->]].
    - apply NoDup_fst_map_to_list.
    - intros [k1 v1] [k2 v2] H1 H2 D1 D2. cbn [fst].
      apply elem_of_map_to_list in H1, H2. apply Huniq; eauto.
    - cbn [flat_map app]. apply Forall_tail. exact Hrest.
    - cbn [flat_map fst snd]. rewrite app_nil_r.
      destruct (serialize_field_lines k v) as (rest & items & E).
      pose proof (serialize_field_tail k v) as Ht. rewrite E in *.
      cbn [app tl] in *. apply Forall_app. split; assumption. }
  assert (Hdata : data (fold_left step ls initial) = d).
  { unfold ls. rewrite (fold_fields _ _ Hord). cbn [initial data].
    rewrite fold_insert_list
      by (rewrite Hperm; apply NoDup_fst_map_to_list).
    rewrite (right_id_L ∅ (∪)).
    assert (Hnd : NoDup (ordered.*1))
      by (rewrite Hperm; apply NoDup_fst_map_to_list).
    rewrite (list_to_map_proper ordered fields Hnd Hperm).
    apply list_to_map_to_list. }
  unfold parseFrontmatter, header_block.
  replace (dashes ++ [nl] ++ join [nl] ls ++ nl :: dashes)
    with ((dashes ++ [nl]) ++ join [nl] ls ++ nl :: dashes)
    by (rewrite <- app_assoc; reflexivity).
  rewrite strip_prefix_app, (before_closing_join _ Hnl Htail).
  f_equal. destruct ls as [|l ls'] eqn:Els.
  - cbn [join split fold_left]. rewrite <- Hdata. reflexivity.
  - rewrite (split_join _ _ Hnl). exact Hdata.
Qed.

Lemma parse_serialize_parse_witness :
  exists d,
    parseFrontmatter planner = Some d
    /\ d !! js "skills" = Some (FArr [js "security, audit"; js "review"])
    /\ parseFrontmatter (serialize d) = Some d.
Proof.
  eexists. split; [reflexivity|]. split; [reflexivity|].
  apply (parse_serialize_parse planner). reflexivity.
Defined.

End RoundTrip.

(** ** More properties of the hook validator *)

Module VerifyHooksMore.
Import VerifyHooks VerifyHooksFacts.

Lemma fold_sum_zero (f : summary -> nat) rs a :
  fold_left (fun sum r => sum + f (r_summary r)) rs a = 0
  <-> a = 0 /\ Forall (fun r => f (r_summary r) = 0) rs.
Proof.
  revert a; induction rs as [|r rs IH]; intros a; simpl.
  - split; [intros ->; split; [reflexivity|constructor]|intros [-> _]; reflexivity].
  - rewrite IH. split.
    + intros [H1 H2]. split; [lia|]. constructor; [lia|exact H2].
    + intros [-> H]. inversion H; subst. split; [lia|assumption].
Qed.

Lemma sum_of_zero f rs :
  sum_of f rs = 0 <-> Forall (fun r => f (r_summary r) = 0) rs.
Proof.
  unfold sum_of. rewrite fold_sum_zero. split; [intros [_ H]; exact H|auto].
Qed.

Lemma existsb_In_jstr k l : existsb (jstr_eqb k) l = true <-> In k l.
Proof.
  rewrite existsb_exists. split.
  - intros (x & Hin & Heq). apply jstr_eqb_eq in Heq. subst. exact Hin.
  - intros H. exists k. split; [exact H|apply jstr_eqb_refl].
Qed.

Lemma total_app a b : total (a ++ b) = total a + total b.
Proof. induction a as [|x a IH]; simpl; [reflexivity|rewrite IH; lia]. Qed.

Lemma total_zero {A} (f : A -> nat) l :
  forallb (fun e => f e =? 0) l = false -> 0 < total (List.map f l).
Proof.
  induction l as [|x l IH]; simpl; [discriminate|].
  destruct (f x =? 0) eqn:E; simpl.
  - intros H. specialize (IH H). lia.
  - intros _. apply Nat.eqb_neq in E. lia.
Qed.

(** *** Decimal indices are not lifecycle names *)

Lemma digits_uint d :
  Forall (fun c => is_digit c = true) (js (NilEmpty.string_of_uint d)).
Proof.
  induction d; simpl; constructor; try reflexivity; assumption.
Qed.

Lemma decimal_unknown i :
  existsb (jstr_eqb (decimal i)) validLifecycles = false.
Proof.
  destruct (existsb (jstr_eqb (decimal i)) validLifecycles) eqn:E;
    [|reflexivity].
  apply existsb_In_jstr in E. exfalso.
  pose proof (digits_uint (Nat.to_uint i)) as Hd. fold (decimal i) in Hd.
  revert Hd. generalize (decimal i) E. intros l Hin.
  apply (valid_lifecycle_cases
           (fun l => Forall (fun c => is_digit c = true) l -> False) l Hin);
    intros Hd; inversion Hd; discriminate.
Qed.

Section Machine.

Variable extractScriptPath : jstr -> option jstr.
Variable existsSync : jstr -> bool.
Variable paths : config_path -> jstr.

Local Abbreviation validateHook := (validateHook extractScriptPath existsSync).
Local Abbreviation hooks_loop := (hooks_loop extractScriptPath existsSync).
Local Abbreviation validate_entry :=
  (validate_entry extractScriptPath existsSync).
Local Abbreviation entries_loop := (entries_loop extractScriptPath existsSync).
Local Abbreviation lifecycles_loop :=
  (lifecycles_loop extractScriptPath existsSync).
Local Abbreviation validateHooksConfig :=
  (validateHooksConfig extractScriptPath existsSync).
Local Abbreviation main := (main extractScriptPath existsSync paths).

(** *** The run *)

Ltac settle H :=
  cbn [bind app] in H;
  repeat match type of H with
         | context [if ?b then _ else _] => destruct b
         end;
  inversion H; subst; simpl; lia.

Ltac project H readJsonFile :=
  destruct (existsb (jstr_eqb (js "--project")) _ || _);
  [ destruct (match readJsonFile ProjectLocalSettings with
              | ReadSuccess _ => _ | ReadFailure => _ end)
      as [[data2|] path];
    [ destruct (validateHooksConfig data2 (paths path)) as [r2|];
        [|discriminate];
      cbn [bind] in H; destruct (printReport r2); [|discriminate];
      settle H
    | settle H ]
  | settle H ].

Lemma main_sources readJsonFile args r :
  main readJsonFile args = Ok r -> List.length (allResults r) <= 2.
Proof.
  unfold VerifyHooks.main. intros H.
  destruct (existsb (jstr_eqb (js "--global")) args || (List.length args =? 0)).
  - destruct (readJsonFile GlobalSettings) as [data|].
    + destruct (validateHooksConfig data (paths GlobalSettings)) as [r1|];
        [|discriminate].
      cbn [bind] in H. destruct (printReport r1); [|discriminate].
      cbn [bind] in H. project H readJsonFile.
    + cbn [bind] in H. project H readJsonFile.
  - cbn [bind] in H. project H readJsonFile.
Qed.

(** X1.  Whatever the arguments and the files, a run that returns checks at
    most two sources, and its exit code is 1 exactly when one of the checked
    sources counted an error, and 0 exactly when none did: warnings never
    fail the run. *)
Theorem exit_code_iff_errors readJsonFile args r :
  main readJsonFile args = Ok r ->
  List.length (allResults r) <= 2
  /\ (exit_code r = 1%Z
      <-> Exists (fun res => 0 < errors (r_summary res)) (allResults r))
  /\ (exit_code r = 0%Z
      <-> Forall (fun res => errors (r_summary res) = 0) (allResults r)).
Proof.
  intros H. split; [exact (main_sources _ _ _ H)|].
  rewrite (main_exit_code _ _ _ _ _ _ H).
  destruct (sum_of errors (allResults r) =? 0) eqn:E.
  - apply Nat.eqb_eq, sum_of_zero in E. split.
    + split; [discriminate|]. intros Hex. exfalso.
      apply Exists_exists in Hex. destruct Hex as (res & Hin & Hpos).
      rewrite Forall_forall in E. specialize (E res Hin). lia.
    + split; [intros _; exact E|reflexivity].
  - apply Nat.eqb_neq in E. split.
    + split; [intros _|reflexivity].
      assert (Hn : ~ Forall (fun res => errors (r_summary res) = 0)
                       (allResults r))
        by (intros Hall; apply E, sum_of_zero, Hall).
      apply not_Forall_Exists in Hn; [|intros res; apply _].
      eapply Exists_impl; [exact Hn|]. simpl. intros res Hne. lia.
    + split; [discriminate|]. intros Hall. exfalso. apply E.
      apply sum_of_zero. exact Hall.
Qed.


Lemma flag_absent flag args :
  ~ In flag args -> existsb (jstr_eqb flag) args = false.
Proof.
  intros H. destruct (existsb (jstr_eqb flag) args) eqn:E; [|reflexivity].
  apply existsb_exists in E. destruct E as (x & Hin & Hx).
  apply jstr_eqb_eq in Hx. subst. contradiction.
Qed.

Lemma some_args (args : list jstr) :
  args <> [] -> (List.length args =? 0) = false.
Proof. destruct args; [contradiction|reflexivity]. Qed.

(** X2.  Which files a run reads.  When [settings.local.json] can be read,
    the project's [settings.json] is never looked at.  With arguments that
    do not hold [--project], no project file is read, and with arguments
    that do not hold [--global], the global file is not: two file systems
    that differ only in the files left out give the same run.  With
    arguments that hold neither flag, nothing is checked and the run exits
    with status 0. *)
Theorem run_reads_selected_files readJsonFile readJsonFile' args :
  (forall data,
      readJsonFile ProjectLocalSettings = ReadSuccess data ->
      readJsonFile' ProjectLocalSettings = ReadSuccess data ->
      readJsonFile' GlobalSettings = readJsonFile GlobalSettings ->
      main readJsonFile' args = main readJsonFile args)
  /\ (args <> [] -> ~ In (js "--project") args ->
      readJsonFile' GlobalSettings = readJsonFile GlobalSettings ->
      main readJsonFile' args = main readJsonFile args)
  /\ (args <> [] -> ~ In (js "--global") args ->
      readJsonFile' ProjectLocalSettings = readJsonFile ProjectLocalSettings ->
      readJsonFile' ProjectSettings = readJsonFile ProjectSettings ->
      main readJsonFile' args = main readJsonFile args)
  /\ (args <> [] -> ~ In (js "--global") args -> ~ In (js "--project") args ->
      main readJsonFile args = Ok {| allResults := []; exit_code := 0 |}).
Proof.
  split; [|split; [|split]].
  - intros data H1 H2 H3. unfold VerifyHooks.main. rewrite H1, H2, H3.
    reflexivity.
  - intros Hargs Hp Hg. unfold VerifyHooks.main.
    rewrite (flag_absent _ _ Hp), (some_args _ Hargs), Hg. reflexivity.
  - intros Hargs Hg Hl Hp. unfold VerifyHooks.main.
    rewrite (flag_absent _ _ Hg), (some_args _ Hargs), Hl, Hp. reflexivity.
  - intros Hargs Hg Hp. unfold VerifyHooks.main.
    rewrite (flag_absent _ _ Hg), (flag_absent _ _ Hp), (some_args _ Hargs).
    reflexivity.
Qed.

(** *** Lifecycle names outside the list *)

Lemma set_own_unknown k ls :
  unknown_only ls ->
  unknown_only (set_own k (LifecycleError (unknown_lifecycle k)) ls).
Proof.
  unfold unknown_only. induction ls as [|[k' v'] ls IH]; intros H; simpl.
  - constructor; [reflexivity|constructor].
  - inversion H as [|? ? Hh Ht]; subst.
    destruct (jstr_eqb k k') eqn:E.
    + apply jstr_eqb_eq in E. subst. constructor; [reflexivity|exact Ht].
    + constructor; [exact Hh|exact (IH Ht)].
Qed.

Lemma unknown_loop es res :
  Forall (fun kv => existsb (jstr_eqb (fst kv)) validLifecycles = false) es ->
  unknown_only (lifecycles res) ->
  exists ls,
    lifecycles_loop es res
    = Ok {| source := source res; r_valid := r_valid res;
            r_error := r_error res; lifecycles := ls;
            r_summary :=
              {| errors := errors (r_summary res) + List.length es;
                 s_warnings := s_warnings (r_summary res);
                 hooks := hooks (r_summary res) |} |}
    /\ unknown_only ls.
Proof.
  revert res. induction es as [|[k v] es IH]; intros res Hall Hls.
  - exists (lifecycles res). split; [|exact Hls].
    destruct res as [? ? ? ? []]. simpl. rewrite Nat.add_0_r. reflexivity.
  - inversion Hall as [|? ? Hk Hes]; subst. cbn [fst] in Hk.
    cbn [VerifyHooks.lifecycles_loop]. rewrite Hk. cbn [negb].
    edestruct IH as (ls & Hrun & Hu); [exact Hes| |].
    2: { exists ls. split; [|exact Hu]. rewrite Hrun. simpl.
         repeat f_equal. lia. }
    cbn [lifecycles]. unfold assign.
    destruct (jstr_eqb k (js "__proto__")); [exact Hls|].
    apply set_own_unknown. exact Hls.
Qed.


Lemma unknown_only_prints r :
  r_error r = None -> unknown_only (lifecycles r) -> printReport r = Ok tt.
Proof.
  unfold printReport, unknown_only. intros -> H.
  induction H as [|[k v] ls Hv _ IH]; [reflexivity|].
  cbn [existsb snd] in *. rewrite Hv. cbn [orb]. exact IH.
Qed.

Lemma unknown_config config source hooks :
  get config (js "hooks") = Ok hooks ->
  (exists props, hooks = JObj props) \/ (exists items, hooks = JArr items) ->
  Forall (fun kv => existsb (jstr_eqb (fst kv)) validLifecycles = false)
    (object_entries hooks) ->
  exists r,
    validateHooksConfig config source = Ok r
    /\ VerifyHooks.source r = source
    /\ r_valid r = true
    /\ r_summary r
       = {| errors := List.length (object_entries hooks);
            s_warnings := 0; hooks := 0 |}
    /\ unknown_only (lifecycles r)
    /\ Report.closing_line r = Some (Report.Success, Report.all_passed)
    /\ printReport r = Ok tt.
Proof.
  intros Hget Hshape Hall. unfold VerifyHooks.validateHooksConfig.
  rewrite Hget. cbn [bind].
  assert (Hobj : negb (truthy hooks)
                 || negb (js_type_eqb (typeof hooks) TObject) = false)
    by (destruct Hshape as [[? ->]|[? ->]]; reflexivity).
  rewrite Hobj.
  edestruct (unknown_loop (object_entries hooks)) as (ls & Hrun & Hu);
    [exact Hall| |rewrite Hrun].
  - constructor.
  - eexists. split; [reflexivity|].
    split; [reflexivity|]. split; [reflexivity|]. split; [reflexivity|].
    split; [exact Hu|]. split; [reflexivity|].
    apply unknown_only_prints; [reflexivity|exact Hu].
Qed.

(** X3.  A lifecycle name outside the list is counted as one error and its
    value is not looked at, but the source stays valid: when no name of
    [hooks] is in the list, the source counts one error per name and
    nothing else, its report closes with the line for a source that passed,
    and a run on it exits with status 1 unless [hooks] is empty. *)
Theorem unknown_lifecycles_counted_yet_valid config props :
  get config (js "hooks") = Ok (JObj props) ->
  Forall (fun kv => ~ In (fst kv) validLifecycles) props ->
  (forall source,
      exists r,
        validateHooksConfig config source = Ok r
        /\ r_valid r = true
        /\ r_summary r
           = {| errors := List.length props; s_warnings := 0; hooks := 0 |}
        /\ unknown_only (lifecycles r)
        /\ Report.closing_line r = Some (Report.Success, Report.all_passed))
  /\ (props <> [] ->
      exit_status (main (only_global config) [js "--global"]) = 1%Z).
Proof.
  intros Hget Hall.
  assert (Hall' :
    Forall (fun kv => existsb (jstr_eqb (fst kv)) validLifecycles = false)
      (object_entries (JObj props))).
  { cbn [object_entries]. eapply Forall_impl; [exact Hall|].
    intros kv Hk. simpl in Hk.
    destruct (existsb (jstr_eqb (fst kv)) validLifecycles) eqn:E;
      [|reflexivity].
    apply existsb_In_jstr in E. contradiction. }
  split.
  - intros source.
    destruct (unknown_config config source _ Hget (or_introl (ex_intro _ _ eq_refl)) Hall')
      as (r & Hr & _ & Hv & Hs & Hu & Hc & _).
    exists r. auto.
  - intros Hne.
    destruct (unknown_config config (paths GlobalSettings) _ Hget
                (or_introl (ex_intro _ _ eq_refl)) Hall')
      as (r & Hr & _ & _ & Hs & _ & _ & Hp).
    rewrite (main_only_global _ _ _ _ _ Hr Hp). cbn [exit_status exit_code].
    rewrite Hs. cbn [errors object_entries].
    destruct props; [contradiction|reflexivity].
Qed.

Lemma imap_entries_unknown {A} (items : list A) (f : nat -> nat) :
  Forall (fun kv => existsb (jstr_eqb (fst kv)) validLifecycles = false)
    (imap (fun i x => (decimal (f i), x)) items).
Proof.
  revert f. induction items as [|x items IH]; intros f; cbn [imap].
  - constructor.
  - constructor; [apply decimal_unknown|].
    apply (IH (fun i => f (S i))).
Qed.

(** X4.  An array under [hooks] is not rejected as a value of the wrong
    shape: its indices are read as lifecycle names, so the source counts one
    error per element, validates none of them, and stays valid. *)
Theorem hooks_array_read_as_lifecycles config source items :
  get config (js "hooks") = Ok (JArr items) ->
  exists r,
    validateHooksConfig config source = Ok r
    /\ r_valid r = true /\ r_error r = None
    /\ r_summary r
       = {| errors := List.length items; s_warnings := 0; hooks := 0 |}
    /\ unknown_only (lifecycles r).
Proof.
  intros Hget.
  destruct (unknown_config config source _ Hget
              (or_intror (ex_intro _ _ eq_refl)))
    as (r & Hr & _ & Hv & Hs & Hu & Hc & _).
  - cbn [object_entries]. apply (imap_entries_unknown items (fun i => i)).
  - exists r. split; [exact Hr|]. split; [exact Hv|].
    split.
    + unfold Report.closing_line in Hc.
      destruct (r_error r); [discriminate|reflexivity].
    + split; [|exact Hu]. rewrite Hs. cbn [object_entries].
      rewrite length_imap. reflexivity.
Qed.


(** *** The counters of a lifecycle *)

Lemma hooks_loop_count hs lifecycle acc count acc' count' :
  hooks_loop hs lifecycle acc count = Ok (acc', count') ->
  count' = count + List.length hs.
Proof.
  revert acc count. induction hs as [|h hs IH]; intros acc count H.
  - inversion H; subst. simpl. lia.
  - cbn [VerifyHooks.hooks_loop] in H.
    destruct (validateHook h lifecycle) as [hr|]; [|discriminate].
    cbn [bind] in H. apply IH in H. simpl. lia.
Qed.

Lemma validate_entry_count entry i lifecycle er n :
  validate_entry entry i lifecycle = Ok (er, n) ->
  index er = i /\ n = actions_of entry.
Proof.
  unfold VerifyHooks.validate_entry, actions_of.
  destruct (get entry (js "matcher")) as [m|]; [|discriminate].
  cbn [bind].
  destruct (get entry (js "hooks")) as [hs|]; [|discriminate].
  cbn [bind].
  destruct hs as [| | | | |hs|];
    try (intros [= <- <-]; split; reflexivity).
  destruct (hooks_loop hs lifecycle _ 0) as [[acc c]|] eqn:E; [|discriminate].
  cbn [bind fst snd]. intros [= <- <-]. split; [reflexivity|].
  apply hooks_loop_count in E. exact E.
Qed.

Lemma entries_loop_counts entries i lifecycle lvalid done sm lvalid' done' sm' :
  entries_loop entries i lifecycle lvalid done sm = Ok (lvalid', done', sm') ->
  exists new,
    done' = done ++ new
    /\ List.map index new = seq i (List.length entries)
    /\ hooks sm' = hooks sm + total (List.map actions_of entries)
    /\ errors sm'
       = errors sm + total (List.map (fun e => List.length (e_issues e)) new)
    /\ s_warnings sm'
       = s_warnings sm
         + total (List.map (fun e => List.length (e_warnings e)) new)
    /\ lvalid'
       = lvalid && forallb (fun e => List.length (e_issues e) =? 0) new.
Proof.
  revert i lvalid done sm.
  induction entries as [|entry entries IH]; intros i lvalid done sm H.
  - inversion H; subst. exists []. rewrite app_nil_r, andb_true_r. simpl.
    repeat split; lia.
  - cbn [VerifyHooks.entries_loop] in H.
    destruct (validate_entry entry i lifecycle) as [[er n]|] eqn:E;
      [|discriminate].
    cbn [bind fst snd] in H.
    apply validate_entry_count in E. destruct E as [Hi Hn].
    apply IH in H. destruct H as (new & Hd & Hidx & Hh & He & Hw & Hv).
    exists (er :: new). rewrite <- app_assoc in Hd. split; [exact Hd|].
    cbn [hooks errors s_warnings] in Hh, He, Hw.
    cbn [List.map List.length seq total fold_right forallb].
    fold (total (List.map actions_of entries)).
    fold (total (List.map (fun e => List.length (e_issues e)) new)).
    fold (total (List.map (fun e => List.length (e_warnings e)) new)).
    rewrite Hidx, Hi, Hh, Hw, Hv, Hn.
    assert (He' : errors sm'
                  = errors sm + List.length (e_issues er)
                    + total (List.map (fun e => List.length (e_issues e)) new)).
    { rewrite He. destruct (List.length (e_issues er) =? 0) eqn:E0;
        cbn [negb]; [apply Nat.eqb_eq in E0|]; lia. }
    repeat split; try lia.
    destruct (List.length (e_issues er) =? 0); cbn [negb];
      destruct lvalid; reflexivity.
Qed.

(** X5.  The loop over the entries of a lifecycle, when it returns: the
    reported entries carry their positions in the array; the hook counter
    grows by the number of hook actions the entries list, the error counter
    by the number of issues the report shows and the warning counter by the
    number of warnings it shows; and the lifecycle is valid exactly when no
    entry has an issue. *)
Theorem entries_indexed_and_counted entries lifecycle sm lvalid done sm' :
  entries_loop entries 0 lifecycle true [] sm = Ok (lvalid, done, sm') ->
  List.map index done = seq 0 (List.length entries)
  /\ hooks sm' = hooks sm + total (List.map actions_of entries)
  /\ errors sm'
     = errors sm + total (List.map (fun e => List.length (e_issues e)) done)
  /\ s_warnings sm'
     = s_warnings sm
       + total (List.map (fun e => List.length (e_warnings e)) done)
  /\ lvalid = forallb (fun e => List.length (e_issues e) =? 0) done.
Proof.
  intros H. apply entries_loop_counts in H.
  destruct H as (new & Hd & Hidx & Hh & He & Hw & Hv).
  cbn [app] in Hd. subst done. cbn [andb] in Hv. auto.
Qed.

(** *** A source that is not valid shows an error *)

Lemma lifecycles_loop_inv es res r :
  lifecycles_loop es res = Ok r ->
  (r_valid res = false -> 0 < errors (r_summary res)) ->
  r_error r = r_error res
  /\ (r_valid r = false -> 0 < errors (r_summary r)).
Proof.
  revert res. induction es as [|[k v] es IH]; intros res H Hinv.
  - inversion H; subst. auto.
  - cbn [VerifyHooks.lifecycles_loop] in H.
    destruct (negb (existsb (jstr_eqb k) validLifecycles)).
    + apply IH in H; [exact H|]. simpl. lia.
    + destruct v as [| | | | |items|];
        try (apply IH in H; [exact H|]; simpl; lia).
      destruct (entries_loop items 0 k true [] (r_summary res))
        as [[[lv dn] sm]|] eqn:E; [|discriminate].
      cbn [bind] in H. apply IH in H; [exact H|].
      apply entries_loop_counts in E.
      destruct E as (new & _ & _ & _ & He & _ & Hv).
      cbn [r_valid r_summary]. cbn [andb] in Hv.
      destruct lv.
      * intros Hf. specialize (Hinv Hf). lia.
      * intros _. symmetry in Hv. apply total_zero in Hv. lia.
Qed.

(** X6.  What [validateHooksConfig] returns is of one of two kinds.  Either
    [hooks] was missing: the source is not valid, carries the top-level
    error and counts nothing.  Or the lifecycles were looked at: there is no
    top-level error, and a source that is not valid has counted at least
    one error. *)
Theorem invalid_source_shows_an_error config source r :
  validateHooksConfig config source = Ok r ->
  (r_error r = Some no_hooks /\ r_valid r = false /\ lifecycles r = []
   /\ r_summary r = {| errors := 0; s_warnings := 0; hooks := 0 |})
  \/ (r_error r = None /\ (r_valid r = false -> 0 < errors (r_summary r))).
Proof.
  unfold VerifyHooks.validateHooksConfig.
  destruct (get config (js "hooks")) as [hooks|]; [|discriminate].
  cbn [bind].
  destruct (negb (truthy hooks) || negb (js_type_eqb (typeof hooks) TObject)).
  - intros [= <-]. left. auto.
  - intros H. right. apply lifecycles_loop_inv in H; [exact H|].
    discriminate.
Qed.


(** *** When the validator throws *)

Lemma type_issues_throws type :
  type_issues type = TypeError <-> to_string_throws type = true.
Proof.
  unfold type_issues.
  destruct (negb (truthy type) || negb (includes validHookTypes type)) eqn:E.
  - destruct (to_string_throws type); easy.
  - apply orb_false_iff in E. destruct E as [_ E].
    apply negb_false_iff in E. destruct type; try discriminate E. easy.
Qed.

Lemma validateTimeout_throws timeout lifecycle :
  validateTimeout timeout lifecycle = TypeError
  <-> to_string_throws timeout = true.
Proof.
  destruct timeout as [| |b|n|s|items|props]; cbn [validateTimeout];
    try easy; try (destruct (to_string_throws _); easy).
  change (to_string_throws (JNum n)) with false.
  destruct (num_ltb n timeout_min); [easy|].
  destruct (num_ltb timeout_max n); [easy|].
  destruct (recommended lifecycle) as [r|]; [|easy].
  destruct (truthy (JNum r) && num_ltb n (num_div r 10)); easy.
Qed.

Lemma command_issues_throws command :
  command_issues extractScriptPath existsSync command = TypeError
  <-> truthy command && negb (js_type_eqb (typeof command) TString) = true.
Proof.
  unfold command_issues.
  destruct (truthy command) eqn:Et; cbn [negb andb]; [|easy].
  destruct command; cbn [typeof js_type_eqb negb]; try easy.
  destruct (p_valid _); easy.
Qed.

Lemma validateHook_throws hook lifecycle :
  validateHook hook lifecycle = TypeError <-> action_throws hook = true.
Proof.
  unfold VerifyHooks.validateHook, action_throws.
  destruct (get hook (js "type")) as [type|] eqn:Ety; cbn [bind].
  - assert (Hc : exists command, get hook (js "command") = Ok command)
      by (destruct hook; try discriminate Ety; eexists; reflexivity).
    assert (Ht : exists timeout, get hook (js "timeout") = Ok timeout)
      by (destruct hook; try discriminate Ety; eexists; reflexivity).
    destruct Hc as [command Hc]. destruct Ht as [timeout Ht].
    rewrite Hc, Ht.
    pose proof (type_issues_throws type) as H1.
    pose proof (command_issues_throws command) as H2.
    pose proof (validateTimeout_throws timeout lifecycle) as H3.
    destruct (type_issues type) as [issues1|]; cbn [bind].
    + destruct (to_string_throws type);
        [destruct H1 as [_ H1]; discriminate (H1 eq_refl)|].
      cbn [orb].
      destruct (command_issues extractScriptPath existsSync command)
        as [issues2|]; cbn [bind].
      * destruct (truthy command
                  && negb (js_type_eqb (typeof command) TString));
          [destruct H2 as [_ H2]; discriminate (H2 eq_refl)|].
        cbn [orb].
        destruct (validateTimeout timeout lifecycle) as [v|]; cbn [bind].
        -- destruct (to_string_throws timeout);
             [destruct H3 as [_ H3]; discriminate (H3 eq_refl)|easy].
        -- rewrite (proj1 H3 eq_refl). easy.
      * rewrite (proj1 H2 eq_refl). easy.
    + rewrite (proj1 H1 eq_refl). easy.
  - easy.
Qed.

(** X7.  [validateHook] throws in four cases only: the hook action is
    [null] (or [undefined]); its [type] has no text for the message that
    rejects it; its [command] is truthy and is not a string; or its
    [timeout] has no text for the message that rejects it.  A value has no
    text when it is an object with an own property [toString] or an array
    that holds a value without text.  In every other case [validateHook]
    returns its two lists. *)
Theorem validateHook_throws_iff hook lifecycle :
  validateHook hook lifecycle = TypeError
  <-> hook = JNull \/ hook = JUndefined
      \/ (exists type,
             get hook (js "type") = Ok type /\ to_string_throws type = true)
      \/ (exists command,
             get hook (js "command") = Ok command
             /\ truthy command = true /\ typeof command <> TString)
      \/ (exists timeout,
             get hook (js "timeout") = Ok timeout
             /\ to_string_throws timeout = true).
Proof.
  rewrite validateHook_throws. unfold action_throws. split.
  - destruct hook as [| |b|n|s|items|props]; cbn [get]; auto;
      try (change (to_string_throws JUndefined) with false;
           change (truthy JUndefined) with false; discriminate).
    intros H. apply orb_true_iff in H. destruct H as [H|H];
      [apply orb_true_iff in H; destruct H as [H|H]|].
    + right. right. left. eexists. split; [reflexivity|exact H].
    + right. right. right. left. eexists. split; [reflexivity|].
      apply andb_true_iff in H. destruct H as [H1 H2].
      split; [exact H1|]. intros Ht. rewrite Ht in H2. discriminate.
    + right. right. right. right. eexists. split; [reflexivity|exact H].
  - intros [->|[->|[(type & Hg & Ht)|[(command & Hg & Ht & Hs)
                                      |(timeout & Hg & Ht)]]]];
      try reflexivity.
    + destruct hook; try discriminate Hg; cbn [get] in *;
        injection Hg as <-; try discriminate Ht.
      rewrite Ht. reflexivity.
    + destruct hook; try discriminate Hg; cbn [get] in *;
        injection Hg as <-; try discriminate Ht.
      rewrite Ht. destruct (typeof _); try contradiction;
        cbn [js_type_eqb negb andb]; apply orb_true_iff; left;
        apply orb_true_r.
    + destruct hook; try discriminate Hg; cbn [get] in *;
        injection Hg as <-; try discriminate Ht.
      rewrite Ht. apply orb_true_r.
Qed.

Lemma hooks_loop_throws hs lifecycle acc count :
  hooks_loop hs lifecycle acc count = TypeError
  <-> existsb action_throws hs = true.
Proof.
  revert acc count. induction hs as [|h hs IH]; intros acc count.
  - cbn. easy.
  - cbn [VerifyHooks.hooks_loop existsb].
    destruct (validateHook h lifecycle) as [hr|] eqn:E; cbn [bind].
    + rewrite IH.
      destruct (action_throws h) eqn:Et; [|easy].
      apply (validateHook_throws h lifecycle) in Et. congruence.
    + apply validateHook_throws in E. rewrite E. easy.
Qed.

Lemma validate_entry_throws entry i lifecycle :
  validate_entry entry i lifecycle = TypeError <-> entry_throws entry = true.
Proof.
  unfold VerifyHooks.validate_entry, entry_throws.
  destruct entry as [| | | | | |props]; cbn [get bind]; try easy.
  destruct (assoc (js "hooks") props) as [| | | | |hs|]; try easy.
  rewrite <- (hooks_loop_throws hs lifecycle
                {| issues :=
                     if valid (validateMatcher (assoc (js "matcher") props))
                     then []
                     else from_option (fun e => [e]) []
                            (error (validateMatcher
                                      (assoc (js "matcher") props)));
                   warnings := [] |} 0).
  destruct (hooks_loop hs lifecycle _ 0); cbn [bind]; easy.
Qed.

Lemma entries_loop_throws entries i lifecycle lvalid done sm :
  entries_loop entries i lifecycle lvalid done sm = TypeError
  <-> existsb entry_throws entries = true.
Proof.
  revert i lvalid done sm.
  induction entries as [|e entries IH]; intros i lvalid done sm.
  - cbn. easy.
  - cbn [VerifyHooks.entries_loop existsb].
    destruct (validate_entry e i lifecycle) as [r|] eqn:E; cbn [bind].
    + rewrite IH.
      destruct (entry_throws e) eqn:Et; [|easy].
      apply (validate_entry_throws e i lifecycle) in Et. congruence.
    + apply validate_entry_throws in E. rewrite E. easy.
Qed.

Lemma lifecycles_loop_throws es res :
  lifecycles_loop es res = TypeError
  <-> existsb lifecycle_throws es = true.
Proof.
  revert res. induction es as [|[k v] es IH]; intros res.
  - cbn. easy.
  - cbn [VerifyHooks.lifecycles_loop existsb].
    unfold lifecycle_throws at 1. cbn [fst snd].
    destruct (existsb (jstr_eqb k) validLifecycles); cbn [negb andb orb].
    + destruct v as [| | | | |items|]; cbn [orb]; try apply IH.
      destruct (entries_loop items 0 k true [] (r_summary res))
        as [[[lv dn] sm]|] eqn:E; cbn [bind].
      * rewrite IH.
        destruct (existsb entry_throws items) eqn:Et; [|easy].
        apply (entries_loop_throws items 0 k true [] (r_summary res)) in Et.
        congruence.
      * apply entries_loop_throws in E. rewrite E. easy.
    + apply IH.
Qed.

(** X8.  [validateHooksConfig] throws exactly when the configuration is
    [null], or [hooks] is an object that holds, under a name of the list, an
    array with an entry that is [null] or whose [hooks] array has an action
    on which [validateHook] throws.  Under a name outside the list nothing
    is read, and nothing else makes the validator throw. *)
Theorem validateHooksConfig_throws_iff config source :
  validateHooksConfig config source = TypeError
  <-> config_throws config = true.
Proof.
  unfold VerifyHooks.validateHooksConfig, config_throws.
  destruct (get config (js "hooks")) as [hooks|]; cbn [bind]; [|easy].
  destruct (truthy hooks); cbn [negb orb andb]; [|easy].
  destruct (js_type_eqb (typeof hooks) TObject); cbn [negb andb]; [|easy].
  apply lifecycles_loop_throws.
Qed.


End Machine.

(** *** The advisory on short timeouts *)

Lemma recommended_cases lifecycle rec :
  recommended lifecycle = Some rec ->
  (lifecycle = js "PostToolUse" /\ rec = Finite 60)
  \/ (lifecycle <> js "PostToolUse" /\ rec = Finite 5).
Proof.
  unfold recommended.
  destruct (jstr_eqb lifecycle (js "PreToolUse")) eqn:E1.
  { apply jstr_eqb_eq in E1. subst. intros [= <-]. right.
    split; [discriminate|reflexivity]. }
  destruct (jstr_eqb lifecycle (js "PostToolUse")) eqn:E2.
  { apply jstr_eqb_eq in E2. subst. intros [= <-]. left. auto. }
  assert (Hne : lifecycle <> js "PostToolUse").
  { intros ->. rewrite jstr_eqb_refl in E2. discriminate. }
  destruct (jstr_eqb lifecycle (js "SessionStart"));
    [intros [= <-]; right; auto|].
  destruct (jstr_eqb lifecycle (js "SessionEnd"));
    [intros [= <-]; right; auto|].
  discriminate.
Qed.

(** X9.  The advisory that a timeout may be too short is only ever issued
    for [PostToolUse], for a timeout from 1 up to, and not including, 6.
    For the three other lifecycles with a recommended value the threshold,
    a tenth of 5, lies below the smallest timeout the validator accepts. *)
Theorem too_short_only_after_tool_use timeout lifecycle rec :
  (exists v,
      validateTimeout timeout lifecycle = Ok v
      /\ warning v = Some (timeout_too_short timeout rec))
  <-> lifecycle = js "PostToolUse" /\ rec = Finite 60
      /\ exists q, timeout = JNum (Finite q) /\ (1 <= q)%Q /\ (q < 6)%Q.
Proof.
  split.
  - intros (v & Hv & Hw).
    destruct timeout as [| | |n| | |]; cbn [validateTimeout] in Hv;
      try (injection Hv as <-; discriminate Hw);
      try (destruct (to_string_throws _);
           [discriminate Hv|injection Hv as <-; discriminate Hw]).
    destruct (num_ltb n timeout_min) eqn:Emin;
      [injection Hv as <-; discriminate Hw|].
    destruct (num_ltb timeout_max n) eqn:Emax;
      [injection Hv as <-; discriminate Hw|].
    destruct (recommended lifecycle) as [r|] eqn:Er;
      [|injection Hv as <-; discriminate Hw].
    rewrite (recommended_truthy _ _ Er) in Hv. cbn [andb] in Hv.
    destruct (num_ltb n (num_div r 10)) eqn:Eshort;
      [|injection Hv as <-; discriminate Hw].
    injection Hv as <-. cbn [warning] in Hw. injection Hw as <-.
    destruct n as [q| |]; [|discriminate|discriminate].
    assert (Hmin : ~ (q < 1)%Q).
    { intros Hlt. apply num_ltb_Finite in Hlt. unfold timeout_min in Emin.
      congruence. }
    destruct (recommended_cases _ _ Er) as [[-> ->]|[_ ->]].
    + split; [reflexivity|]. split; [reflexivity|]. exists q.
      split; [reflexivity|]. cbn [num_div] in Eshort.
      apply num_ltb_Finite in Eshort.
      split; [lra|].
      assert (H6 : (60 / inject_Z 10 == 6)%Q) by reflexivity. lra.
    + exfalso. cbn [num_div] in Eshort. apply num_ltb_Finite in Eshort.
      assert (H5 : (5 / inject_Z 10 == 1 # 2)%Q) by reflexivity. lra.
  - intros (-> & -> & q & -> & H1 & H6).
    rewrite validateTimeout_in_range.
    + change (recommended (js "PostToolUse")) with (Some (Finite 60)).
      cbn [num_div].
      assert (Hs : num_ltb (Finite q) (Finite (60 / inject_Z 10)) = true).
      { apply num_ltb_Finite.
        assert (H60 : (60 / inject_Z 10 == 6)%Q) by reflexivity. lra. }
      rewrite Hs. eexists. split; reflexivity.
    + destruct (num_ltb (Finite q) timeout_min) eqn:E; [|reflexivity].
      apply num_ltb_Finite in E. lra.
    + destruct (num_ltb timeout_max (Finite q)) eqn:E; [|reflexivity].
      apply num_ltb_Finite in E. lra.
Qed.

(** *** A clean hook action *)

Lemma timeout_clean timeout lifecycle :
  (exists v,
      validateTimeout timeout lifecycle = Ok v
      /\ timeout_issues v = [] /\ timeout_warnings v = [])
  <-> exists q,
        timeout = JNum (Finite q) /\ (1 <= q)%Q /\ (q <= 600)%Q
        /\ (lifecycle = js "PostToolUse" -> (6 <= q)%Q).
Proof.
  split.
  - intros (v & Hv & Hi & Hw).
    destruct timeout as [| | |n| | |]; cbn [validateTimeout] in Hv;
      try (injection Hv as <-; discriminate Hw);
      try (destruct (to_string_throws _);
           [discriminate Hv|injection Hv as <-; discriminate Hi]).
    destruct (num_ltb n timeout_min) eqn:Emin;
      [injection Hv as <-; discriminate Hi|].
    destruct (num_ltb timeout_max n) eqn:Emax;
      [injection Hv as <-; discriminate Hi|].
    destruct n as [q| |]; [|discriminate|discriminate].
    exists q. split; [reflexivity|].
    assert (H1 : (1 <= q)%Q).
    { apply Qnot_lt_le. intros Hlt. apply num_ltb_Finite in Hlt.
      unfold timeout_min in Emin. congruence. }
    assert (H600 : (q <= 600)%Q).
    { apply Qnot_lt_le. intros Hlt. apply num_ltb_Finite in Hlt.
      unfold timeout_max in Emax. congruence. }
    split; [exact H1|]. split; [exact H600|]. intros ->.
    change (recommended (js "PostToolUse")) with (Some (Finite 60)) in Hv.
    change (truthy (JNum (Finite 60))) with true in Hv.
    cbn [andb num_div] in Hv.
    destruct (num_ltb (Finite q) (Finite (60 / inject_Z 10))) eqn:Es;
      [injection Hv as <-; discriminate Hw|].
    apply Qnot_lt_le. intros Hlt.
    assert (Hs : num_ltb (Finite q) (Finite (60 / inject_Z 10)) = true).
    { apply num_ltb_Finite.
      assert (H60 : (60 / inject_Z 10 == 6)%Q) by reflexivity. lra. }
    congruence.
  - intros (q & -> & H1 & H600 & Hpost).
    rewrite validateTimeout_in_range.
    + destruct (recommended lifecycle) as [r|] eqn:Er;
        [|eexists; repeat split; reflexivity].
      assert (Hs : num_ltb (Finite q) (num_div r 10) = false).
      { destruct (num_ltb (Finite q) (num_div r 10)) eqn:Es; [|reflexivity].
        exfalso. destruct (recommended_cases _ _ Er) as [[Hl ->]|[_ ->]];
          cbn [num_div] in Es; apply num_ltb_Finite in Es.
        - specialize (Hpost Hl).
          assert (H60 : (60 / inject_Z 10 == 6)%Q) by reflexivity. lra.
        - assert (H5 : (5 / inject_Z 10 == 1 # 2)%Q) by reflexivity. lra. }
      rewrite Hs. eexists. repeat split; reflexivity.
    + destruct (num_ltb (Finite q) timeout_min) eqn:E; [|reflexivity].
      apply num_ltb_Finite in E. lra.
    + destruct (num_ltb timeout_max (Finite q)) eqn:E; [|reflexivity].
      apply num_ltb_Finite in E. lra.
Qed.

Lemma type_clean type :
  type_issues type = Ok [] <-> type = JStr (js "command").
Proof.
  unfold type_issues. split.
  - destruct (negb (truthy type) || negb (includes validHookTypes type))
      eqn:E; [destruct (to_string_throws type); discriminate|]. intros _.
    apply orb_false_iff in E. destruct E as [_ E].
    apply negb_false_iff in E. destruct type; try discriminate.
    cbn [includes validHookTypes existsb] in E.
    rewrite orb_false_r in E. apply jstr_eqb_eq in E. subst. reflexivity.
  - intros ->. reflexivity.
Qed.

Section Action.

Variable extractScriptPath : jstr -> option jstr.
Variable existsSync : jstr -> bool.

Lemma command_clean command :
  command_issues extractScriptPath existsSync command = Ok []
  <-> exists c p,
        command = JStr c /\ c <> []
        /\ extractScriptPath c = Some p /\ existsSync p = true.
Proof.
  unfold command_issues, validateScriptPath. split.
  - destruct (truthy command) eqn:Et; cbn [negb]; [|discriminate].
    destruct command as [| | | |c| |]; try discriminate.
    destruct c as [|x c]; [discriminate|].
    destruct (extractScriptPath (x :: c)) as [p|] eqn:Ep; cbn [p_valid];
      [|discriminate].
    destruct (existsSync p) eqn:Ex; [|discriminate].
    intros _. exists (x :: c), p. repeat split; (discriminate || assumption).
  - intros (c & p & -> & Hne & Hp & Hx).
    destruct c as [|x c]; [contradiction|]. cbn [truthy negb].
    rewrite Hp. cbn [p_valid]. rewrite Hx. reflexivity.
Qed.

(** X10.  A hook action gets no issue and no warning exactly when its type
    is [command], its command is a non-empty string whose script path is
    found and exists, and its timeout is a number from 1 to 600 that, for
    [PostToolUse], is at least 6.  In particular an action without a
    timeout is never clean. *)
Theorem clean_action_iff hook lifecycle :
  validateHook extractScriptPath existsSync hook lifecycle
  = Ok {| issues := []; warnings := [] |}
  <-> get hook (js "type") = Ok (JStr (js "command"))
      /\ (exists c p,
             get hook (js "command") = Ok (JStr c) /\ c <> []
             /\ extractScriptPath c = Some p /\ existsSync p = true)
      /\ (exists q,
             get hook (js "timeout") = Ok (JNum (Finite q))
             /\ (1 <= q)%Q /\ (q <= 600)%Q
             /\ (lifecycle = js "PostToolUse" -> (6 <= q)%Q)).
Proof.
  unfold VerifyHooks.validateHook. split.
  - destruct (get hook (js "type")) as [type|]; [|discriminate].
    cbn [bind].
    destruct (type_issues type) as [issues1|] eqn:Ety; [|discriminate].
    cbn [bind].
    destruct (get hook (js "command")) as [command|]; [|discriminate].
    cbn [bind].
    destruct (command_issues extractScriptPath existsSync command)
      as [issues2|] eqn:Ec; [|discriminate].
    destruct (get hook (js "timeout")) as [timeout|]; [|discriminate].
    cbn [bind].
    destruct (validateTimeout timeout lifecycle) as [v|] eqn:Ev;
      [|discriminate].
    cbn [bind]. intros [= Hi Hw].
    apply app_eq_nil in Hi. destruct Hi as [-> Hi].
    apply app_eq_nil in Hi. destruct Hi as [-> Hti].
    apply type_clean in Ety. subst type.
    apply command_clean in Ec. destruct Ec as (c & p & -> & Hc).
    destruct (proj1 (timeout_clean timeout lifecycle)
                (ex_intro _ v (conj Ev (conj Hti Hw))))
      as (q & -> & Hq).
    split; [reflexivity|]. split; [exists c, p; auto|exists q; auto].
  - intros (Hty & (c & p & Hc & Hrest) & (q & Hq & Hrange)).
    rewrite Hty. cbn [bind].
    rewrite (proj2 (type_clean (JStr (js "command"))) eq_refl). cbn [bind].
    rewrite Hc. cbn [bind].
    rewrite (proj2 (command_clean (JStr c)))
      by (exists c, p; auto).
    rewrite Hq. cbn [bind].
    destruct (proj2 (timeout_clean (JNum (Finite q)) lifecycle)
                (ex_intro _ q (conj eq_refl Hrange)))
      as (v & Ev & Hti & Hw).
    rewrite Ev. cbn [bind app]. rewrite Hti, Hw. reflexivity.
Qed.

End Action.

(** *** The alphabet of a matcher *)

(** X11.  A matcher the validator accepts is the wildcard, or it begins
    with a letter and either is made of letters and pipes only or ends with
    a closing parenthesis.  So a matcher that holds a space, a dot, an
    underscore or a digit is rejected unless it has the parenthesised
    form. *)
Theorem valid_matcher_alphabet m :
  valid (validateMatcher (JStr m)) = true ->
  m = js "*"
  \/ (is_alpha (hd 0%N m) = true
      /\ (Forall (fun c => is_alpha c = true \/ c = pipe) m
          \/ List.last m 0%N = 41%N)).
Proof.
  intros H. apply validateMatcher_valid in H.
  destruct H as [|id [Hne Hid]|id rest [Hne Hid] _ Hrest|id arg [Hne Hid] _].
  - left. reflexivity.
  - right. split.
    + destruct Hid; [contradiction|assumption].
    + left. eapply Forall_impl; [exact Hid|]. simpl. auto.
  - right. split.
    + destruct Hid; [contradiction|assumption].
    + left. apply Forall_app. split.
      * eapply Forall_impl; [exact Hid|]. simpl. auto.
      * constructor; [right; reflexivity|exact Hrest].
  - right. split.
    + destruct Hid; [contradiction|assumption].
    + right. change (id ++ 40%N :: arg ++ [41%N])
        with (id ++ (40%N :: arg) ++ [41%N]).
      rewrite app_assoc. apply List.last_last.
Qed.

(** *** The theorems at sample inputs *)

Lemma exit_code_iff_errors_witness :
  exists r,
    main any_script all_exist no_label (only_global unknown_names)
      [js "--global"] = Ok r
    /\ exit_code r = 1%Z
    /\ Exists (fun res => 0 < errors (r_summary res)) (allResults r).
Proof.
  eexists. split; [reflexivity|]. split; [reflexivity|].
  apply (proj1 (proj1 (proj2
           (exit_code_iff_errors any_script all_exist no_label
              (only_global unknown_names) [js "--global"] _ eq_refl)))).
  reflexivity.
Defined.

Lemma run_reads_selected_files_witness :
  main any_script all_exist no_label
    (local_and_project bad_matcher unknown_names) []
  = main any_script all_exist no_label (local_only bad_matcher) []
  /\ main any_script all_exist no_label (only_global unknown_names)
       [js "--verbose"]
     = Ok {| allResults := []; exit_code := 0 |}.
Proof.
  split.
  - apply (proj1 (run_reads_selected_files any_script all_exist no_label
                    (local_only bad_matcher)
                    (local_and_project bad_matcher unknown_names) [])
             bad_matcher); reflexivity.
  - apply (proj2 (proj2 (proj2
             (run_reads_selected_files any_script all_exist no_label
                (only_global unknown_names) (only_global unknown_names)
                [js "--verbose"])))).
    + discriminate.
    + intros [H|[]]. discriminate H.
    + intros [H|[]]. discriminate H.
Defined.

Lemma unknown_lifecycles_counted_yet_valid_witness :
  (exists r,
      validateHooksConfig any_script all_exist unknown_names
        (js "settings.json") = Ok r
      /\ r_valid r = true
      /\ r_summary r = {| errors := 2; s_warnings := 0; hooks := 0 |}
      /\ Report.closing_line r = Some (Report.Success, Report.all_passed))
  /\ exit_status
       (main any_script all_exist no_label (only_global unknown_names)
          [js "--global"]) = 1%Z.
Proof.
  assert (Hall : Forall (fun kv => ~ In (fst kv) validLifecycles) two_unknown)
    by (repeat constructor; intros H; vm_compute in H; intuition discriminate).
  destruct (unknown_lifecycles_counted_yet_valid any_script all_exist no_label
              unknown_names two_unknown eq_refl Hall) as [Hr Hexit].
  split.
  - destruct (Hr (js "settings.json")) as (r & H1 & H2 & H3 & _ & H5).
    exists r. auto.
  - apply Hexit. discriminate.
Defined.

Lemma hooks_array_read_as_lifecycles_witness :
  exists r,
    validateHooksConfig any_script all_exist hooks_as_array
      (js "settings.json") = Ok r
    /\ r_valid r = true
    /\ r_summary r = {| errors := 2; s_warnings := 0; hooks := 0 |}.
Proof.
  destruct (hooks_array_read_as_lifecycles any_script all_exist
              hooks_as_array (js "settings.json") _ eq_refl)
    as (r & H1 & H2 & _ & H4 & _).
  exists r. auto.
Defined.

Lemma entries_indexed_and_counted_witness :
  exists lvalid done sm,
    entries_loop any_script all_exist two_entries 0 (js "PreToolUse") true []
      nothing_counted = Ok (lvalid, done, sm)
    /\ List.map index done = [0; 1]
    /\ hooks sm = 2 /\ errors sm = 2 /\ s_warnings sm = 2
    /\ lvalid = false.
Proof.
  destruct (entries_loop any_script all_exist two_entries 0 (js "PreToolUse")
              true [] nothing_counted) as [[[lvalid done] sm]|] eqn:E.
  - exists lvalid, done, sm. split; [reflexivity|].
    pose proof (entries_indexed_and_counted any_script all_exist two_entries
                  (js "PreToolUse") nothing_counted lvalid done sm E) as H.
    vm_compute in E. injection E as <- <- <-. vm_compute in H. exact H.
  - vm_compute in E. discriminate E.
Defined.

Lemma invalid_source_shows_an_error_witness :
  exists r,
    validateHooksConfig any_script all_exist bad_matcher (js "settings.json")
    = Ok r
    /\ r_valid r = false /\ r_error r = None /\ 0 < errors (r_summary r).
Proof.
  destruct (validateHooksConfig any_script all_exist bad_matcher
              (js "settings.json")) as [r|] eqn:E.
  - exists r. split; [reflexivity|].
    pose proof (invalid_source_shows_an_error any_script all_exist
                  bad_matcher (js "settings.json") r E) as H.
    vm_compute in E. injection E as <-.
    destruct H as [[H _]|[H1 H2]]; [discriminate H|].
    split; [reflexivity|]. split; [exact H1|]. apply H2. reflexivity.
  - vm_compute in E. discriminate E.
Defined.

Lemma validateHook_throws_iff_witness :
  validateHook any_script all_exist
    (JObj [(js "type", JStr (js "command"));
           (js "command", JArr [JStr (js "node"); JStr (js "check.js")])])
    (js "Stop")
  = TypeError
  /\ validateHook any_script all_exist
       (action [(js "timeout", no_text)]) (js "Stop")
     = TypeError
  /\ validateHook any_script all_exist
       (JObj [(js "type", JArr [no_text]);
              (js "command", JStr (js "node check.js"))])
       (js "Stop")
     = TypeError.
Proof.
  split; [|split].
  - apply (proj2 (validateHook_throws_iff any_script all_exist _ (js "Stop"))).
    right. right. right. left.
    eexists. split; [reflexivity|]. split; [reflexivity|]. discriminate.
  - apply (proj2 (validateHook_throws_iff any_script all_exist _ (js "Stop"))).
    right. right. right. right.
    eexists. split; [reflexivity|]. reflexivity.
  - apply (proj2 (validateHook_throws_iff any_script all_exist _ (js "Stop"))).
    right. right. left.
    eexists. split; [reflexivity|]. reflexivity.
Defined.

Lemma validateHooksConfig_throws_iff_witness :
  validateHooksConfig any_script all_exist
    (JObj [(js "hooks", JObj [(js "Stop", JArr [JNull])])])
    (js "settings.json")
  = TypeError
  /\ exists r,
       validateHooksConfig any_script all_exist
         (JObj [(js "hooks", JObj [(js "OnStop", JArr [JNull])])])
         (js "settings.json")
       = Ok r.
Proof.
  split.
  - apply (proj2 (validateHooksConfig_throws_iff any_script all_exist
                    _ (js "settings.json"))). reflexivity.
  - eexists. reflexivity.
Defined.

Lemma too_short_only_after_tool_use_witness :
  (exists v,
      validateTimeout (JNum (Finite 3)) (js "PostToolUse") = Ok v
      /\ warning v = Some (timeout_too_short (JNum (Finite 3)) (Finite 60)))
  /\ validateTimeout (JNum (Finite 3)) (js "PreToolUse")
     = Ok {| valid := true; error := None; warning := None |}.
Proof.
  split; [|reflexivity].
  apply (proj2 (too_short_only_after_tool_use (JNum (Finite 3))
                  (js "PostToolUse") (Finite 60))).
  split; [reflexivity|]. split; [reflexivity|]. exists 3%Q.
  split; [reflexivity|]. split; [discriminate|reflexivity].
Defined.

Lemma clean_action_iff_witness :
  validateHook any_script all_exist
    (action [(js "timeout", JNum (Finite 30))]) (js "PreToolUse")
  = Ok {| issues := []; warnings := [] |}.
Proof.
  apply (proj2 (clean_action_iff any_script all_exist _ (js "PreToolUse"))).
  split; [reflexivity|]. split.
  - exists (js "node check.js"), (js "node check.js").
    split; [reflexivity|]. split; [discriminate|]. split; reflexivity.
  - exists 30%Q. split; [reflexivity|].
    split; [discriminate|]. split; [discriminate|]. discriminate.
Defined.

Lemma valid_matcher_alphabet_witness :
  valid (validateMatcher (JStr (js "Bash(npm test)"))) = true
  /\ List.last (js "Bash(npm test)") 0%N = 41%N.
Proof.
  split; [reflexivity|].
  destruct (valid_matcher_alphabet (js "Bash(npm test)") eq_refl)
    as [H|[_ [H|H]]].
  - discriminate H.
  - exfalso. apply Forall_app with (l1 := js "Bash") in H.
    destruct H as [_ H]. apply Forall_cons in H. destruct H as [[H|H] _];
      discriminate H.
  - exact H.
Defined.

End VerifyHooksMore.

(** ** Properties of the script path *)

Module ScriptPathFacts.
Import VerifyHooks VerifyHooksFacts ScriptPath.

Lemma after_word_suffix w s rest :
  after_word w s = Some rest ->
  exists a, s = a ++ rest /\ List.length a = List.length w.
Proof.
  revert s. induction w as [|x w IH]; intros s; cbn [after_word].
  - intros [= ->]. exists []. auto.
  - destruct s as [|y s]; [discriminate|].
    destruct (lower y =? x)%N; [|discriminate].
    intros H. apply IH in H. destruct H as (a & -> & Hl).
    exists (y :: a). split; [reflexivity|]. simpl. lia.
Qed.

Lemma after_word_app w a rest :
  List.map lower a = w -> after_word w (a ++ rest) = Some rest.
Proof.
  revert a. induction w as [|x w IH]; intros [|y a]; try discriminate.
  - reflexivity.
  - cbn [List.map]. intros [= Hy Ha]. cbn [after_word app].
    rewrite Hy, N.eqb_refl. apply IH. exact Ha.
Qed.

Lemma path_char_not_space c : path_char c = true -> is_space c = false.
Proof.
  unfold path_char. rewrite negb_true_iff, orb_false_iff. tauto.
Qed.

Lemma path_char_not_quote c : path_char c = true -> is_quote c = false.
Proof.
  unfold path_char. rewrite negb_true_iff, orb_false_iff. tauto.
Qed.

Lemma keep_while_nil p s :
  keep_while p s = [] -> match s with [] => True | c :: _ => p c = false end.
Proof. destruct s as [|c s]; simpl; [auto|]. destruct (p c); easy. Qed.

(** The group is a non-empty run of path characters of the text, and it
    takes every path character there is. *)
Lemma script_group_piece rest p :
  script_group rest = Some p ->
  p <> [] /\ Forall (fun c => path_char c = true) p
  /\ exists a post, rest = a ++ p ++ post /\ a <> [] /\ stops post = true.
Proof.
  unfold script_group. destruct rest as [|c rest']; [discriminate|].
  destruct (is_space c) eqn:Ec; [|discriminate].
  set (r := skip_while is_space (c :: rest')).
  destruct (RoundTrip.skip_while_suffix is_space (c :: rest')) as (sp & Hsp & _).
  fold r in Hsp.
  set (r' := match r with
             | [] => r
             | q :: t => if is_quote q then t else r
             end).
  assert (Hr : exists q, r = q ++ r') .
  { subst r'. destruct r as [|q t]; [exists []; reflexivity|].
    destruct (is_quote q); [exists [q]|exists []]; reflexivity. }
  destruct Hr as (q & Hq).
  destruct (keep_while path_char r') as [|x k] eqn:Ek; [discriminate|].
  intros [= <-]. split; [discriminate|]. split.
  - rewrite <- Ek. apply keep_while_Forall.
  - exists (sp ++ q), (skip_while path_char r'). split; [|split].
    + rewrite <- Ek, keep_skip, <- app_assoc, <- Hq. exact Hsp.
    + intros Hnil. apply app_eq_nil in Hnil. destruct Hnil as [-> ->].
      cbn [app] in Hsp, Hq. rewrite Hq in Hsp.
      assert (Hx : r' = c :: rest') by (symmetry; exact Hsp).
      clearbody r'. subst r'. cbn [keep_while] in Ek.
      unfold path_char in Ek at 1. rewrite Ec, orb_true_r in Ek.
      discriminate.
    + unfold stops. destruct (skip_while path_char r') as [|y t] eqn:Es;
        [reflexivity|].
      apply skip_while_head in Es. rewrite Es. reflexivity.
Qed.

Lemma interpreter_piece w s p :
  interpreter w s = Some p ->
  p <> [] /\ Forall (fun c => path_char c = true) p
  /\ exists a post, s = a ++ p ++ post /\ a <> [] /\ stops post = true.
Proof.
  unfold interpreter.
  destruct (after_word (js w) s) as [rest|] eqn:E; [|discriminate].
  intros H. apply script_group_piece in H.
  destruct H as (Hne & Hall & a & post & -> & Ha & Hpost).
  apply after_word_suffix in E. destruct E as (b & -> & _).
  split; [exact Hne|]. split; [exact Hall|].
  exists (b ++ a), post. rewrite <- app_assoc. split; [reflexivity|].
  split; [|exact Hpost]. intros Hnil. apply app_eq_nil in Hnil. tauto.
Qed.

Lemma match_here_piece s p :
  match_here s = Some p ->
  p <> [] /\ Forall (fun c => path_char c = true) p
  /\ exists a post, s = a ++ p ++ post /\ a <> [] /\ stops post = true.
Proof.
  unfold match_here, orelse.
  destruct (interpreter "node" s) eqn:E1;
    [intros [= <-]; exact (interpreter_piece _ _ _ E1)|].
  destruct (interpreter "python3" s) eqn:E2;
    [intros [= <-]; exact (interpreter_piece _ _ _ E2)|].
  destruct (interpreter "python" s) eqn:E3;
    [intros [= <-]; exact (interpreter_piece _ _ _ E3)|].
  apply interpreter_piece.
Qed.

(** X12.  The path the expression cuts out of a command is a non-empty
    piece of the command that holds no white space and no quote, that is
    preceded by something (the interpreter and the white space) and that
    ends where the command ends or where a quote or white space begins. *)
Theorem captured_path_is_a_piece command p :
  script_match command = Some p ->
  p <> [] /\ Forall (fun c => path_char c = true) p
  /\ exists pre post,
       command = pre ++ p ++ post /\ pre <> [] /\ stops post = true.
Proof.
  induction command as [|c command IH]; cbn [script_match].
  - destruct (match_here []) eqn:E; [|discriminate].
    intros [= <-]. exact (match_here_piece _ _ E).
  - destruct (match_here (c :: command)) eqn:E.
    + intros [= <-]. exact (match_here_piece _ _ E).
    + intros H. apply IH in H.
      destruct H as (Hne & Hall & pre & post & -> & Hpre & Hpost).
      split; [exact Hne|]. split; [exact Hall|].
      exists (c :: pre), post. split; [reflexivity|]. split; [discriminate|].
      exact Hpost.
Qed.


(** *** Commands the expression does not match *)

Lemma Forall_app_r {A} (P : A -> Prop) a b : Forall P (a ++ b) -> Forall P b.
Proof. intros H. apply Forall_app in H. tauto. Qed.

Lemma interpreter_needs_space w s :
  Forall (fun c => is_space c = false) s -> interpreter w s = None.
Proof.
  intros Hs. unfold interpreter.
  destruct (after_word (js w) s) as [rest|] eqn:E; [|reflexivity].
  apply after_word_suffix in E. destruct E as (a & -> & _).
  apply Forall_app_r in Hs. destruct rest as [|c rest]; [reflexivity|].
  inversion Hs as [|? ? Hc _]; subst. unfold script_group. rewrite Hc.
  reflexivity.
Qed.

Lemma script_match_needs_space s :
  Forall (fun c => is_space c = false) s -> script_match s = None.
Proof.
  induction s as [|c s IH]; intros Hs; cbn [script_match];
    unfold match_here; rewrite !(interpreter_needs_space _ _ Hs);
    cbn [orelse]; [reflexivity|].
  apply IH. inversion Hs; assumption.
Qed.

(** X13.  A command without white space, such as the bare path of an
    executable script, is never resolved, whatever the machine and the file
    system: [validateScriptPath] answers that the path cannot be parsed,
    and the hook action gets the issue that shows the command itself. *)
Theorem command_without_space_is_not_parsed
    win32 homeJoin env existsSync command :
  command <> [] ->
  Forall (fun c => is_space c = false) command ->
  validateScriptPath (extractScriptPath win32 homeJoin env) existsSync command
  = {| p_valid := false; p_error := Some "无法解析脚本路径"%string;
       p_path := JNull |}
  /\ command_issues (extractScriptPath win32 homeJoin env) existsSync
       (JStr command)
     = Ok [[Lit "无法解析脚本路径"; Lit ": "; Val (JStr command)]].
Proof.
  intros Hne Hs.
  assert (Hv : validateScriptPath (extractScriptPath win32 homeJoin env)
                 existsSync command
               = {| p_valid := false;
                    p_error := Some "无法解析脚本路径"%string;
                    p_path := JNull |}).
  { unfold validateScriptPath, extractScriptPath.
    rewrite (script_match_needs_space _ Hs). reflexivity. }
  split; [exact Hv|].
  unfold command_issues. rewrite Hv.
  destruct command as [|c command]; [contradiction|]. reflexivity.
Qed.

(** *** Commands the expression matches at once *)

Lemma keep_while_all p s :
  Forall (fun c => p c = true) s -> keep_while p s = s.
Proof.
  induction 1 as [|c s Hc _ IH]; simpl; [reflexivity|].
  rewrite Hc, IH. reflexivity.
Qed.

Lemma keep_while_stops p a post :
  Forall (fun c => p c = true) a ->
  match post with [] => True | c :: _ => p c = false end ->
  keep_while p (a ++ post) = a.
Proof.
  intros Ha Hp. destruct post as [|c post].
  - rewrite app_nil_r. apply keep_while_all. exact Ha.
  - apply keep_while_stop; assumption.
Qed.

Lemma is_quote_not_space c : is_quote c = true -> is_space c = false.
Proof.
  unfold is_quote. rewrite orb_true_iff, !N.eqb_eq.
  intros [->| ->]; reflexivity.
Qed.

Lemma script_group_spaces c rest :
  is_space c = true ->
  script_group (c :: rest)
  = match keep_while path_char
            (match skip_while is_space (c :: rest) with
             | q :: t =>
                 if is_quote q then t else skip_while is_space (c :: rest)
             | [] => skip_while is_space (c :: rest)
             end) with
    | [] => None
    | x :: k => Some (x :: k)
    end.
Proof. intros H. unfold script_group. rewrite H. reflexivity. Qed.

Lemma script_group_gap sp q p post :
  gap sp = true -> opening_quote q = true ->
  p <> [] -> Forall (fun c => path_char c = true) p -> stops post = true ->
  script_group (sp ++ q ++ p ++ post) = Some p.
Proof.
  intros Hsp Hq Hne Hp Hpost.
  destruct sp as [|c sp]; [discriminate|]. cbn [gap] in Hsp.
  apply forallb_Forall_true in Hsp.
  destruct p as [|x p]; [contradiction|].
  inversion Hp as [|? ? Hx Hp']; subst.
  assert (Hkeep : keep_while path_char (x :: p ++ post) = x :: p).
  { apply (keep_while_stops path_char (x :: p) post); [exact Hp|].
    destruct post as [|y post]; [exact I|].
    cbn [stops] in Hpost. apply negb_true_iff in Hpost. exact Hpost. }
  inversion Hsp as [|? ? Hc Hsp']; subst.
  change (script_group (c :: sp ++ q ++ x :: p ++ post) = Some (x :: p)).
  rewrite (script_group_spaces _ _ Hc).
  destruct q as [|qc [|? ?]]; [| |discriminate].
  - cbn [app].
    rewrite (skip_while_stop is_space (c :: sp) x (p ++ post) Hsp
               (path_char_not_space _ Hx) : 
               skip_while is_space (c :: sp ++ x :: p ++ post) = _).
    rewrite (path_char_not_quote _ Hx), Hkeep. reflexivity.
  - cbn [opening_quote] in Hq. cbn [app].
    rewrite (skip_while_stop is_space (c :: sp) qc (x :: p ++ post) Hsp
               (is_quote_not_space _ Hq) :
               skip_while is_space (c :: sp ++ qc :: x :: p ++ post) = _).
    rewrite Hq, Hkeep. reflexivity.
Qed.

Lemma lower_space c : is_space c = true -> lower c = c.
Proof.
  unfold lower. intros Hs.
  destruct ((65 <=? c) && (c <=? 90))%N eqn:E; [|reflexivity].
  exfalso. apply andb_true_iff in E. destruct E as [E1 E2].
  apply N.leb_le in E1, E2. unfold is_space in Hs.
  repeat (apply orb_true_iff in Hs; destruct Hs as [Hs|Hs]);
    repeat match goal with
           | H : (_ && _)%bool = true |- _ =>
               apply andb_true_iff in H; destruct H
           | H : (_ <=? _)%N = true |- _ => apply N.leb_le in H
           | H : (_ =? _)%N = true |- _ => apply N.eqb_eq in H
           end; lia.
Qed.

Lemma interpreter_head w x c rest :
  hd_error (js w) = Some x -> lower c <> x ->
  interpreter w (c :: rest) = None.
Proof.
  unfold interpreter. destruct (js w) as [|y w']; [discriminate|].
  intros [= ->] Hne. cbn [after_word].
  destruct (N.eqb_spec (lower c) x); [contradiction|reflexivity].
Qed.

Lemma after_word_app2 w1 w2 a rest :
  List.map lower a = w1 ->
  after_word (w1 ++ w2) (a ++ rest) = after_word w2 rest.
Proof.
  revert a. induction w1 as [|x w IH]; intros [|y a]; try discriminate.
  - reflexivity.
  - cbn [List.map]. intros [= Hy Ha]. cbn [after_word app].
    rewrite Hy, N.eqb_refl. apply IH. exact Ha.
Qed.

Lemma python3_needs_digit a c rest :
  List.map lower a = js "python" -> is_space c = true ->
  interpreter "python3" (a ++ c :: rest) = None.
Proof.
  intros Ha Hc. unfold interpreter.
  change (js "python3") with (js "python" ++ [51%N]).
  rewrite (after_word_app2 _ _ _ _ Ha). cbn [after_word].
  rewrite (lower_space _ Hc).
  destruct (N.eqb_spec c 51) as [->|]; [discriminate|reflexivity].
Qed.

Lemma interpreter_word_app w a rest :
  List.map lower a = js w ->
  interpreter w (a ++ rest) = script_group rest.
Proof.
  intros Ha. unfold interpreter. rewrite (after_word_app _ _ _ Ha).
  reflexivity.
Qed.

Lemma match_here_word w sp q p post :
  interpreter_word w ->
  gap sp = true -> opening_quote q = true ->
  p <> [] -> Forall (fun c => path_char c = true) p -> stops post = true ->
  match_here (w ++ sp ++ q ++ p ++ post) = Some p.
Proof.
  intros Hw Hsp Hq Hne Hp Hpost.
  pose proof (script_group_gap sp q p post Hsp Hq Hne Hp Hpost) as Hgroup.
  unfold interpreter_word in Hw. unfold match_here.
  destruct Hw as [Hw|[Hw|[Hw|[Hw|[]]]]]; symmetry in Hw.
  - rewrite (interpreter_word_app "node" _ _ Hw), Hgroup. reflexivity.
  - rewrite (interpreter_word_app "python" _ _ Hw), Hgroup.
    destruct sp as [|s sp]; [discriminate|].
    cbn [gap forallb] in Hsp. apply andb_true_iff in Hsp.
    destruct Hsp as [Hs _].
    change ((s :: sp) ++ ?t) with (s :: sp ++ t).
    rewrite (python3_needs_digit _ _ _ Hw Hs).
    destruct w as [|c w]; [discriminate|]. injection Hw as Hc _.
    cbn [app].
    rewrite (interpreter_head "node" 110%N c)
      by (try reflexivity; rewrite Hc; discriminate).
    reflexivity.
  - rewrite (interpreter_word_app "python3" _ _ Hw), Hgroup.
    destruct w as [|c w]; [discriminate|]. injection Hw as Hc _.
    cbn [app].
    rewrite (interpreter_head "node" 110%N c)
      by (try reflexivity; rewrite Hc; discriminate).
    reflexivity.
  - rewrite (interpreter_word_app "bash" _ _ Hw), Hgroup.
    destruct w as [|c w]; [discriminate|]. injection Hw as Hc _.
    cbn [app].
    rewrite (interpreter_head "node" 110%N c),
            (interpreter_head "python3" 112%N c),
            (interpreter_head "python" 112%N c)
      by (try reflexivity; rewrite Hc; discriminate).
    reflexivity.
Qed.

Lemma script_match_word w sp q p post :
  interpreter_word w ->
  gap sp = true -> opening_quote q = true ->
  p <> [] -> Forall (fun c => path_char c = true) p -> stops post = true ->
  script_match (w ++ sp ++ q ++ p ++ post) = Some p.
Proof.
  intros Hw Hsp Hq Hne Hp Hpost.
  pose proof (match_here_word w sp q p post Hw Hsp Hq Hne Hp Hpost) as H.
  destruct (w ++ sp ++ q ++ p ++ post); cbn [script_match]; rewrite H;
    reflexivity.
Qed.

(** *** The rewritings *)

Lemma replace_all_skip here f a rest :
  replace_all here f (a ++ rest) (List.length a) = replace_all here f rest 0.
Proof.
  induction a as [|c a IH]; [|exact IH].
  destruct rest; reflexivity.
Qed.

Lemma replace_all_none here f s :
  (forall c t, In c s -> here (c :: t) = None) ->
  replace_all here f s 0 = s.
Proof.
  induction s as [|c s IH]; intros H; [reflexivity|].
  cbn [replace_all]. rewrite (H c s (or_introl eq_refl)).
  rewrite IH; [reflexivity|]. intros c' t Hin. apply H. right. exact Hin.
Qed.

Lemma no_percent s :
  Forall (fun c => (c =? 37)%N = false) s ->
  forall f, replace_all percent_here f s 0 = s.
Proof.
  intros Hs f. apply replace_all_none. intros c t Hin.
  rewrite List.Forall_forall in Hs. unfold percent_here.
  rewrite (Hs c Hin). reflexivity.
Qed.

Lemma no_dollar s :
  Forall (fun c => (c =? 36)%N = false) s ->
  forall f, replace_all dollar_here f s 0 = s.
Proof.
  intros Hs f. apply replace_all_none. intros c t Hin.
  rewrite List.Forall_forall in Hs. unfold dollar_here.
  destruct t as [|k t]; [reflexivity|].
  rewrite (Hs c Hin). reflexivity.
Qed.

Lemma literal_path_chars p :
  literal_path p = true ->
  startsWith p (js "~") = false
  /\ Forall (fun c => path_char c = true) p
  /\ Forall (fun c => (c =? 37)%N = false) p
  /\ Forall (fun c => (c =? 36)%N = false) p.
Proof.
  unfold literal_path. rewrite andb_true_iff, negb_true_iff.
  intros [Ht Hall]. split; [exact Ht|].
  apply forallb_Forall_true in Hall.
  repeat split; (eapply Forall_impl; [exact Hall|]); simpl; intros c Hc;
    apply andb_true_iff in Hc; destruct Hc as [Hc1 Hc2];
    [exact Hc1| |]; apply negb_true_iff, orb_false_iff in Hc2; tauto.
Qed.

Lemma startsWith_single c s k : startsWith (c :: s) [k] = (k =? c)%N.
Proof.
  cbn [startsWith]. rewrite RoundTrip.startsWith_nil. apply andb_true_r.
Qed.

Lemma backslashes_literal p :
  literal_path p = true -> literal_path (backslashes p) = true.
Proof.
  unfold literal_path. rewrite !andb_true_iff, !negb_true_iff.
  intros [Ht Hall]. split.
  - destruct p as [|c p]; [reflexivity|].
    cbn [backslashes List.map]. 
    change (js "~") with [126%N] in *. rewrite startsWith_single in *.
    destruct (N.eqb_spec c 47) as [->|Hc]; [reflexivity|exact Ht].
  - unfold backslashes. apply forallb_Forall_true, List.Forall_map.
    apply forallb_Forall_true in Hall.
    eapply Forall_impl; [exact Hall|]. simpl. intros c Hc.
    destruct (N.eqb_spec c 47) as [->|_]; [reflexivity|exact Hc].
Qed.

Lemma expand_literal win32 homeJoin env p :
  literal_path p = true ->
  expand win32 homeJoin env p = if win32 then backslashes p else p.
Proof.
  intros Hp. unfold expand.
  assert (Hq : literal_path (if win32 then backslashes p else p) = true)
    by (destruct win32; [apply backslashes_literal|]; exact Hp).
  destruct (literal_path_chars _ Hq) as (Ht & _ & Hpc & Hd).
  rewrite Ht. cbn zeta. rewrite (no_percent _ Hpc), (no_dollar _ Hd).
  reflexivity.
Qed.

(** X14.  A command that begins with one of the four interpreter words, in
    any case, followed by white space, an optional quote and a path that
    holds no white space, quote, percent or dollar sign and does not begin
    with a tilde, is valid exactly when that path exists (on Windows, the
    path with its slashes turned into backslashes); whatever follows the
    path is ignored. *)
Theorem literal_path_is_looked_up (win32 : bool) (homeJoin env : jstr -> jstr)
    (existsSync : jstr -> bool) (w sp q p post : jstr) :
  interpreter_word w ->
  gap sp = true -> opening_quote q = true ->
  p <> [] -> literal_path p = true -> stops post = true ->
  let checked := if win32 then backslashes p else p in
  validateScriptPath (extractScriptPath win32 homeJoin env) existsSync
    (w ++ sp ++ q ++ p ++ post)
  = {| p_valid := existsSync checked;
       p_error := if existsSync checked then None
                  else Some "脚本文件不存在"%string;
       p_path := JStr checked |}.
Proof.
  intros Hw Hsp Hq Hne Hp Hpost checked.
  destruct (literal_path_chars _ Hp) as (_ & Hpc & _).
  unfold validateScriptPath, extractScriptPath.
  rewrite (script_match_word w sp q p post Hw Hsp Hq Hne Hpc Hpost).
  cbn [option_map]. rewrite (expand_literal _ _ _ _ Hp). reflexivity.
Qed.


(** *** References to the environment *)

Lemma below_123 c : (c <= 122)%N -> In c (List.map N.of_nat (seq 0 123)).
Proof.
  intros H. apply in_map_iff. exists (N.to_nat c). split; [lia|].
  apply in_seq. lia.
Qed.

Lemma name_char_small c : name_char c = true -> (c <= 122)%N.
Proof.
  unfold name_char, name_start, is_alpha. intros H.
  repeat (apply orb_true_iff in H; destruct H as [H|H]);
    repeat match goal with
           | H : (_ && _)%bool = true |- _ =>
               apply andb_true_iff in H; destruct H
           | H : (_ <=? _)%N = true |- _ => apply N.leb_le in H
           | H : (_ =? _)%N = true |- _ => apply N.eqb_eq in H
           end; lia.
Qed.

Lemma name_char_plain c :
  name_char c = true ->
  path_char c && negb ((c =? 37) || (c =? 36))%N = true.
Proof.
  intros H. pose proof (below_123 c (name_char_small c H)) as Hin.
  assert (Hall : forallb (fun c => implb (name_char c)
                            (path_char c && negb ((c =? 37) || (c =? 36))%N))
                   (List.map N.of_nat (seq 0 123)) = true)
    by (vm_compute; reflexivity).
  rewrite forallb_forall in Hall. specialize (Hall c Hin).
  rewrite H in Hall. exact Hall.
Qed.

Lemma name_start_char c : name_start c = true -> name_char c = true.
Proof. unfold name_char. intros ->. reflexivity. Qed.

Lemma env_name_chars key :
  env_name key = true ->
  exists k rest, key = k :: rest /\ name_start k = true
                 /\ Forall (fun c => name_char c = true) (k :: rest).
Proof.
  destruct key as [|k rest]; [discriminate|]. cbn [env_name].
  rewrite andb_true_iff. intros [Hk Hrest]. exists k, rest.
  split; [reflexivity|]. split; [exact Hk|].
  constructor; [exact (name_start_char _ Hk)|].
  apply forallb_Forall_true. exact Hrest.
Qed.

Lemma plain_rest_chars rest :
  plain_rest rest = true ->
  Forall (fun c => path_char c && negb ((c =? 37) || (c =? 36))%N = true) rest
  /\ match rest with [] => True | c :: _ => name_char c = false end.
Proof.
  unfold plain_rest. rewrite andb_true_iff. intros [H1 H2]. split.
  - apply forallb_Forall_true. exact H1.
  - destruct rest; [exact I|]. apply negb_true_iff. exact H2.
Qed.

Lemma plain_split (s : jstr) :
  Forall (fun c => path_char c && negb ((c =? 37) || (c =? 36))%N = true) s ->
  Forall (fun c => path_char c = true) s
  /\ Forall (fun c => (c =? 37)%N = false) s
  /\ Forall (fun c => (c =? 36)%N = false) s.
Proof.
  intros H. repeat split; (eapply Forall_impl; [exact H|]); simpl;
    intros c Hc; apply andb_true_iff in Hc; destruct Hc as [Hc1 Hc2];
    [exact Hc1| |]; apply negb_true_iff, orb_false_iff in Hc2; tauto.
Qed.

Lemma replace_all_match here f c s key len :
  here (c :: s) = Some (key, len) ->
  replace_all here f (c :: s) 0 = f key ++ replace_all here f s (Nat.pred len).
Proof. intros H. cbn [replace_all]. rewrite H. reflexivity. Qed.

Lemma dollar_reference (env : jstr -> jstr) key rest :
  env_name key = true -> plain_rest rest = true ->
  replace_all dollar_here env (36%N :: key ++ rest) 0 = env key ++ rest.
Proof.
  intros Hkey Hrest.
  destruct (env_name_chars _ Hkey) as (k & key' & -> & Hk & Hall).
  destruct (plain_rest_chars _ Hrest) as (Hplain & Hhead).
  destruct (plain_split _ Hplain) as (_ & _ & Hd).
  inversion Hall as [|? ? _ Hall']; subst.
  rewrite (replace_all_match dollar_here env 36%N ((k :: key') ++ rest)
             (k :: key') (S (List.length (k :: key')))).
  - cbn [Nat.pred]. rewrite replace_all_skip, (no_dollar _ Hd). reflexivity.
  - cbn [dollar_here app]. rewrite Hk. cbn [N.eqb Pos.eqb andb].
    rewrite (keep_while_stops name_char key' rest Hall' Hhead). reflexivity.
Qed.

(** X15.  A path that begins with a dollar sign and a name is looked up
    with the reference replaced by the text [env] gives for that name, which
    stands for what [process.env[key]], or else the empty string, puts into
    the path: the value of the environment variable of that name when it is
    set and not empty, the text of what the name inherits (a name such as
    [toString]) when the environment object answers it that way, and the
    empty text in the remaining case.  The text put in is not expanded
    again. *)
Theorem dollar_reference_is_substituted (homeJoin env : jstr -> jstr)
    (existsSync : jstr -> bool) (w sp q key rest post : jstr) :
  interpreter_word w ->
  gap sp = true -> opening_quote q = true ->
  env_name key = true -> plain_rest rest = true -> stops post = true ->
  let checked := env key ++ rest in
  validateScriptPath (extractScriptPath false homeJoin env) existsSync
    (w ++ sp ++ q ++ (36%N :: key ++ rest) ++ post)
  = {| p_valid := existsSync checked;
       p_error := if existsSync checked then None
                  else Some "脚本文件不存在"%string;
       p_path := JStr checked |}.
Proof.
  intros Hw Hsp Hq Hkey Hrest Hpost checked.
  destruct (env_name_chars _ Hkey) as (k & key' & Ek & Hk & Hall).
  destruct (plain_rest_chars _ Hrest) as (Hplain & Hhead).
  destruct (plain_split _ Hplain) as (Hpc & Hpp & Hd).
  assert (Hkeyp : Forall (fun c => path_char c
                            && negb ((c =? 37) || (c =? 36))%N = true) key).
  { rewrite Ek. eapply Forall_impl; [exact Hall|]. exact name_char_plain. }
  destruct (plain_split _ Hkeyp) as (Hkc & Hkp & _).
  unfold validateScriptPath, extractScriptPath.
  rewrite (script_match_word w sp q (36%N :: key ++ rest) post Hw Hsp Hq).
  - cbn [option_map]. unfold expand.
    change (js "~") with [126%N]. rewrite startsWith_single.
    cbn [N.eqb Pos.eqb]. cbn zeta.
    rewrite no_percent.
    + rewrite (dollar_reference env key rest Hkey Hrest). reflexivity.
    + constructor; [reflexivity|]. apply Forall_app. split; assumption.
  - discriminate.
  - constructor; [reflexivity|]. apply Forall_app. split; assumption.
  - exact Hpost.
Qed.

Lemma percent_free_chars s :
  percent_free s = true ->
  Forall (fun c => path_char c = true) s
  /\ Forall (fun c => not_percent c = true) s.
Proof.
  unfold percent_free. intros H. apply forallb_Forall_true in H.
  split; (eapply Forall_impl; [exact H|]); simpl; intros c Hc;
    apply andb_true_iff in Hc; unfold not_percent; tauto.
Qed.

Lemma percent_reference (env : jstr -> jstr) key rest :
  percent_key key = true -> percent_free rest = true ->
  replace_all percent_here env (37%N :: key ++ 37%N :: rest) 0
  = env key ++ rest.
Proof.
  intros Hkey Hrest. destruct key as [|k key']; [discriminate|].
  cbn [percent_key] in Hkey.
  destruct (percent_free_chars _ Hkey) as (_ & Hnp).
  destruct (percent_free_chars _ Hrest) as (_ & Hnr).
  assert (Hr : Forall (fun c => (c =? 37)%N = false) rest).
  { eapply Forall_impl; [exact Hnr|]. simpl. intros c Hc.
    apply negb_true_iff. exact Hc. }
  rewrite (replace_all_match percent_here env 37%N
             ((k :: key') ++ 37%N :: rest)
             (k :: key') (List.length (k :: key') + 2)).
  - replace (Nat.pred (List.length (k :: key') + 2))
      with (List.length ((k :: key') ++ [37%N]))
      by (rewrite length_app; simpl; lia).
    replace ((k :: key') ++ 37%N :: rest)
      with (((k :: key') ++ [37%N]) ++ rest)
      by (rewrite <- app_assoc; reflexivity).
    rewrite replace_all_skip, (no_percent _ Hr). reflexivity.
  - cbn [percent_here]. cbn [N.eqb Pos.eqb].
    rewrite (keep_while_stop not_percent (k :: key') 37%N rest Hnp eq_refl).
    rewrite (skip_while_stop not_percent (k :: key') 37%N rest Hnp eq_refl).
    reflexivity.
Qed.

(** X16.  A path that begins with a name between two percent signs is
    looked up with the reference replaced by the text the environment gives
    for that name; that text and the rest of the path, unlike the value of
    a dollar reference, are then searched for dollar references. *)
Theorem percent_reference_is_substituted (homeJoin env : jstr -> jstr)
    (existsSync : jstr -> bool) (w sp q key rest post : jstr) :
  interpreter_word w ->
  gap sp = true -> opening_quote q = true ->
  percent_key key = true -> percent_free rest = true -> stops post = true ->
  let checked := replace_all dollar_here env (env key ++ rest) 0 in
  validateScriptPath (extractScriptPath false homeJoin env) existsSync
    (w ++ sp ++ q ++ (37%N :: key ++ 37%N :: rest) ++ post)
  = {| p_valid := existsSync checked;
       p_error := if existsSync checked then None
                  else Some "脚本文件不存在"%string;
       p_path := JStr checked |}.
Proof.
  intros Hw Hsp Hq Hkey Hrest Hpost checked.
  destruct (percent_free_chars _ Hrest) as (Hpc & _).
  assert (Hkc : Forall (fun c => path_char c = true) key).
  { destruct key; [discriminate|]. cbn [percent_key] in Hkey.
    exact (proj1 (percent_free_chars _ Hkey)). }
  unfold validateScriptPath, extractScriptPath.
  rewrite (script_match_word w sp q (37%N :: key ++ 37%N :: rest) post
             Hw Hsp Hq).
  - cbn [option_map]. unfold expand.
    change (js "~") with [126%N]. rewrite startsWith_single.
    cbn [N.eqb Pos.eqb]. cbn zeta.
    rewrite (percent_reference env key rest Hkey Hrest). reflexivity.
  - discriminate.
  - constructor; [reflexivity|]. apply Forall_app. split; [exact Hkc|].
    constructor; [reflexivity|exact Hpc].
  - exact Hpost.
Qed.


(** *** The theorems at sample inputs *)

Lemma captured_path_is_a_piece_witness :
  script_match (js "cd hooks && node 'check.js' --fix")
  = Some (js "check.js")
  /\ exists pre post,
       js "cd hooks && node 'check.js' --fix" = pre ++ js "check.js" ++ post
       /\ pre <> [] /\ stops post = true.
Proof.
  split; [reflexivity|].
  destruct (captured_path_is_a_piece (js "cd hooks && node 'check.js' --fix")
              (js "check.js") eq_refl) as (_ & _ & H).
  exact H.
Defined.

Lemma command_without_space_is_not_parsed_witness :
  validateScriptPath (extractScriptPath false id home_env) all_exist
    bare_command
  = {| p_valid := false; p_error := Some "无法解析脚本路径"%string;
       p_path := JNull |}.
Proof.
  apply (command_without_space_is_not_parsed false id home_env all_exist
           bare_command).
  - discriminate.
  - repeat constructor.
Defined.

Lemma literal_path_is_looked_up_witness :
  validateScriptPath (extractScriptPath true id home_env) all_exist
    (js "Python3  scripts/check.py --fix")
  = {| p_valid := true; p_error := None;
       p_path := JStr (js "scripts\check.py") |}.
Proof.
  apply (literal_path_is_looked_up true id home_env all_exist
           (js "Python3") (js "  ") [] (js "scripts/check.py") (js " --fix"));
    try reflexivity.
  - right. right. left. reflexivity.
  - discriminate.
Defined.

Lemma dollar_reference_is_substituted_witness :
  validateScriptPath (extractScriptPath false id home_env)
    (fun p => jstr_eqb p (js "/home/dev/hooks/a.js"))
    (js "bash $HOME/hooks/a.js")
  = {| p_valid := true; p_error := None;
       p_path := JStr (js "/home/dev/hooks/a.js") |}
  /\ validateScriptPath (extractScriptPath false id home_env)
       (fun p => jstr_eqb p (js "/home/dev/hooks/a.js"))
       (js "bash $HOOKS/hooks/a.js")
     = {| p_valid := false; p_error := Some "脚本文件不存在"%string;
          p_path := JStr (js "/hooks/a.js") |}.
Proof.
  split.
  - apply (dollar_reference_is_substituted id home_env
             (fun p => jstr_eqb p (js "/home/dev/hooks/a.js"))
             (js "bash") (js " ") [] (js "HOME") (js "/hooks/a.js") []);
      try reflexivity.
    right. right. right. left. reflexivity.
  - apply (dollar_reference_is_substituted id home_env
             (fun p => jstr_eqb p (js "/home/dev/hooks/a.js"))
             (js "bash") (js " ") [] (js "HOOKS") (js "/hooks/a.js") []);
      try reflexivity.
    right. right. right. left. reflexivity.
Defined.

Lemma percent_reference_is_substituted_witness :
  validateScriptPath (extractScriptPath false id home_env) all_exist
    (js "node %HOME%/hooks/a.js")
  = {| p_valid := true; p_error := None;
       p_path := JStr (js "/home/dev/hooks/a.js") |}.
Proof.
  apply (percent_reference_is_substituted id home_env all_exist
           (js "node") (js " ") [] (js "HOME") (js "/hooks/a.js") []);
    try reflexivity.
  left. reflexivity.
Defined.

End ScriptPathFacts.

(** ** More properties of the descriptor validator *)

Module ValidateAgentsMore.
Import ValidateAgents ValidateAgentsFacts.
Local Open Scope string_scope.
Local Open Scope list_scope.

(** *** The header and the body of a document *)

Lemma join_head_rest l ls rest :
  exists t, join [nl] (l :: ls) ++ nl :: dashes ++ rest = l ++ nl :: t.
Proof.
  destruct ls as [|y ls].
  - exists (dashes ++ rest). reflexivity.
  - rewrite RoundTrip.join_cons2. eexists. rewrite <- !app_assoc. reflexivity.
Qed.

Lemma before_closing_here rest :
  before_closing (nl :: dashes ++ rest) = Some [].
Proof.
  cbn [before_closing].
  change (startsWith (nl :: dashes ++ rest) (nl :: dashes))
    with (startsWith ((nl :: dashes) ++ rest) (nl :: dashes)).
  rewrite startsWith_app. reflexivity.
Qed.

Lemma before_closing_document ls rest :
  Forall no_nl ls ->
  Forall (fun l => startsWith l dashes = false) (tl ls) ->
  before_closing (join [nl] ls ++ nl :: dashes ++ rest) = Some (join [nl] ls).
Proof.
  induction 1 as [|l ls Hl Hls IH]; intros Hd;
    [exact (before_closing_here rest)|].
  destruct ls as [|y ls].
  - cbn [join]. rewrite (RoundTrip.before_closing_skip _ _ Hl).
    rewrite before_closing_here.
    cbn [option_map]. rewrite app_nil_r. reflexivity.
  - cbn [tl] in Hd. rewrite RoundTrip.join_cons2, <- !app_assoc.
    rewrite (RoundTrip.before_closing_skip _ _ Hl). cbn [app before_closing].
    inversion Hd as [|? ? Hy Hrest]; subst. inversion Hls; subst.
    destruct (join_head_rest y ls rest) as [t E]. rewrite E.
    cbn [startsWith]. rewrite N.eqb_refl. cbn [andb].
    rewrite (RoundTrip.not_dashed_app y nl t) by (discriminate || assumption).
    rewrite <- E, (IH Hrest). reflexivity.
Qed.

Lemma parse_document l ls rest :
  Forall no_nl (l :: ls) ->
  Forall (fun l => startsWith l dashes = false) ls ->
  parseFrontmatter (document (l :: ls) rest)
  = Some (data (fold_left step (l :: ls) initial)).
Proof.
  intros Hnl Hd. unfold parseFrontmatter, header_block, document.
  rewrite (app_assoc dashes [nl]), strip_prefix_app.
  rewrite (before_closing_document _ rest Hnl Hd).
  rewrite (RoundTrip.split_join _ _ Hnl). reflexivity.
Qed.

Lemma strip_prefix_starts s p r :
  strip_prefix s p = Some r -> startsWith s p = true.
Proof.
  intros H. apply strip_prefix_Some in H. subst. apply startsWith_app.
Qed.

Lemma after_closing_skip l rest :
  no_nl l -> after_closing (l ++ rest) = after_closing rest.
Proof.
  induction 1 as [|c l Hc _ IH]; [reflexivity|].
  cbn [app after_closing strip_prefix].
  apply N.eqb_neq in Hc. rewrite N.eqb_sym in Hc. rewrite Hc. exact IH.
Qed.

Lemma after_closing_document ls body :
  Forall no_nl ls ->
  Forall (fun l => startsWith l dashes = false) (tl ls) ->
  ls <> [] ->
  after_closing (join [nl] ls ++ nl :: dashes ++ nl :: body) = Some body.
Proof.
  induction 1 as [|l ls Hl Hls IH]; intros Hd Hne; [contradiction|].
  destruct ls as [|y ls].
  - cbn [join]. rewrite (after_closing_skip _ _ Hl).
    cbn [after_closing].
    change (nl :: dashes ++ nl :: body)
      with ((nl :: dashes ++ [nl]) ++ body).
    rewrite strip_prefix_app. reflexivity.
  - cbn [tl] in Hd. rewrite RoundTrip.join_cons2, <- !app_assoc.
    rewrite (after_closing_skip _ _ Hl). cbn [app after_closing].
    inversion Hd as [|? ? Hy Hrest]; subst. inversion Hls; subst.
    destruct (join_head_rest y ls (nl :: body)) as [t E]. rewrite E.
    destruct (strip_prefix (nl :: y ++ nl :: t) (nl :: dashes ++ [nl]))
      as [b|] eqn:Es.
    + exfalso. cbn [strip_prefix] in Es. rewrite N.eqb_refl in Es.
      apply strip_prefix_starts in Es.
      assert (Hs : startsWith (y ++ nl :: t) dashes = true).
      { unfold dashes in *. cbn [app] in Es.
        destruct (y ++ nl :: t) as [|a [|b' [|c r]]]; cbn [startsWith] in *;
          rewrite ?andb_false_r in Es; try discriminate.
        apply andb_true_iff in Es. destruct Es as [-> Es].
        apply andb_true_iff in Es. destruct Es as [-> Es].
        apply andb_true_iff in Es. destruct Es as [-> Es].
        rewrite RoundTrip.startsWith_nil. reflexivity. }
      rewrite (RoundTrip.not_dashed_app y nl t) in Hs
        by (discriminate || assumption).
      discriminate.
    + rewrite <- E. apply IH; [exact Hrest|discriminate].
Qed.

(** X17.  A document made of the opening line, header lines none of which,
    after the first, begins with three dashes, and a closing line of three
    dashes: the parser reads exactly the header lines, whatever follows the
    closing dashes, and the validator takes as the body the text after the
    closing line. *)
Theorem document_header_and_body l ls rest body :
  Forall no_nl (l :: ls) ->
  Forall (fun l => startsWith l dashes = false) ls ->
  parseFrontmatter (document (l :: ls) rest)
  = Some (data (fold_left step (l :: ls) initial))
  /\ body_of (document (l :: ls) (nl :: body)) = Some body.
Proof.
  intros Hnl Hd. split; [exact (parse_document l ls rest Hnl Hd)|].
  unfold body_of, document. rewrite (app_assoc dashes [nl]), strip_prefix_app.
  apply after_closing_document; [exact Hnl|exact Hd|discriminate].
Qed.


Lemma parse_header header rest :
  header <> [] ->
  Forall no_nl header ->
  Forall (fun l => startsWith l dashes = false) header ->
  parseFrontmatter (document header rest)
  = Some (data (fold_left step header initial)).
Proof.
  intros Hne Hnl Hd. destruct header as [|l ls]; [contradiction|].
  apply parse_document; [exact Hnl|]. inversion Hd; assumption.
Qed.

Lemma key_line_shape k v :
  wf_key k -> startsWith k dashes = false -> no_nl v ->
  no_nl (k ++ colon :: 32%N :: v)
  /\ startsWith (k ++ colon :: 32%N :: v) dashes = false.
Proof.
  intros (_ & _ & _ & Hk & _) Hd Hv. split.
  - apply Forall_app. split; [exact Hk|].
    constructor; [discriminate|]. constructor; [discriminate|exact Hv].
  - apply RoundTrip.not_dashed_app; [discriminate|exact Hd].
Qed.

Lemma classify_bare k v d :
  jstr_eqb k (js "__proto__") = false -> bare_scalar v ->
  classify k v d = (<[k := FStr v]> d, ModeNone).
Proof.
  intros Hk (Hne & _ & Hb & Hp & Hg & Hq). unfold classify.
  rewrite Hb, Hp, Hg, Hq. cbn [orb].
  destruct (jstr_eqb v []) eqn:E.
  - apply VerifyHooksFacts.jstr_eqb_eq in E. contradiction.
  - rewrite (RoundTrip.store_insert _ _ _ Hk). reflexivity.
Qed.

(** X18.  The last line that defines a key decides its value: when the
    header ends with a line made of a key, a colon and a bare scalar, the
    parsed header maps the key to that scalar, whatever the lines before it
    stored under the key. *)
Theorem last_key_line_wins header rest k v :
  Forall no_nl header ->
  Forall (fun l => startsWith l dashes = false) header ->
  wf_key k -> startsWith k dashes = false ->
  bare_scalar v -> no_nl v ->
  exists d,
    parseFrontmatter (document (header ++ [k ++ colon :: 32%N :: v]) rest)
    = Some d
    /\ d !! k = Some (FStr v).
Proof.
  intros Hnl Hd Hk Hkd Hv Hvnl.
  destruct (key_line_shape k v Hk Hkd Hvnl) as [Hlnl Hld].
  eexists. split.
  - apply parse_header.
    + destruct header; discriminate.
    + apply Forall_app. split; [exact Hnl|]. constructor; [exact Hlnl|constructor].
    + apply Forall_app. split; [exact Hd|]. constructor; [exact Hld|constructor].
  - rewrite fold_left_app. cbn [fold_left].
    rewrite (RoundTrip.step_key_line _ k (32%N :: v) Hk).
    rewrite RoundTrip.trim_space.
    destruct Hv as (Hne & Ht & Hrest). unfold trimmed in Ht. rewrite Ht.
    destruct Hk as (_ & _ & _ & _ & Hproto).
    rewrite (classify_bare k v _ Hproto (conj Hne (conj Ht Hrest))).
    cbn [data]. apply lookup_insert_eq.
Qed.


(** *** Block scalars *)

Lemma step_continuation d k s line :
  jstr_eqb k (js "__proto__") = false ->
  d !! k = Some (FStr s) ->
  continuation line = true ->
  step {| data := d; currentKey := Some k; multilineMode := ModeString |} line
  = {| data := <[k := FStr (s ++ 32%N :: trim line)]> d;
       currentKey := Some k; multilineMode := ModeString |}.
Proof.
  intros Hk Hd Hc. unfold continuation in Hc.
  apply andb_true_iff in Hc. destruct Hc as [Hi Ha].
  unfold step. cbn [multilineMode currentKey data].
  destruct (array_item line); [discriminate|].
  rewrite Hi. cbn [andb]. unfold append, key_of. cbn [from_option id].
  rewrite Hd, (RoundTrip.store_insert _ _ _ Hk). reflexivity.
Qed.

Lemma fold_continuations conts d k s :
  jstr_eqb k (js "__proto__") = false ->
  d !! k = Some (FStr s) ->
  Forall (fun line => continuation line = true) conts ->
  data (fold_left step conts
          {| data := d; currentKey := Some k; multilineMode := ModeString |})
  !! k
  = Some (FStr (s ++ List.concat
                       (List.map (fun line => 32%N :: trim line) conts))).
Proof.
  intros Hk. revert d s. induction conts as [|c conts IH]; intros d s Hd Hall.
  - cbn. rewrite app_nil_r. exact Hd.
  - inversion Hall as [|? ? Hc Hall']; subst. cbn [fold_left].
    rewrite (step_continuation d k s c Hk Hd Hc).
    rewrite (IH _ (s ++ 32%N :: trim c)); [|apply lookup_insert_eq|exact Hall'].
    cbn [List.map List.concat]. rewrite <- app_assoc. reflexivity.
Qed.

Lemma continuation_not_dashed line :
  continuation line = true -> startsWith line dashes = false.
Proof.
  unfold continuation. rewrite andb_true_iff. intros [Hi _].
  destruct line as [|c line]; [discriminate|]. cbn [indented] in Hi.
  unfold dashes. cbn [startsWith].
  destruct (N.eqb_spec dash c) as [<-|]; [discriminate|reflexivity].
Qed.

(** X19.  A key whose value is the indicator of a block scalar (a vertical
    bar or a greater-than sign), followed by indented lines that are not
    list items: the parsed value is the trimmed lines, each preceded by one
    space, so it begins with a space and holds no line break. *)
Theorem block_scalar_is_joined header k indicator conts rest :
  Forall no_nl header ->
  Forall (fun l => startsWith l dashes = false) header ->
  wf_key k -> startsWith k dashes = false ->
  indicator = 124%N \/ indicator = 62%N ->
  Forall no_nl conts ->
  Forall (fun line => continuation line = true) conts ->
  exists d,
    parseFrontmatter
      (document (header ++ (k ++ [colon; 32%N; indicator]) :: conts) rest)
    = Some d
    /\ d !! k
       = Some (FStr (List.concat
                       (List.map (fun line => 32%N :: trim line) conts))).
Proof.
  intros Hnl Hd Hk Hkd Hind Hcnl Hc.
  assert (Hinl : no_nl [indicator])
    by (constructor; [destruct Hind as [-> | ->]; discriminate|constructor]).
  destruct (key_line_shape k [indicator] Hk Hkd Hinl) as [Hlnl Hld].
  eexists. split.
  - apply parse_header.
    + destruct header; discriminate.
    + apply Forall_app. split; [exact Hnl|]. constructor; assumption.
    + apply Forall_app. split; [exact Hd|]. constructor; [exact Hld|].
      eapply Forall_impl; [exact Hc|]. exact continuation_not_dashed.
  - rewrite fold_left_app. cbn [fold_left].
    rewrite (RoundTrip.step_key_line _ k [32%N; indicator] Hk).
    rewrite RoundTrip.trim_space.
    destruct Hk as (_ & _ & _ & _ & Hproto).
    assert (Hcl : forall d0,
               classify k (trim [indicator]) d0
               = (<[k := FStr []]> d0, ModeString)).
    { intros d0. unfold classify.
      destruct Hind as [-> | ->]; cbn;
        rewrite (RoundTrip.store_insert _ _ _ Hproto); reflexivity. }
    rewrite Hcl.
    rewrite (fold_continuations conts _ k [] Hproto);
      [reflexivity|apply lookup_insert_eq|exact Hc].
Qed.

(** *** Inline lists *)

(** X20.  A key whose value is written between square brackets is stored
    as the array of the comma-separated pieces, trimmed and with every
    quote deleted.  The array is never empty: empty brackets give one empty
    string, so the field counts as present. *)
Theorem inline_list_is_never_empty header rest k body :
  Forall no_nl header ->
  Forall (fun l => startsWith l dashes = false) header ->
  wf_key k -> startsWith k dashes = false ->
  no_nl body ->
  exists d,
    parseFrontmatter
      (document (header ++ [k ++ [colon; 32%N; 91%N] ++ body ++ [93%N]]) rest)
    = Some d
    /\ d !! k
       = Some (FArr (List.map (fun s => remove_quotes (trim s))
                       (split comma body)))
    /\ split comma body <> []
    /\ truthy (field d k) = true.
Proof.
  intros Hnl Hd Hk Hkd Hb.
  assert (Hvnl : no_nl (91%N :: body ++ [93%N])).
  { constructor; [discriminate|]. apply Forall_app. split; [exact Hb|].
    constructor; [discriminate|constructor]. }
  destruct (key_line_shape k (91%N :: body ++ [93%N]) Hk Hkd Hvnl)
    as [Hlnl Hld].
  assert (Hlook :
    data (fold_left step
            (header ++ [k ++ [colon; 32%N; 91%N] ++ body ++ [93%N]]) initial)
    !! k
    = Some (FArr (List.map (fun s => remove_quotes (trim s))
                    (split comma body)))).
  { rewrite fold_left_app. cbn [fold_left].
    change (k ++ [colon; 32%N; 91%N] ++ body ++ [93%N])
      with (k ++ colon :: 32%N :: 91%N :: body ++ [93%N]).
    rewrite (RoundTrip.step_key_line _ k (32%N :: 91%N :: body ++ [93%N]) Hk).
    rewrite RoundTrip.trim_space.
    pose proof (RoundTrip.trimmed_ends 91%N body 93%N eq_refl eq_refl) as Ht.
    unfold trimmed in Ht. rewrite Ht.
    destruct Hk as (_ & _ & _ & _ & Hproto).
    rewrite (RoundTrip.classify_inline k body _ Hproto).
    cbn [data]. apply lookup_insert_eq. }
  eexists. split; [|split; [exact Hlook|split]].
  - apply parse_header.
    + destruct header; discriminate.
    + apply Forall_app. split; [exact Hnl|].
      constructor; [exact Hlnl|constructor].
    + apply Forall_app. split; [exact Hd|].
      constructor; [exact Hld|constructor].
  - destruct (split_cons comma body) as (w & ws & ->). discriminate.
  - unfold field. rewrite Hlook. reflexivity.
Qed.

(** *** An empty header *)

Lemma before_closing_None s :
  Forall (fun l => startsWith l dashes = false) (tl (split nl s)) ->
  before_closing s = None.
Proof.
  intros Hall. destruct (before_closing s) as [b|] eqn:E; [|reflexivity].
  exfalso. apply before_closing_Some in E. destruct E as [r ->].
  rewrite split_app in Hall.
  destruct (split_cons nl b) as (w & ws & Hb). rewrite Hb in Hall.
  cbn [app tl] in Hall. apply Forall_app in Hall. destruct Hall as [_ Hall].
  destruct (split_head nl dashes r dashes_plain) as (w' & ws' & Hr).
  rewrite Hr in Hall. apply Forall_cons in Hall. destruct Hall as [Hw _].
  rewrite startsWith_app in Hw. discriminate.
Qed.

Lemma split_tail_app sep a c :
  Forall (fun x => x <> sep) a ->
  tl (split sep (a ++ c)) = tl (split sep c).
Proof.
  induction 1 as [|x a Hx _ IH]; [reflexivity|].
  cbn [app split]. apply N.eqb_neq in Hx. rewrite Hx.
  destruct (split_cons sep (a ++ c)) as (w & ws & E). rewrite E in *.
  exact IH.
Qed.

(** X21.  A document whose closing line follows the opening line at once
    has no header for the parser, unless a later line begins with three
    dashes: the expression wants a line break before the header and another
    one after it.  The validator reports the one error for a malformed
    header. *)
Theorem empty_header_is_malformed rest fileName :
  Forall (fun l => startsWith l dashes = false) (tl (lines rest)) ->
  parseFrontmatter (dashes ++ nl :: dashes ++ rest) = None
  /\ validateAgent fileName (FileText (dashes ++ nl :: dashes ++ rest))
     = {| errors := [bad_frontmatter]; warnings := [] |}.
Proof.
  intros Hall.
  assert (Hp : parseFrontmatter (dashes ++ nl :: dashes ++ rest) = None).
  { unfold parseFrontmatter, header_block.
    change (dashes ++ nl :: dashes ++ rest)
      with ((dashes ++ [nl]) ++ dashes ++ rest).
    rewrite strip_prefix_app, before_closing_None; [reflexivity|].
    rewrite (split_tail_app nl dashes rest dashes_plain). exact Hall. }
  split; [exact Hp|].
  unfold validateAgent. rewrite Hp.
  change (dashes ++ nl :: dashes ++ rest)
    with (dashes ++ (nl :: dashes ++ rest)).
  rewrite startsWith_app. reflexivity.
Qed.

(** *** The shape of a parsed header *)

(** X22.  Whatever the document, every key of a parsed header is a
    non-empty, trimmed piece of one line that holds no colon, and is not
    [__proto__]; every value is a string, or an array of strings, without a
    line break. *)
Theorem parsed_header_shape content d k v :
  parseFrontmatter content = Some d ->
  d !! k = Some v ->
  (k <> [] /\ trim k = k
   /\ Forall (fun c => c <> colon /\ c <> nl) k
   /\ k <> js "__proto__")
  /\ match v with
     | FStr s => Forall (fun c => c <> nl) s
     | FArr items => Forall (Forall (fun c => c <> nl)) items
     end.
Proof.
  intros Hp Hk. destruct (RoundTrip.parsed_wf content d Hp) as [Hwf _].
  destruct (Hwf k v Hk) as [(Hne & Ht & Hc & Hn & Hproto) Hv]. split.
  - split; [exact Hne|]. split; [exact Ht|]. split.
    + apply Forall_and. split; assumption.
    + intros ->. rewrite VerifyHooksFacts.jstr_eqb_refl in Hproto.
      discriminate.
  - destruct v as [s|items]; [exact Hv|]. destruct Hv as [Hv _]. exact Hv.
Qed.

(** *** The name and the file name *)

Lemma remove_first_eq p s :
  remove_first p s
  = match strip_prefix s p with
    | Some rest => rest
    | None =>
        match s with
        | [] => []
        | c :: s' => c :: remove_first p s'
        end
    end.
Proof. destruct s; reflexivity. Qed.

Lemma remove_first_suffix p base :
  p <> [] ->
  Forall (fun c => c <> hd 0%N p) base ->
  remove_first p (base ++ p) = base.
Proof.
  intros Hp. induction 1 as [|c base Hc _ IH].
  - rewrite remove_first_eq. cbn [app].
    rewrite <- (app_nil_r p) at 1. rewrite strip_prefix_app. reflexivity.
  - destruct p as [|x p]; [contradiction|]. cbn [hd] in Hc.
    rewrite remove_first_eq. cbn [app strip_prefix].
    apply N.eqb_neq in Hc. rewrite N.eqb_sym in Hc. rewrite Hc.
    f_equal. exact IH.
Qed.

(** X23.  For a file whose base name holds no dot and a header with a
    non-empty string under [name], the validator warns about the name
    exactly when the name differs from the base name. *)
Theorem name_warning_iff content d name base :
  parseFrontmatter content = Some d ->
  d !! js "name" = Some (FStr name) ->
  name <> [] ->
  Forall (fun c => c <> 46%N) base ->
  In (name_mismatch (JStr name) base)
     (warnings (validateAgent (base ++ js ".md") (FileText content)))
  <-> name <> base.
Proof.
  intros Hp Hn Hne Hbase.
  assert (Hname : field d (js "name") = JStr name)
    by (unfold field; rewrite Hn; reflexivity).
  unfold validateAgent. rewrite (parse_Some_opens _ _ Hp), Hp.
  cbn [negb warnings]. cbv zeta.
  rewrite (remove_first_suffix (js ".md") base) by (discriminate || exact Hbase).
  rewrite !Hname. cbn [truthy differs].
  destruct name as [|c name]; [contradiction|].
  destruct (jstr_eqb (c :: name) base) eqn:E; cbn [negb andb app].
  - apply VerifyHooksFacts.jstr_eqb_eq in E. split; [|contradiction].
    intros Hin. exfalso. apply in_app_or in Hin.
    destruct Hin as [Hin|Hin].
    + destruct (_ && _); [|exact Hin].
      destruct Hin as [Hin|[]]. discriminate.
    + destruct (body_of content) as [body|];
        [destruct (Nat.ltb _ _); [|exact Hin]|];
        destruct Hin as [Hin|[]]; discriminate.
  - split; [|intros _; left; reflexivity].
    intros _ Heq. subst base. rewrite VerifyHooksFacts.jstr_eqb_refl in E.
    discriminate.
Qed.


(** *** The exit status *)

Lemma has_errors_iff rs :
  has_errors rs = true
  <-> exists r, In r rs /\ errors (snd r) <> [].
Proof.
  unfold has_errors. rewrite existsb_exists. split.
  - intros (r & Hin & Hr). exists r. split; [exact Hin|].
    intros Hnil. rewrite Hnil in Hr. discriminate.
  - intros (r & Hin & Hr). exists r. split; [exact Hin|].
    destruct (errors (snd r)); [contradiction|reflexivity].
Qed.

Lemma validate_all_errors files :
  has_errors (validate_all files) = true
  <-> exists f, In f files /\ errors (validateAgent (fst f) (snd f)) <> [].
Proof.
  rewrite has_errors_iff. unfold validate_all. split.
  - intros (r & Hin & Hr). apply in_map_iff in Hin.
    destruct Hin as (f & <- & Hin). exists f. auto.
  - intros (f & Hin & Hf).
    exists (fst f, validateAgent (fst f) (snd f)). split; [|exact Hf].
    apply in_map_iff. exists f. auto.
Qed.

Lemma length_zero_nil {A} (l : list A) :
  Nat.eqb (List.length l) 0 = true -> l = [].
Proof. destruct l; [reflexivity|discriminate]. Qed.

(** X24.  The script ends with status 1 exactly when some file of the
    directory whose name ends in [.md] has an error; the other files are
    not read, warnings do not count, and an empty directory passes.  The
    report lists the [.md] files in the order of the directory. *)
Theorem agents_status_iff entries :
  (status (main (Some entries)) = 1%Z
   <-> exists f,
         In f entries /\ endsWith (fst f) (js ".md") = true
         /\ errors (validateAgent (fst f) (snd f)) <> [])
  /\ (status (main (Some entries)) = 1%Z
      \/ status (main (Some entries)) = 0%Z)
  /\ List.map fst (reports (main (Some entries)))
     = List.filter (fun name => endsWith name (js ".md"))
         (List.map fst entries).
Proof.
  unfold main.
  set (files := List.filter (fun f => endsWith (fst f) (js ".md")) entries).
  assert (Hfiles : forall f,
             In f files <-> In f entries /\ endsWith (fst f) (js ".md") = true)
    by (intros f; apply filter_In).
  assert (Hnames : List.map fst files
                   = List.filter (fun name => endsWith name (js ".md"))
                       (List.map fst entries)).
  { subst files. clear Hfiles. induction entries as [|e entries IH];
      [reflexivity|].
    cbn [List.filter List.map]. destruct (endsWith (fst e) (js ".md"));
      cbn [List.map]; rewrite IH; reflexivity. }
  destruct (Nat.eqb (List.length files) 0) eqn:E.
  - apply length_zero_nil in E. cbn [status reports List.map].
    rewrite <- Hnames, E. split; [|split; [right|]; reflexivity].
    split; [discriminate|]. intros (f & Hin & Hmd & _).
    assert (Hf : In f files) by (apply Hfiles; auto).
    rewrite E in Hf. destruct Hf.
  - cbn [status reports]. split; [|split].
    + destruct (has_errors (validate_all files)) eqn:Eh.
      * split; [intros _|reflexivity].
        apply validate_all_errors in Eh. destruct Eh as (f & Hin & Hf).
        apply Hfiles in Hin. exists f. tauto.
      * split; [discriminate|]. intros (f & Hin & Hmd & Hf).
        assert (Hh : has_errors (validate_all files) = true).
        { apply validate_all_errors. exists f. split; [|exact Hf].
          apply Hfiles. auto. }
        congruence.
    + destruct (has_errors _); auto.
    + rewrite <- Hnames. unfold validate_all. rewrite List.map_map.
      reflexivity.
Qed.

Section Plugin.

Variable resolve : jstr -> jstr.
Variable existsSync : jstr -> bool.

Local Abbreviation validatePluginAgents :=
  (validatePluginAgents resolve existsSync).
Local Abbreviation main_plugin := (main_plugin resolve existsSync).

(** X25.  The copy of the script that also checks the manifest reads the
    manifest only when the directory holds a [.md] file: with none it ends
    with status 0 whatever the manifest says, even one on which the check
    would throw.  Otherwise the manifest is checked against the names of the
    [.md] files, and the status is 1 exactly when a file or the manifest
    has an error. *)
Theorem plugin_status_iff entries pluginFile :
  let files := List.filter (fun f => endsWith (fst f) (js ".md")) entries in
  (files = [] ->
   main_plugin (Some entries) pluginFile
   = Ok {| file_reports := [];
           plugin_report := {| errors := []; warnings := [] |};
           plugin_status := 0 |})
  /\ (files <> [] ->
      forall r,
        main_plugin (Some entries) pluginFile = Ok r ->
        validatePluginAgents pluginFile (List.map fst files)
        = Ok (plugin_report r)
        /\ (plugin_status r = 1%Z
            <-> (exists f, In f files
                           /\ errors (validateAgent (fst f) (snd f)) <> [])
                \/ errors (plugin_report r) <> [])).
Proof.
  intros files. unfold ValidateAgents.main_plugin. fold files. split.
  - intros ->. reflexivity.
  - intros Hne r. destruct (Nat.eqb (List.length files) 0) eqn:E;
      [apply length_zero_nil in E; contradiction|].
    destruct (validatePluginAgents pluginFile (List.map fst files))
      as [pr|]; [|discriminate].
    cbn [bind]. intros [= <-]. cbn [plugin_report plugin_status].
    split; [reflexivity|].
    rewrite <- validate_all_errors.
    destruct (has_errors (validate_all files)); cbn [orb].
    + split; [intros _; left|]; reflexivity.
    + destruct (errors pr) as [|e es]; cbn [List.length Nat.eqb negb].
      * split; [discriminate|]. intros [H|H]; [discriminate|contradiction].
      * split; [intros _; right; discriminate|reflexivity].
Qed.

(** *** The manifest *)

Lemma flat_map_nil {A B} (f : A -> list B) l :
  flat_map f l = [] -> Forall (fun x => f x = []) l.
Proof.
  induction l as [|x l IH]; cbn [flat_map]; [constructor|].
  intros H. apply app_eq_nil in H. destruct H as [Hx Hl].
  constructor; [exact Hx|exact (IH Hl)].
Qed.

(** X26.  A manifest that can be read gets no error only when it is
    consistent: [agents] is an array that has as many entries as the
    directory has [.md] files, and every entry is a string that ends in
    [.md] and names a file that exists. *)
Theorem manifest_without_error_is_consistent plugin agentFiles r :
  validatePluginAgents (PluginJson plugin) agentFiles = Ok r ->
  errors r = [] ->
  exists entries,
    get plugin (js "agents") = Ok (JArr entries)
    /\ List.length entries = List.length agentFiles
    /\ Forall (fun entry =>
                 exists e, entry = JStr e
                   /\ endsWith e (js ".md") = true
                   /\ endsWith e (js "/") = false
                   /\ existsSync (resolve e) = true) entries.
Proof.
  unfold ValidateAgents.validatePluginAgents.
  destruct (get plugin (js "agents")) as [agents|]; [|discriminate].
  cbn [bind].
  destruct agents as [| | | | |entries|]; try (intros [= <-]; discriminate).
  intros [= <-]. cbn [errors]. intros H.
  apply app_eq_nil in H. destruct H as [Hformat H].
  apply app_eq_nil in H. destruct H as [Hcount Hexist].
  exists entries. split; [reflexivity|]. split.
  - destruct (Nat.eqb (List.length entries) (List.length agentFiles)) eqn:E;
      [apply Nat.eqb_eq; exact E|discriminate].
  - apply flat_map_nil in Hformat. apply flat_map_nil in Hexist.
    clear Hcount. induction entries as [|entry entries IH]; [constructor|].
    inversion Hformat as [|? ? Hf Hformat']; subst.
    inversion Hexist as [|? ? He Hexist']; subst.
    constructor; [|exact (IH Hformat' Hexist')].
    destruct entry as [| | | |e| |]; try discriminate.
    exists e. split; [reflexivity|]. cbn [format_errors existence_errors] in *.
    destruct (endsWith e (js "/")); [discriminate|].
    destruct (endsWith e (js ".md")); [|discriminate].
    destruct (existsSync (resolve e)); [|discriminate]. auto.
Qed.

Lemma endsWith_last_char s p c d :
  c <> d -> endsWith (s ++ [c]) (p ++ [d]) = false.
Proof.
  intros Hne. unfold endsWith. rewrite !rev_app_distr. cbn [rev app startsWith].
  destruct (N.eqb_spec d c) as [->|]; [contradiction|reflexivity].
Qed.

Lemma endsWith_slash e :
  endsWith e (js "/") = true -> exists s, e = s ++ [47%N].
Proof.
  unfold endsWith. change (rev (js "/")) with [47%N].
  destruct (rev e) as [|c r] eqn:E; [discriminate|].
  cbn [startsWith]. rewrite RoundTrip.startsWith_nil, andb_true_r. intros H.
  apply N.eqb_eq in H. subst c. exists (rev r).
  rewrite <- (rev_involutive e), E. reflexivity.
Qed.

Lemma directory_not_md e :
  endsWith e (js "/") = true -> endsWith e (js ".md") = false.
Proof.
  intros H. apply endsWith_slash in H. destruct H as [s ->].
  change (js ".md") with (js ".m" ++ [100%N]).
  apply endsWith_last_char. discriminate.
Qed.

(** X27.  Every entry of the manifest's array is checked on its own, and
    no entry hides the errors of another: a value that is not a string gets
    the type error; a string that ends in a slash gets both the directory
    error and the suffix error; a string that does not end in [.md] gets the
    suffix error; and a string that names no file gets the missing-file
    error. *)
Theorem manifest_entry_errors plugin entries agentFiles entry :
  get plugin (js "agents") = Ok (JArr entries) ->
  In entry entries ->
  exists r,
    validatePluginAgents (PluginJson plugin) agentFiles = Ok r
    /\ match entry with
       | JStr e =>
           (endsWith e (js "/") = true ->
            In (entry_is_directory e) (errors r)
            /\ In (entry_not_md e) (errors r))
           /\ (endsWith e (js ".md") = false ->
               In (entry_not_md e) (errors r))
           /\ (existsSync (resolve e) = false ->
               In (entry_missing e) (errors r))
       | _ => In (entry_not_string entry) (errors r)
       end.
Proof.
  intros Hget Hin. unfold ValidateAgents.validatePluginAgents.
  rewrite Hget. cbn [bind]. eexists. split; [reflexivity|]. cbn [errors].
  assert (Hformat : forall m, In m (format_errors entry) ->
            In m (flat_map format_errors entries
                  ++ (if negb (Nat.eqb (List.length entries)
                                 (List.length agentFiles))
                      then [count_mismatch (List.length entries)
                              (List.length agentFiles)]
                      else [])
                  ++ flat_map (existence_errors resolve existsSync) entries)).
  { intros m Hm. apply in_or_app. left. apply in_flat_map. exists entry. auto. }
  assert (Hexist : forall m,
            In m (existence_errors resolve existsSync entry) ->
            In m (flat_map format_errors entries
                  ++ (if negb (Nat.eqb (List.length entries)
                                 (List.length agentFiles))
                      then [count_mismatch (List.length entries)
                              (List.length agentFiles)]
                      else [])
                  ++ flat_map (existence_errors resolve existsSync) entries)).
  { intros m Hm. apply in_or_app. right. apply in_or_app. right.
    apply in_flat_map. exists entry. auto. }
  destruct entry as [| | | |e| |]; try (apply Hformat; left; reflexivity).
  split; [|split].
  - intros Hdir. split; apply Hformat; cbn [format_errors];
      rewrite Hdir, (directory_not_md e Hdir); cbn [negb app];
      [left|right; left]; reflexivity.
  - intros Hmd. apply Hformat. cbn [format_errors]. rewrite Hmd.
    apply in_or_app. right. left. reflexivity.
  - intros Hmiss. apply Hexist. cbn [existence_errors]. rewrite Hmiss.
    left. reflexivity.
Qed.

End Plugin.

(** *** The theorems at sample inputs *)

Ltac plain_line :=
  repeat (constructor; [discriminate|]); constructor.

Ltac plain_lines :=
  repeat (constructor; [plain_line|]); constructor.

Lemma name_is_a_key : wf_key (js "name").
Proof.
  split; [discriminate|]. split; [reflexivity|].
  split; [plain_line|]. split; [plain_line|reflexivity].
Defined.

Lemma description_is_a_key : wf_key (js "description").
Proof.
  split; [discriminate|]. split; [reflexivity|].
  split; [plain_line|]. split; [plain_line|reflexivity].
Defined.

Lemma document_header_and_body_witness :
  parseFrontmatter
    (document [js "name: planner"; js "tools: [Read, Grep]"] (js "-- end"))
  = Some {[ js "name" := FStr (js "planner");
            js "tools" := FArr [js "Read"; js "Grep"] ]}
  /\ body_of
       (document [js "name: planner"; js "tools: [Read, Grep]"]
          (nl :: js "The body."))
     = Some (js "The body.").
Proof.
  destruct (document_header_and_body (js "name: planner")
              [js "tools: [Read, Grep]"] (js "-- end") (js "The body."))
    as [Hp Hb].
  - plain_lines.
  - repeat constructor.
  - split; [rewrite Hp; reflexivity|exact Hb].
Defined.

Lemma last_key_line_wins_witness :
  exists d,
    parseFrontmatter
      (document [js "name:"; js "  - first"; js "name: last"] [])
    = Some d
    /\ d !! js "name" = Some (FStr (js "last")).
Proof.
  apply (last_key_line_wins [js "name:"; js "  - first"] [] (js "name")
           (js "last")).
  - plain_lines.
  - repeat constructor.
  - exact name_is_a_key.
  - reflexivity.
  - repeat split; (discriminate || reflexivity).
  - plain_line.
Defined.

Lemma block_scalar_is_joined_witness :
  exists d,
    parseFrontmatter
      (document [js "description: |"; js "  Plans the work"; js "  in steps."]
         [])
    = Some d
    /\ d !! js "description" = Some (FStr (js " Plans the work in steps.")).
Proof.
  apply (block_scalar_is_joined [] (js "description") 124%N
           [js "  Plans the work"; js "  in steps."] []).
  - constructor.
  - constructor.
  - exact description_is_a_key.
  - reflexivity.
  - left. reflexivity.
  - plain_lines.
  - repeat constructor.
Defined.

Lemma inline_list_is_never_empty_witness :
  exists d,
    parseFrontmatter (document [js "name: x"; js "tools: []"] []) = Some d
    /\ d !! js "tools" = Some (FArr [[]])
    /\ errors (validateAgent (js "x.md")
                 (FileText (document [js "name: x"; js "tools: []"] [])))
       = [missing_field (js "description")].
Proof.
  destruct (inline_list_is_never_empty [js "name: x"] [] (js "tools") [])
    as (d & Hp & Hd & _).
  - plain_lines.
  - repeat constructor.
  - split; [discriminate|]. split; [reflexivity|].
    split; [plain_line|]. split; [plain_line|reflexivity].
  - reflexivity.
  - constructor.
  - exists d. split; [exact Hp|]. split; [exact Hd|]. reflexivity.
Defined.

Lemma empty_header_is_malformed_witness :
  validateAgent (js "planner.md")
    (FileText (dashes ++ nl :: dashes ++ nl :: js "The body."))
  = {| errors := [bad_frontmatter]; warnings := [] |}.
Proof.
  apply (empty_header_is_malformed (nl :: js "The body.") (js "planner.md")).
  repeat constructor.
Defined.

Lemma parsed_header_shape_witness :
  trim (js "skills") = js "skills"
  /\ Forall (Forall (fun c => c <> nl)) [js "security, audit"; js "review"].
Proof.
  destruct (parsed_header_shape planner _ (js "skills")
              (FArr [js "security, audit"; js "review"]) eq_refl eq_refl)
    as [(_ & Ht & _) Hv].
  split; [exact Ht|exact Hv].
Defined.

Lemma name_warning_iff_witness :
  In (name_mismatch (JStr (js "planner")) (js "plan"))
     (warnings (validateAgent (js "plan.md") (FileText two_missing))).
Proof.
  apply (name_warning_iff two_missing _ (js "planner") (js "plan")
           eq_refl eq_refl).
  - discriminate.
  - plain_line.
  - discriminate.
Defined.

Lemma agents_status_iff_witness :
  status (main (Some listed)) = 1%Z
  /\ List.map fst (reports (main (Some listed))) = [js "planner.md"].
Proof.
  destruct (agents_status_iff listed) as (Hs & _ & Hr).
  split; [|exact Hr]. apply (proj2 Hs).
  exists (js "planner.md", FileText two_missing).
  split; [right; left; reflexivity|]. split; [reflexivity|]. discriminate.
Defined.

Lemma plugin_status_iff_witness :
  main_plugin id all_exist (Some [(js "README.txt", FileError (js "EACCES"))])
    (PluginJson JNull)
  = Ok {| file_reports := [];
          plugin_report := {| errors := []; warnings := [] |};
          plugin_status := 0 |}.
Proof.
  apply (plugin_status_iff id all_exist
           [(js "README.txt", FileError (js "EACCES"))] (PluginJson JNull)).
  reflexivity.
Defined.

Lemma manifest_without_error_is_consistent_witness :
  exists entries,
    get (JObj [(js "agents", JArr three_declared)]) (js "agents")
    = Ok (JArr entries)
    /\ List.length entries = 3.
Proof.
  destruct (manifest_without_error_is_consistent id all_exist
              (JObj [(js "agents", JArr three_declared)])
              [js "a.md"; js "b.md"; js "c.md"] _ eq_refl eq_refl)
    as (entries & Hget & Hlen & _).
  exists entries. split; [exact Hget|exact Hlen].
Defined.

Lemma manifest_entry_errors_witness :
  exists r,
    validatePluginAgents id all_exist
      (PluginJson (JObj [(js "agents", JArr with_directory)])) []
    = Ok r
    /\ In (entry_is_directory (js "agents/")) (errors r)
    /\ In (entry_not_md (js "agents/")) (errors r).
Proof.
  destruct (manifest_entry_errors id all_exist
              (JObj [(js "agents", JArr with_directory)]) with_directory []
              (JStr (js "agents/")) eq_refl (or_introl eq_refl))
    as (r & Hr & Hdir & _).
  exists r. split; [exact Hr|]. apply Hdir. reflexivity.
Defined.

End ValidateAgentsMore.
